(** * Task board manager (Version 2.0): shallow embedding and properties

    Source files embedded here:
    - [advanced_task_board.py]: [TaskStatus], [TaskBoardEntry],
      [VALID_TRANSITIONS], read as the enumeration, the record and the table
      they declare;
    - [advanced_task_board_manager.py]: class [TaskBoardManager].

    Modelling conventions.
    - A method of [TaskBoardManager] is a computation [M A]: a function from
      the manager's state to an [Outcome], which is a normal return, a raised
      exception, or divergence.  A raised exception carries the state at the
      moment of the raise: Python does not undo the writes made before it.
    - A Python [dict] is an insertion-ordered association list ([Dict.t]);
      a Python [set] of ids is a duplicate-free list, iterated in list order.
    - [heapq] is embedded as [heapq.py] has it: the queue is a list laid out
      as a binary heap, [heappop] takes its first item, and [heappush],
      [heappop] and [heapify] move items with [_siftdown] and [_siftup], which
      compare (priority, id) tuples.
    - A value of [datetime.now()] is the opaque [PyDatetime]; the
      [last_updated] field and the timestamp of an event, which nothing
      reads, are left out.
    - [await f(...)] is an ordinary call.  A call of an [async def] that is
      not awaited only builds a coroutine object ([Coroutine]).
    - Recursion that the source does not bound (the nested calls of
      [update_task_status], the loop of [get_next_priority_task], the two
      depth-first searches) takes a [fuel] argument; running out of it is the
      outcome [Diverges]. *)

From Stdlib Require Import String List ZArith Lia Bool Permutation.
From Stdlib Require Import DecimalString.
Import ListNotations.

Set Warnings "-register-all".

Local Open Scope string_scope.
Local Open Scope list_scope.
Local Open Scope Z_scope.

(** ** Python values that flow through the board *)

Inductive PyVal : Type :=
| PyNone
| PyBool (b : bool)
| PyInt (z : Z)
| PyStr (s : string)
| PyDatetime
| PyDict (items : list (string * PyVal)).

(** Python truth value ([bool(v)]). *)
Definition truthy (v : PyVal) : bool :=
  match v with
  | PyNone => false
  | PyBool b => b
  | PyInt z => negb (z =? 0)
  | PyStr s => negb (s =? "")%string
  | PyDatetime => true
  | PyDict items => match items with [] => false | _ :: _ => true end
  end.

(** ** Insertion-ordered dictionaries with string keys *)

Module Dict.

Definition t (V : Type) : Type := list (string * V).

Fixpoint get {V} (k : string) (d : t V) : option V :=
  match d with
  | [] => None
  | (k', v) :: d' => if (k =? k')%string then Some v else get k d'
  end.

Definition mem {V} (k : string) (d : t V) : bool :=
  match get k d with Some _ => true | None => false end.

(** [d[k] = v]: an existing key keeps its place, a new key goes last. *)
Fixpoint set {V} (k : string) (v : V) (d : t V) : t V :=
  match d with
  | [] => [(k, v)]
  | (k', v') :: d' =>
      if (k =? k')%string then (k', v) :: d' else (k', v') :: set k v d'
  end.

(** In-place mutation of the object stored under [k]. *)
Fixpoint adjust {V} (k : string) (f : V -> V) (d : t V) : t V :=
  match d with
  | [] => []
  | (k', v) :: d' =>
      if (k =? k')%string then (k', f v) :: d' else (k', v) :: adjust k f d'
  end.

(** [d.pop(k)] on a dictionary that holds [k]. *)
Definition pop {V} (k : string) (d : t V) : t V :=
  filter (fun kv => negb (k =? fst kv)%string) d.

Definition keys {V} (d : t V) : list string := map fst d.
Definition values {V} (d : t V) : list V := map snd d.

(** Mutation of every stored value ([for v in d.values(): ...]). *)
Definition map_values {V W} (f : V -> W) (d : t V) : t W :=
  map (fun kv => (fst kv, f (snd kv))) d.

End Dict.

(** ** [advanced_task_board.py] *)

Inductive TaskStatus : Type :=
| WAITING
| IN_PROGRESS
| PENDING_REVIEW
| REWORK_NEEDED
| COMPLETE
| STALLED
| ABANDONED.

Definition TaskStatus_eqb (a b : TaskStatus) : bool :=
  match a, b with
  | WAITING, WAITING | IN_PROGRESS, IN_PROGRESS
  | PENDING_REVIEW, PENDING_REVIEW | REWORK_NEEDED, REWORK_NEEDED
  | COMPLETE, COMPLETE | STALLED, STALLED | ABANDONED, ABANDONED => true
  | _, _ => false
  end.

(** A feedback item is a Python dict ([Dict[str, Any]]). *)
Definition Feedback : Type := Dict.t PyVal.

Record TaskBoardEntry : Type := {
  id : string;
  description : string;
  dependencies : list string;
  status : TaskStatus;
  history : list string;
  verification_feedback : list Feedback;
  output : PyVal;
  priority : Z;
  max_iterations : Z;
  current_iterations : Z;
  assigned_agent : option string
}.

Definition with_status (s : TaskStatus) (t : TaskBoardEntry) : TaskBoardEntry :=
  {| id := id t; description := description t; dependencies := dependencies t;
     status := s; history := history t;
     verification_feedback := verification_feedback t; output := output t;
     priority := priority t; max_iterations := max_iterations t;
     current_iterations := current_iterations t;
     assigned_agent := assigned_agent t |}.

Definition with_dependencies (ds : list string) (t : TaskBoardEntry) : TaskBoardEntry :=
  {| id := id t; description := description t; dependencies := ds;
     status := status t; history := history t;
     verification_feedback := verification_feedback t; output := output t;
     priority := priority t; max_iterations := max_iterations t;
     current_iterations := current_iterations t;
     assigned_agent := assigned_agent t |}.

Definition with_verification_feedback (fs : list Feedback) (t : TaskBoardEntry) : TaskBoardEntry :=
  {| id := id t; description := description t; dependencies := dependencies t;
     status := status t; history := history t;
     verification_feedback := fs; output := output t;
     priority := priority t; max_iterations := max_iterations t;
     current_iterations := current_iterations t;
     assigned_agent := assigned_agent t |}.

Definition with_output (o : PyVal) (t : TaskBoardEntry) : TaskBoardEntry :=
  {| id := id t; description := description t; dependencies := dependencies t;
     status := status t; history := history t;
     verification_feedback := verification_feedback t; output := o;
     priority := priority t; max_iterations := max_iterations t;
     current_iterations := current_iterations t;
     assigned_agent := assigned_agent t |}.

Definition with_priority (p : Z) (t : TaskBoardEntry) : TaskBoardEntry :=
  {| id := id t; description := description t; dependencies := dependencies t;
     status := status t; history := history t;
     verification_feedback := verification_feedback t; output := output t;
     priority := p; max_iterations := max_iterations t;
     current_iterations := current_iterations t;
     assigned_agent := assigned_agent t |}.

Definition with_current_iterations (n : Z) (t : TaskBoardEntry) : TaskBoardEntry :=
  {| id := id t; description := description t; dependencies := dependencies t;
     status := status t; history := history t;
     verification_feedback := verification_feedback t; output := output t;
     priority := priority t; max_iterations := max_iterations t;
     current_iterations := n;
     assigned_agent := assigned_agent t |}.

(** The payload ([data]) of each kind of event the manager emits. *)
Inductive EventData : Type :=
| DataTask (task : TaskBoardEntry)
| DataStatusChanged (old_status new_status : TaskStatus) (reason : string)
| DataIteration (current : Z)
| DataVerificationRequested (task_context : list string) (current_output : PyVal) (iteration : Z)
| DataEscalated (reason : string) (feedback_history : list Feedback) (agent : string)
| DataRecoveryNeeded (failed_dependencies : list string) (task_context : list string) (agent : string)
| DataDependenciesUpdated (old_dependencies new_dependencies : list string)
| DataPriorityUpdated (old_priority new_priority : Z).

Record TaskBoardEvent : Type := {
  event_type : string;
  task_id : string;
  data : EventData
}.

(** [VALID_TRANSITIONS.get(old_status, set())]: COMPLETE and ABANDONED are not
    keys of the table. *)
Definition VALID_TRANSITIONS (old_status : TaskStatus) : list TaskStatus :=
  match old_status with
  | WAITING => [IN_PROGRESS; ABANDONED]
  | IN_PROGRESS => [PENDING_REVIEW; STALLED]
  | PENDING_REVIEW => [COMPLETE; REWORK_NEEDED]
  | REWORK_NEEDED => [IN_PROGRESS; ABANDONED]
  | STALLED => [IN_PROGRESS; ABANDONED]
  | COMPLETE | ABANDONED => []
  end.

Definition status_in (s : TaskStatus) (l : list TaskStatus) : bool :=
  existsb (TaskStatus_eqb s) l.

(** ** [advanced_task_board_manager.py]: state and effects *)

Inductive Exn : Type :=
| KeyError
| ValueError
| TypeError
| AttributeError
| CircularDependencyError
| DependencyError
| InvalidTransitionError
| StateError
| FeedbackConflictError.

(** The fields set by [TaskBoardManager.__init__].  [event_stream] is [None]
    until a stream is attached; an attached stream is the log of what was
    emitted to it, oldest first. *)
Record TaskBoardManager : Type := {
  tasks : Dict.t TaskBoardEntry;
  event_stream : option (list TaskBoardEvent);
  dependency_graph : Dict.t (list string);
  priority_queue : list (Z * string);
  feedback_threshold : Z;
  escalation_agent : string
}.

Definition init : TaskBoardManager :=
  {| tasks := []; event_stream := None; dependency_graph := [];
     priority_queue := []; feedback_threshold := 3;
     escalation_agent := "delegator" |}.

Definition set_tasks (f : Dict.t TaskBoardEntry -> Dict.t TaskBoardEntry)
  (b : TaskBoardManager) : TaskBoardManager :=
  {| tasks := f (tasks b); event_stream := event_stream b;
     dependency_graph := dependency_graph b;
     priority_queue := priority_queue b;
     feedback_threshold := feedback_threshold b;
     escalation_agent := escalation_agent b |}.

Definition set_dependency_graph (f : Dict.t (list string) -> Dict.t (list string))
  (b : TaskBoardManager) : TaskBoardManager :=
  {| tasks := tasks b; event_stream := event_stream b;
     dependency_graph := f (dependency_graph b);
     priority_queue := priority_queue b;
     feedback_threshold := feedback_threshold b;
     escalation_agent := escalation_agent b |}.

Definition set_priority_queue (f : list (Z * string) -> list (Z * string))
  (b : TaskBoardManager) : TaskBoardManager :=
  {| tasks := tasks b; event_stream := event_stream b;
     dependency_graph := dependency_graph b;
     priority_queue := f (priority_queue b);
     feedback_threshold := feedback_threshold b;
     escalation_agent := escalation_agent b |}.

Definition set_event_stream (f : option (list TaskBoardEvent) -> option (list TaskBoardEvent))
  (b : TaskBoardManager) : TaskBoardManager :=
  {| tasks := tasks b; event_stream := f (event_stream b);
     dependency_graph := dependency_graph b;
     priority_queue := priority_queue b;
     feedback_threshold := feedback_threshold b;
     escalation_agent := escalation_agent b |}.

Inductive Outcome (A : Type) : Type :=
| Returns (a : A) (b : TaskBoardManager)
| Raises (e : Exn) (b : TaskBoardManager)
| Diverges.

Arguments Returns {A} a b.
Arguments Raises {A} e b.
Arguments Diverges {A}.

Definition M (A : Type) : Type := TaskBoardManager -> Outcome A.

Definition ret {A} (a : A) : M A := fun b => Returns a b.

Definition bind {A B} (m : M A) (k : A -> M B) : M B :=
  fun b =>
    match m b with
    | Returns a b' => k a b'
    | Raises e b' => Raises e b'
    | Diverges => Diverges
    end.

Definition raise {A} (e : Exn) : M A := fun b => Raises e b.
Definition diverge {A} : M A := fun _ => Diverges.
Definition self : M TaskBoardManager := fun b => Returns b b.
Definition mutate (f : TaskBoardManager -> TaskBoardManager) : M unit :=
  fun b => Returns tt (f b).

Declare Scope board_scope.
Delimit Scope board_scope with board.
Notation "x <- m ;; k" := (bind m (fun x => k))
  (at level 61, m at next level, right associativity) : board_scope.
Notation "m ;; k" := (bind m (fun _ => k))
  (at level 61, right associativity) : board_scope.
Local Open Scope board_scope.

(** [for x in xs: body(x)], for a list fixed before the loop starts. *)
Fixpoint for_each {X} (xs : list X) (body : X -> M unit) : M unit :=
  match xs with
  | [] => ret tt
  | x :: xs' => body x ;; for_each xs' body
  end.

(** [self.tasks[task_id]] *)
Definition task_at (task_id : string) : M TaskBoardEntry :=
  b <- self ;;
  match Dict.get task_id (tasks b) with
  | Some t => ret t
  | None => raise KeyError
  end.

(** Attribute assignment on the entry object stored under [task_id]. *)
Definition update_entry (task_id : string) (f : TaskBoardEntry -> TaskBoardEntry) : M unit :=
  mutate (set_tasks (Dict.adjust task_id f)).

Definition in_ids (x : string) (l : list string) : bool :=
  existsb (String.eqb x) l.

(** [set(l)]: duplicates dropped, first occurrences kept. *)
Fixpoint py_set (l : list string) : list string :=
  match l with
  | [] => []
  | x :: l' => x :: filter (fun y => negb (x =? y)%string) (py_set l')
  end.

(** [self.event_stream.emit(event)], guarded by [if self.event_stream:]:
    nothing is emitted while no stream is attached. *)
Definition log_event (e : TaskBoardEvent) (b : TaskBoardManager) : TaskBoardManager :=
  set_event_stream (fun s =>
    match s with
    | Some log => Some (log ++ [e])
    | None => None
    end) b.

Definition emit_task_event (task_id : string) (event_type : string) (data : EventData) : M unit :=
  mutate (log_event {| event_type := event_type; task_id := task_id; data := data |}).

(** [get_blocked_tasks] *)
Definition blocked_by (task_id : string) (g : Dict.t (list string)) : list string :=
  map fst (filter (fun kv => in_ids task_id (snd kv)) g).

Definition get_blocked_tasks (task_id : string) : M (list string) :=
  b <- self ;;
  if negb (Dict.mem task_id (tasks b)) then raise KeyError
  else ret (blocked_by task_id (dependency_graph b)).

(** The loop of [check_dependencies]: [None] is the [KeyError] of
    [self.tasks[dep_id]]. *)
Fixpoint all_complete (ts : Dict.t TaskBoardEntry) (deps : list string) : option bool :=
  match deps with
  | [] => Some true
  | dep_id :: deps' =>
      match Dict.get dep_id ts with
      | None => None
      | Some dep_task =>
          if negb (TaskStatus_eqb (status dep_task) COMPLETE) then Some false
          else all_complete ts deps'
      end
  end.

Definition check_dependencies (task_id : string) : M bool :=
  b <- self ;;
  if negb (Dict.mem task_id (tasks b)) then raise KeyError
  else
    match Dict.get task_id (dependency_graph b) with
    | None => raise KeyError
    | Some deps =>
        match all_complete (tasks b) deps with
        | Some r => ret r
        | None => raise KeyError
        end
    end.

(** [out[key] = value] on the object [out]: only a dict supports item
    assignment. *)
Definition setitem (out : PyVal) (key : string) (value : PyVal) : option PyVal :=
  match out with
  | PyDict items => Some (PyDict (Dict.set key value items))
  | _ => None
  end.

(** [TaskBoardManager] defines no method [propagate_status] and has no base
    class: the attribute lookup on [self] raises. *)
Definition propagate_status (task_id : string) (s : TaskStatus) (reason : string) : M unit :=
  raise AttributeError.

(** The loop of [handle_partial_failure] that collects the failed
    dependencies: [None] is the [KeyError] of [self.tasks[dep_id]]. *)
Fixpoint failed_dependencies (ts : Dict.t TaskBoardEntry) (deps : list string) : option (list string) :=
  match deps with
  | [] => Some []
  | dep_id :: deps' =>
      match Dict.get dep_id ts with
      | None => None
      | Some dep_task =>
          match failed_dependencies ts deps' with
          | None => None
          | Some rest =>
              if status_in (status dep_task) [ABANDONED; STALLED]
              then Some (dep_id :: rest) else Some rest
          end
      end
  end.

Section Callbacks.

(** The methods below call back into [update_task_status]; [update] stands for
    that recursive call. *)
Variable update : string -> TaskStatus -> string -> M unit.

Definition handle_partial_failure_with (task_id : string) : M unit :=
  task <- task_at task_id ;;
  b <- self ;;
  match failed_dependencies (tasks b) (dependencies task) with
  | None => raise KeyError
  | Some failed_deps =>
      match failed_deps with
      | [] => ret tt
      | _ :: _ =>
          emit_task_event task_id "DEPENDENCY_RECOVERY_NEEDED"
            (DataRecoveryNeeded failed_deps (history task) (escalation_agent b)) ;;
          update task_id STALLED ("Dependencies failed: " ++ String.concat ", " failed_deps)
      end
  end.

Definition escalate_task_with (task_id : string) (reason : string) : M unit :=
  task <- task_at task_id ;;
  b <- self ;;
  emit_task_event task_id "TASK_ESCALATED"
    (DataEscalated reason (verification_feedback task) (escalation_agent b)) ;;
  update task_id STALLED ("Escalated: " ++ reason).

(** The body of the loop over the blocked tasks of a completed task. *)
Definition propagate_result (task_id : string) (dep_task_id : string) : M unit :=
  dep_task <- task_at dep_task_id ;;
  (if negb (truthy (output dep_task))
   then update_entry dep_task_id (with_output (PyDict []))
   else ret tt) ;;
  dep_task' <- task_at dep_task_id ;;
  task <- task_at task_id ;;
  match setitem (output dep_task') task_id (output task) with
  | None => raise TypeError
  | Some out' =>
      update_entry dep_task_id (with_output out') ;;
      ready <- check_dependencies dep_task_id ;;
      if ready then update dep_task_id IN_PROGRESS "All dependencies complete"
      else ret tt
  end.

End Callbacks.

(** [update_task_status].  [fuel] bounds the depth of the nested calls. *)
Fixpoint update_task_status (fuel : nat) (task_id : string) (new_status : TaskStatus)
  (reason : string) : M unit :=
  match fuel with
  | O => diverge
  | S fuel' =>
      task <- task_at task_id ;;
      let old_status := status task in
      if negb (status_in new_status (VALID_TRANSITIONS old_status))
      then raise InvalidTransitionError
      else
        update_entry task_id (with_status new_status) ;;
        match new_status with
        | COMPLETE =>
            blocked <- get_blocked_tasks task_id ;;
            for_each blocked (propagate_result (update_task_status fuel') task_id)
        | ABANDONED => propagate_status task_id ABANDONED reason
        | STALLED => handle_partial_failure_with (update_task_status fuel') task_id
        | REWORK_NEEDED =>
            update_entry task_id
              (fun t => with_current_iterations (current_iterations t + 1) t) ;;
            task' <- task_at task_id ;;
            if current_iterations task' >=? max_iterations task'
            then escalate_task_with (update_task_status fuel') task_id
                   "Maximum iterations reached during rework"
            else ret tt
        | _ => ret tt
        end ;;
        emit_task_event task_id "STATUS_CHANGED"
          (DataStatusChanged old_status new_status reason)
  end.

Definition handle_partial_failure (fuel : nat) (task_id : string) : M unit :=
  handle_partial_failure_with (update_task_status fuel) task_id.

Definition escalate_task (fuel : nat) (task_id : string) (reason : string) : M unit :=
  escalate_task_with (update_task_status fuel) task_id reason.

(** [handle_status_transition]: no method of the class calls it. *)
Definition handle_status_transition (fuel : nat) (task_id : string)
  (old_status new_status : TaskStatus) : M unit :=
  task <- task_at task_id ;;
  match new_status with
  | COMPLETE =>
      blocked_tasks <- get_blocked_tasks task_id ;;
      for_each blocked_tasks (fun blocked_id =>
        blocked_task <- task_at blocked_id ;;
        ready <- check_dependencies blocked_id ;;
        if ready then update_task_status fuel blocked_id IN_PROGRESS "Dependencies completed"
        else ret tt)
  | ABANDONED =>
      blocked_tasks <- get_blocked_tasks task_id ;;
      for_each blocked_tasks (fun blocked_id =>
        update_task_status fuel blocked_id ABANDONED
          ("Dependency " ++ task_id ++ " abandoned"))
  | _ => ret tt
  end.

(** *** Cycle detection *)

(** The result of a computation that reads the graph only. *)
Inductive Pure (A : Type) : Type :=
| PVal (a : A)
| PExn (e : Exn)
| PLoop.

Arguments PVal {A} a.
Arguments PExn {A} e.
Arguments PLoop {A}.

Definition lift {A} (p : Pure A) : M A :=
  match p with
  | PVal a => ret a
  | PExn e => raise e
  | PLoop => diverge
  end.

(** The three locals [visited], [path] and [cycles] that the nested [dfs] of
    [detect_circular_dependencies] closes over. *)
Record DfsState : Type := {
  dfs_visited : list string;
  dfs_path : list string;
  dfs_cycles : list (list string)
}.

(** [path.index(task_id)] *)
Fixpoint index_of (x : string) (l : list string) : nat :=
  match l with
  | [] => O
  | y :: l' => if (x =? y)%string then O else S (index_of x l')
  end.

Fixpoint dfs (fuel : nat) (g : Dict.t (list string)) (task_id : string) (st : DfsState)
  : Pure DfsState :=
  match fuel with
  | O => PLoop
  | S fuel' =>
      if in_ids task_id (dfs_path st) then
        PVal {| dfs_visited := dfs_visited st; dfs_path := dfs_path st;
                dfs_cycles := dfs_cycles st ++
                  [skipn (index_of task_id (dfs_path st)) (dfs_path st) ++ [task_id]] |}
      else if in_ids task_id (dfs_visited st) then PVal st
      else
        let st1 := {| dfs_visited := dfs_visited st ++ [task_id];
                      dfs_path := dfs_path st ++ [task_id];
                      dfs_cycles := dfs_cycles st |} in
        match Dict.get task_id g with
        | None => PExn KeyError
        | Some deps =>
            let after_deps :=
              (fix loop (ds : list string) (s : DfsState) : Pure DfsState :=
                 match ds with
                 | [] => PVal s
                 | dep_id :: ds' =>
                     match dfs fuel' g dep_id s with
                     | PVal s' => loop ds' s'
                     | other => other
                     end
                 end) deps st1 in
            match after_deps with
            | PVal s => PVal {| dfs_visited := dfs_visited s;
                                dfs_path := removelast (dfs_path s);
                                dfs_cycles := dfs_cycles s |}
            | other => other
            end
        end
  end.

Fixpoint dfs_from_all (fuel : nat) (g : Dict.t (list string)) (starts : list string)
  (st : DfsState) : Pure DfsState :=
  match starts with
  | [] => PVal st
  | task_id :: starts' =>
      match dfs fuel g task_id st with
      | PVal st' => dfs_from_all fuel g starts' st'
      | other => other
      end
  end.

(** [detect_circular_dependencies], run on the graph [g]: a call nests at
    most one level per graph key, plus one. *)
Definition detect_circular_dependencies (g : Dict.t (list string)) : Pure (list (list string)) :=
  match dfs_from_all (S (S (length g))) g (Dict.keys g)
          {| dfs_visited := []; dfs_path := []; dfs_cycles := [] |} with
  | PVal st => PVal (dfs_cycles st)
  | PExn e => PExn e
  | PLoop => PLoop
  end.

(** The nested [visit] of [_detect_cycles_in_graph]; the state is the pair of
    sets ([visited], [path]). *)
Fixpoint visit (fuel : nat) (g : Dict.t (list string)) (node : string)
  (st : list string * list string) : option (bool * (list string * list string)) :=
  match fuel with
  | O => None
  | S fuel' =>
      let '(visited, path) := st in
      if in_ids node path then Some (true, st)
      else if in_ids node visited then Some (false, st)
      else
        let deps := match Dict.get node g with Some ds => ds | None => [] end in
        let after_deps :=
          (fix loop (ds : list string) (s : list string * list string)
             : option (bool * (list string * list string)) :=
             match ds with
             | [] => Some (false, s)
             | dep :: ds' =>
                 match visit fuel' g dep s with
                 | Some (true, s') => Some (true, s')
                 | Some (false, s') => loop ds' s'
                 | None => None
                 end
             end) deps (visited ++ [node], path ++ [node]) in
        match after_deps with
        | Some (false, (visited', path')) =>
            Some (false, (visited', filter (fun x => negb (node =? x)%string) path'))
        | other => other
        end
  end.

Fixpoint visit_any (fuel : nat) (g : Dict.t (list string)) (nodes : list string)
  (st : list string * list string) : option bool :=
  match nodes with
  | [] => Some false
  | node :: nodes' =>
      match visit fuel g node st with
      | Some (true, _) => Some true
      | Some (false, st') => visit_any fuel g nodes' st'
      | None => None
      end
  end.

Definition _detect_cycles_in_graph (g : Dict.t (list string)) : Pure bool :=
  match visit_any (S (S (length g))) g (Dict.keys g) ([], []) with
  | Some r => PVal r
  | None => PLoop
  end.

(** What a call of an [async def] without [await] evaluates to: a coroutine
    object whose body has not run. *)
Inductive Coroutine (A : Type) : Type :=
| MkCoroutine (body : unit -> A).

Arguments MkCoroutine {A} body.

(** The truth value of a coroutine object: the type defines neither
    [__bool__] nor [__len__]. *)
Definition coroutine_truth {A} (c : Coroutine A) : bool := true.

Definition nonempty {A} (l : list A) : bool :=
  match l with [] => false | _ :: _ => true end.

Definition pure_map {A B} (f : A -> B) (p : Pure A) : Pure B :=
  match p with
  | PVal a => PVal (f a)
  | PExn e => PExn e
  | PLoop => PLoop
  end.

(** How the two tests [if self.detect_circular_dependencies():] and
    [if self._detect_cycles_in_graph(temp_graph):] are read: as written, with
    no [await], or with the [await] put back. *)
Inductive Reading : Type :=
| AsWritten
| AwaitRestored.

Definition cycle_test_on_add (r : Reading) (g : Dict.t (list string)) : Pure bool :=
  match r with
  | AsWritten => PVal (coroutine_truth (MkCoroutine (fun _ => detect_circular_dependencies g)))
  | AwaitRestored => pure_map nonempty (detect_circular_dependencies g)
  end.

Definition cycle_test_on_update (r : Reading) (g : Dict.t (list string)) : Pure bool :=
  match r with
  | AsWritten => PVal (coroutine_truth (MkCoroutine (fun _ => _detect_cycles_in_graph g)))
  | AwaitRestored => _detect_cycles_in_graph g
  end.

(** *** The priority queue *)

(** [self.priority_queue] is a list kept as a binary heap by [heapq]; the
    functions below follow [heapq.py] line by line, on a list of
    (priority, id) tuples. *)

(** Tuple order on (priority, id): [x <= y] and [x < y]. *)
Definition entry_leb (x y : Z * string) : bool :=
  (fst x <? fst y) || ((fst x =? fst y) && String.leb (snd x) (snd y)).

Definition entry_ltb (x y : Z * string) : bool :=
  (fst x <? fst y) || ((fst x =? fst y) && String.ltb (snd x) (snd y)).

(** [heap[i]], for [i] within the list. *)
Definition item_at (i : nat) (heap : list (Z * string)) : Z * string :=
  nth i heap (0, "").

(** [heap[i] = x], for [i] within the list. *)
Fixpoint set_at (i : nat) (x : Z * string) (heap : list (Z * string)) : list (Z * string) :=
  match heap, i with
  | [], _ => []
  | _ :: heap', O => x :: heap'
  | y :: heap', S i' => y :: set_at i' x heap'
  end.

(** [heap[i], heap[j] = heap[j], heap[i]].  The loops of [heapq] carry the
    moving item in a variable and write it once at the end; with one swap
    per turn the list is the same at the end of the loop. *)
Definition swap (i j : nat) (heap : list (Z * string)) : list (Z * string) :=
  set_at i (item_at j heap) (set_at j (item_at i heap) heap).

(** The loop of [_siftdown]: the item at [pos] moves up while it is below
    its parent, no further up than [startpos].  A turn halves [pos], so
    [pos] turns are enough. *)
Fixpoint rise (turns : nat) (heap : list (Z * string)) (startpos pos : nat)
  : list (Z * string) :=
  match turns with
  | O => heap
  | S turns' =>
      if (startpos <? pos)%nat then
        let parentpos := Nat.div2 (pos - 1) in
        if entry_ltb (item_at pos heap) (item_at parentpos heap)
        then rise turns' (swap pos parentpos heap) startpos parentpos
        else heap
      else heap
  end.

Definition _siftdown (heap : list (Z * string)) (startpos pos : nat) : list (Z * string) :=
  rise pos heap startpos pos.

(** The loop of [_siftup]: the smaller child moves up until the item that
    started at [pos] is at a leaf; the result is the list and the position
    of that leaf.  A turn at least doubles [pos], so [len(heap)] turns are
    enough. *)
Fixpoint sink (turns : nat) (heap : list (Z * string)) (pos : nat)
  : list (Z * string) * nat :=
  match turns with
  | O => (heap, pos)
  | S turns' =>
      let childpos := (2 * pos + 1)%nat in
      if (childpos <? length heap)%nat then
        let rightpos := (childpos + 1)%nat in
        let childpos :=
          if (rightpos <? length heap)%nat
             && negb (entry_ltb (item_at childpos heap) (item_at rightpos heap))
          then rightpos else childpos in
        sink turns' (swap pos childpos heap) childpos
      else (heap, pos)
  end.

Definition _siftup (heap : list (Z * string)) (pos : nat) : list (Z * string) :=
  let '(heap', leaf) := sink (length heap) heap pos in
  _siftdown heap' pos leaf.

(** [heapq.heappush(heap, item)] *)
Definition heappush (heap : list (Z * string)) (item : Z * string) : list (Z * string) :=
  _siftdown (heap ++ [item]) 0 (length heap).

(** [heapq.heappop(heap)]: the popped item and the list that is left;
    [None] stands for the [IndexError] on an empty list, which the caller
    excludes by testing the list first. *)
Definition heappop (heap : list (Z * string)) : option ((Z * string) * list (Z * string)) :=
  match heap with
  | [] => None
  | _ :: _ =>
      let lastelt := last heap (0, "") in
      match removelast heap with
      | [] => Some (lastelt, [])
      | returnitem :: rest => Some (returnitem, _siftup (lastelt :: rest) 0)
      end
  end.

(** [for i in reversed(range(n // 2)): _siftup(x, i)] *)
Fixpoint heapify_from (i : nat) (x : list (Z * string)) : list (Z * string) :=
  match i with
  | O => x
  | S i' => heapify_from i' (_siftup x i')
  end.

(** [heapq.heapify(x)] *)
Definition heapify (x : list (Z * string)) : list (Z * string) :=
  heapify_from (Nat.div2 (length x)) x.

(** *** Methods *)

(** [add_task]; [test] is the value of [self.detect_circular_dependencies()]
    as the [if] sees it. *)
Definition add_task_with (test : Dict.t (list string) -> Pure bool) (fuel : nat)
  (task : TaskBoardEntry) : M unit :=
  b <- self ;;
  if Dict.mem (id task) (tasks b) then raise ValueError
  else if negb (forallb (fun dep_id => Dict.mem dep_id (tasks b)) (dependencies task))
  then raise ValueError
  else
    mutate (set_dependency_graph (Dict.set (id task) (py_set (dependencies task)))) ;;
    b1 <- self ;;
    cyclic <- lift (test (dependency_graph b1)) ;;
    if cyclic then
      mutate (set_dependency_graph (Dict.pop (id task))) ;;
      raise CircularDependencyError
    else
      mutate (set_tasks (Dict.set (id task) task)) ;;
      mutate (set_priority_queue (fun q => heappush q (priority task, id task))) ;;
      let initial_status := if nonempty (dependencies task) then WAITING else IN_PROGRESS in
      update_task_status fuel (id task) initial_status "Task initialized" ;;
      task' <- task_at (id task) ;;
      emit_task_event (id task) "TASK_ADDED" (DataTask task').

Definition add_task (fuel : nat) (task : TaskBoardEntry) : M unit :=
  add_task_with (cycle_test_on_add AsWritten) fuel task.

Definition remove_task (fuel : nat) (task_id : string) : M unit :=
  b <- self ;;
  if negb (Dict.mem task_id (tasks b)) then raise KeyError
  else
    blocked_tasks <- get_blocked_tasks task_id ;;
    for_each blocked_tasks (handle_partial_failure fuel) ;;
    task <- task_at task_id ;;
    mutate (set_tasks (Dict.pop task_id)) ;;
    b1 <- self ;;
    if negb (Dict.mem task_id (dependency_graph b1)) then raise KeyError
    else
      mutate (set_dependency_graph (Dict.pop task_id)) ;;
      mutate (set_priority_queue
                (filter (fun e => negb (snd e =? task_id)%string))) ;;
      mutate (set_priority_queue heapify) ;;
      mutate (set_dependency_graph
                (Dict.map_values (filter (fun d => negb (d =? task_id)%string)))) ;;
      emit_task_event task_id "TASK_REMOVED" (DataTask task).

Definition handle_iteration_limit_reached (fuel : nat) (task_id : string) : M unit :=
  task <- task_at task_id ;;
  match status task with
  | REWORK_NEEDED =>
      update_task_status fuel task_id STALLED "Maximum iterations reached during rework"
  | PENDING_REVIEW =>
      update_task_status fuel task_id STALLED "Maximum iterations reached during review"
  | _ => ret tt
  end.

Definition increment_iteration (fuel : nat) (task_id : string) : M unit :=
  b <- self ;;
  if negb (Dict.mem task_id (tasks b)) then raise KeyError
  else
    update_entry task_id (fun t => with_current_iterations (current_iterations t + 1) t) ;;
    task <- task_at task_id ;;
    (if current_iterations task >=? max_iterations task
     then handle_iteration_limit_reached fuel task_id
     else ret tt) ;;
    task' <- task_at task_id ;;
    emit_task_event task_id "ITERATION_INCREMENTED"
      (DataIteration (current_iterations task')).

Definition request_verification (fuel : nat) (task_id : string) : M unit :=
  b <- self ;;
  if negb (Dict.mem task_id (tasks b)) then raise KeyError
  else
    task <- task_at task_id ;;
    (if TaskStatus_eqb (status task) REWORK_NEEDED
     then update_entry task_id (with_verification_feedback [])
     else ret tt) ;;
    update_task_status fuel task_id PENDING_REVIEW "Verification requested" ;;
    task' <- task_at task_id ;;
    emit_task_event task_id "VERIFICATION_REQUESTED"
      (DataVerificationRequested (history task') (output task') (current_iterations task')).

(** [feedback.get('reason', 'No reason provided')], formatted into the
    reason string. *)
Definition reason_of (feedback : Feedback) : string :=
  match Dict.get "reason" feedback with
  | Some (PyStr s) => s
  | Some _ => "<value>"
  | None => "No reason provided"
  end.

Definition handle_verification_result (fuel : nat) (task_id : string) (passed : bool)
  (feedback : Feedback) : M unit :=
  b <- self ;;
  if negb (Dict.mem task_id (tasks b)) then raise KeyError
  else
    task <- task_at task_id ;;
    if negb (TaskStatus_eqb (status task) PENDING_REVIEW) then raise StateError
    else
      update_entry task_id (fun t =>
        with_verification_feedback
          (verification_feedback t ++
             [[("timestamp", PyDatetime); ("passed", PyBool passed);
               ("feedback", PyDict feedback)]]) t) ;;
      if passed then
        update_task_status fuel task_id COMPLETE "Verification passed"
      else
        increment_iteration fuel task_id ;;
        task' <- task_at task_id ;;
        if current_iterations task' <? max_iterations task'
        then update_task_status fuel task_id REWORK_NEEDED
               ("Verification failed: " ++ reason_of feedback)
        else ret tt.

(** [get_next_priority_task]; one unit of [fuel] per turn of the [while]
    loop. *)
Fixpoint get_next_priority_task (fuel : nat) : M (option string) :=
  match fuel with
  | O => diverge
  | S fuel' =>
      b <- self ;;
      match heappop (priority_queue b) with
      | None => ret None
      | Some ((_, task_id), q') =>
          mutate (set_priority_queue (fun _ => q')) ;;
          if negb (Dict.mem task_id (tasks b)) then get_next_priority_task fuel'
          else
            task <- task_at task_id ;;
            let readd_and_continue :=
              task' <- task_at task_id ;;
              mutate (set_priority_queue (fun q => heappush q (priority task', task_id))) ;;
              get_next_priority_task fuel' in
            match status task with
            | WAITING =>
                ready <- check_dependencies task_id ;;
                if ready then
                  update_task_status fuel' task_id IN_PROGRESS "Dependencies satisfied" ;;
                  ret (Some task_id)
                else readd_and_continue
            | IN_PROGRESS => ret (Some task_id)
            | _ => readd_and_continue
            end
      end
  end.

Definition update_priority (task_id : string) (new_priority : Z) : M unit :=
  b <- self ;;
  if negb (Dict.mem task_id (tasks b)) then raise KeyError
  else if negb ((1 <=? new_priority) && (new_priority <=? 5)) then raise ValueError
  else
    task <- task_at task_id ;;
    let old_priority := priority task in
    update_entry task_id (with_priority new_priority) ;;
    b1 <- self ;;
    mutate (set_priority_queue (fun _ =>
      map (fun t => (priority t, id t)) (Dict.values (tasks b1)))) ;;
    mutate (set_priority_queue heapify) ;;
    emit_task_event task_id "PRIORITY_UPDATED"
      (DataPriorityUpdated old_priority new_priority).

(** [update_dependencies]; [test] is the value of
    [self._detect_cycles_in_graph(temp_graph)] as the [if] sees it. *)
Definition update_dependencies_with (test : Dict.t (list string) -> Pure bool) (fuel : nat)
  (task_id : string) (new_dependencies : list string) : M unit :=
  b <- self ;;
  if negb (Dict.mem task_id (tasks b)) then raise KeyError
  else
    task <- task_at task_id ;;
    let old_dependencies := py_set (dependencies task) in
    let new_dependencies_set := py_set new_dependencies in
    if negb (forallb (fun dep_id => Dict.mem dep_id (tasks b)) new_dependencies_set)
    then raise ValueError
    else
      let temp_graph := Dict.set task_id new_dependencies_set (dependency_graph b) in
      cyclic <- lift (test temp_graph) ;;
      if cyclic then raise CircularDependencyError
      else
        update_entry task_id (with_dependencies new_dependencies) ;;
        mutate (set_dependency_graph (Dict.set task_id new_dependencies_set)) ;;
        task' <- task_at task_id ;;
        (if TaskStatus_eqb (status task') IN_PROGRESS then
           all_deps_complete <- check_dependencies task_id ;;
           if negb all_deps_complete
           then update_task_status fuel task_id WAITING "New dependencies added"
           else ret tt
         else ret tt) ;;
        emit_task_event task_id "DEPENDENCIES_UPDATED"
          (DataDependenciesUpdated old_dependencies new_dependencies).

Definition update_dependencies (fuel : nat) (task_id : string)
  (new_dependencies : list string) : M unit :=
  update_dependencies_with (cycle_test_on_update AsWritten) fuel task_id new_dependencies.

(** [f.get("verdict") == v] *)
Definition verdict_is (v : string) (f : Feedback) : bool :=
  match Dict.get "verdict" f with
  | Some (PyStr s) => (s =? v)%string
  | _ => false
  end.

Definition count_verdict (v : string) (fs : list Feedback) : Z :=
  Z.of_nat (length (filter (verdict_is v) fs)).

Definition handle_feedback (fuel : nat) (task_id : string) (feedback : Feedback)
  (source : string) : M unit :=
  b <- self ;;
  if negb (Dict.mem task_id (tasks b)) then raise KeyError
  else
    let feedback' :=
      Dict.set "timestamp" PyDatetime (Dict.set "source" (PyStr source) feedback) in
    update_entry task_id (fun t =>
      with_verification_feedback (verification_feedback t ++ [feedback']) t) ;;
    task <- task_at task_id ;;
    let approve_count := count_verdict "approve" (verification_feedback task) in
    let reject_count := count_verdict "reject" (verification_feedback task) in
    if (approve_count >? 0) && (reject_count >? 0)
       && (Z.of_nat (length (verification_feedback task)) >=? feedback_threshold b)
    then escalate_task fuel task_id "Conflicting feedback"
    else if (approve_count >? 0) && (reject_count =? 0)
    then update_task_status fuel task_id COMPLETE "Task approved"
    else if (reject_count >? 0) && (approve_count =? 0)
    then update_task_status fuel task_id REWORK_NEEDED "Task needs rework"
    else ret tt.

(** The query surface. *)
Definition get_task_dependencies (task_id : string) : M (list string) :=
  b <- self ;;
  if negb (Dict.mem task_id (tasks b)) then raise KeyError
  else match Dict.get task_id (dependency_graph b) with
       | Some deps => ret deps
       | None => raise KeyError
       end.

(** ** Observing a call *)

(** What a call left behind, whether it returned or raised. *)
Definition final_state {A} (o : Outcome A) : option TaskBoardManager :=
  match o with
  | Returns _ b => Some b
  | Raises _ b => Some b
  | Diverges => None
  end.

(** The status of a stored task. *)
Definition status_of (task_id : string) (b : TaskBoardManager) : option TaskStatus :=
  option_map status (Dict.get task_id (tasks b)).

(** The iteration counter of a stored task. *)
Definition iterations_of (task_id : string) (b : TaskBoardManager) : option Z :=
  option_map current_iterations (Dict.get task_id (tasks b)).

(** The types of the events emitted so far, oldest first. *)
Definition emitted_types (b : TaskBoardManager) : list string :=
  match event_stream b with
  | Some log => map event_type log
  | None => []
  end.

(** ** The public operations as one interface *)

Inductive Operation : Type :=
| OpAddTask (task : TaskBoardEntry)
| OpRemoveTask (task_id : string)
| OpUpdateTaskStatus (task_id : string) (new_status : TaskStatus) (reason : string)
| OpHandleStatusTransition (task_id : string) (old_status new_status : TaskStatus)
| OpIncrementIteration (task_id : string)
| OpHandleIterationLimitReached (task_id : string)
| OpRequestVerification (task_id : string)
| OpHandleVerificationResult (task_id : string) (passed : bool) (feedback : Feedback)
| OpGetNextPriorityTask
| OpUpdatePriority (task_id : string) (new_priority : Z)
| OpUpdateDependencies (task_id : string) (new_dependencies : list string)
| OpHandleFeedback (task_id : string) (feedback : Feedback) (source : string)
| OpEscalateTask (task_id : string) (reason : string)
| OpHandlePartialFailure (task_id : string).

(** One call of a public method; the value a method returns is dropped. *)
Definition run (r : Reading) (fuel : nat) (op : Operation) : M unit :=
  match op with
  | OpAddTask task => add_task_with (cycle_test_on_add r) fuel task
  | OpRemoveTask task_id => remove_task fuel task_id
  | OpUpdateTaskStatus task_id new_status reason =>
      update_task_status fuel task_id new_status reason
  | OpHandleStatusTransition task_id old_status new_status =>
      handle_status_transition fuel task_id old_status new_status
  | OpIncrementIteration task_id => increment_iteration fuel task_id
  | OpHandleIterationLimitReached task_id => handle_iteration_limit_reached fuel task_id
  | OpRequestVerification task_id => request_verification fuel task_id
  | OpHandleVerificationResult task_id passed feedback =>
      handle_verification_result fuel task_id passed feedback
  | OpGetNextPriorityTask => get_next_priority_task fuel ;; ret tt
  | OpUpdatePriority task_id new_priority => update_priority task_id new_priority
  | OpUpdateDependencies task_id new_dependencies =>
      update_dependencies_with (cycle_test_on_update r) fuel task_id new_dependencies
  | OpHandleFeedback task_id feedback source => handle_feedback fuel task_id feedback source
  | OpEscalateTask task_id reason => escalate_task fuel task_id reason
  | OpHandlePartialFailure task_id => handle_partial_failure fuel task_id
  end.

(** A sequence of calls by a caller that goes on after a raise; [None] when
    a call does not return. *)
Fixpoint run_all (r : Reading) (calls : list (nat * Operation)) (b : TaskBoardManager)
  : option TaskBoardManager :=
  match calls with
  | [] => Some b
  | (fuel, op) :: calls' =>
      match final_state (run r fuel op b) with
      | Some b' => run_all r calls' b'
      | None => None
      end
  end.



(** [m] returns or raises from every state. *)
Definition total {A} (m : M A) : Prop := forall b, m b <> Diverges.

(** ** Board consistency *)

(** The task store and the dependency graph have the same keys, and every id
    in a dependency set of the graph is a key of the task store. *)
Definition consistent (b : TaskBoardManager) : Prop :=
  (forall k, Dict.mem k (dependency_graph b) = Dict.mem k (tasks b))
  /\ (forall k deps d,
         In (k, deps) (dependency_graph b) -> In d deps -> Dict.mem d (tasks b) = true).

(** [b'] has the keys of [b] in its task store, and the graph of [b]. *)
Definition same_shape (b b' : TaskBoardManager) : Prop :=
  (forall k, Dict.mem k (tasks b') = Dict.mem k (tasks b))
  /\ dependency_graph b' = dependency_graph b.

Definition keeps_shape {A} (m : M A) : Prop :=
  forall b,
    match m b with
    | Returns _ b' => same_shape b b'
    | Raises _ b' => same_shape b b'
    | Diverges => True
    end.

Definition consistent_after {A} (o : Outcome A) : Prop :=
  match o with
  | Returns _ b' => consistent b'
  | Raises _ b' => consistent b'
  | Diverges => True
  end.

(** Every id in a dependency set of [g] is a key of [g]. *)
Definition closed (g : Dict.t (list string)) : Prop :=
  forall k deps d, In (k, deps) g -> In d deps -> Dict.mem d g = true.

(** ** Readiness *)


(** A stored task that the scheduler does not hand out: neither IN_PROGRESS,
    nor WAITING with every dependency COMPLETE. *)
Definition not_ready (b : TaskBoardManager) (task_id : string) (t : TaskBoardEntry) : Prop :=
  (status t <> WAITING /\ status t <> IN_PROGRESS)
  \/ (status t = WAITING
      /\ exists deps, Dict.get task_id (dependency_graph b) = Some deps
                      /\ all_complete (tasks b) deps = Some false).

(** ** Boards used as concrete inputs *)

(** A fresh entry: empty history and feedback, no output, iteration counter
    at zero. *)
Definition new_entry (task_id : string) (deps : list string) (st : TaskStatus)
  (prio max_iter : Z) : TaskBoardEntry :=
  {| id := task_id; description := "work"; dependencies := deps; status := st;
     history := []; verification_feedback := []; output := PyNone;
     priority := prio; max_iterations := max_iter; current_iterations := 0;
     assigned_agent := None |}.

(** The manager that holds the entries [ts], in this order, with an event
    stream attached and nothing emitted yet.  The queue lists the entries in
    the same order, which is a heap order when they come by increasing
    (priority, id). *)
Definition board_of (ts : list TaskBoardEntry) : TaskBoardManager :=
  {| tasks := map (fun t => (id t, t)) ts;
     event_stream := Some [];
     dependency_graph := map (fun t => (id t, py_set (dependencies t))) ts;
     priority_queue := map (fun t => (priority t, id t)) ts;
     feedback_threshold := 3;
     escalation_agent := "delegator" |}.

(** The board with no event stream attached, as [__init__] leaves it. *)
Definition without_stream (b : TaskBoardManager) : TaskBoardManager :=
  set_event_stream (fun _ => None) b.

(** [handle_feedback] called once per verdict, in order, by a caller that
    goes on after a raise. *)
Fixpoint feed (fuel : nat) (task_id : string) (verdicts : list string)
  (b : TaskBoardManager) : option TaskBoardManager :=
  match verdicts with
  | [] => Some b
  | v :: verdicts' =>
      match final_state (handle_feedback fuel task_id [("verdict", PyStr v)] "verifier" b) with
      | Some b' => feed fuel task_id verdicts' b'
      | None => None
      end
  end.

(** The chain A <- B <- C: B depends on A, C on B. *)
Definition chain_board : TaskBoardManager :=
  board_of [new_entry "A" [] STALLED 5 10;
            new_entry "B" ["A"] WAITING 5 10;
            new_entry "C" ["B"] WAITING 5 10].

(** One task under review, with the given iteration cap. *)
Definition review_board (max_iter : Z) : TaskBoardManager :=
  board_of [new_entry "T" [] PENDING_REVIEW 5 max_iter].

(** Two independent tasks at work. *)
Definition two_active_board : TaskBoardManager :=
  board_of [new_entry "T" [] IN_PROGRESS 5 10; new_entry "U" [] IN_PROGRESS 5 10].

(** One task at work. *)
Definition one_task_board : TaskBoardManager :=
  board_of [new_entry "A" [] IN_PROGRESS 5 10].

(** A blocks B, which depends on A alone, and D, which depends on A and B. *)
Definition fan_out_board : TaskBoardManager :=
  board_of [new_entry "A" [] PENDING_REVIEW 5 10;
            new_entry "B" ["A"] WAITING 5 10;
            new_entry "D" ["A"; "B"] WAITING 5 10].

(** A blocks D, which is at work already, and B, which waits for A alone. *)
Definition active_dependent_board : TaskBoardManager :=
  board_of [new_entry "A" [] PENDING_REVIEW 5 10;
            new_entry "D" ["A"] IN_PROGRESS 5 10;
            new_entry "B" ["A"] WAITING 5 10].

(** A blocks B alone, and B's output is a string. *)
Definition text_output_board : TaskBoardManager :=
  board_of [new_entry "A" [] PENDING_REVIEW 5 10;
            with_output (PyStr "draft") (new_entry "B" ["A"] WAITING 5 10)].

(** A task under review ahead, in the queue, of a task at work. *)
Definition blocked_head_board : TaskBoardManager :=
  board_of [new_entry "a" [] PENDING_REVIEW 1 10; new_entry "b" [] IN_PROGRESS 2 10].

(** One task under review: no task is ready. *)
Definition none_ready_board : TaskBoardManager :=
  board_of [new_entry "a" [] PENDING_REVIEW 1 10].

(** A queue in heap order whose first entry names a task that is no longer
    stored, ahead of three tasks at work. *)
Definition stale_head_board : TaskBoardManager :=
  set_priority_queue (fun _ => [(1, "gone"); (3, "b"); (2, "a"); (4, "c")])
    (board_of [new_entry "a" [] IN_PROGRESS 2 10;
               new_entry "b" [] IN_PROGRESS 3 10;
               new_entry "c" [] IN_PROGRESS 4 10]).

(** Four independent tasks at work, queued in heap order: "a" at the root,
    "b" and "c" under it, "d" under "b". *)
Definition four_task_board : TaskBoardManager :=
  set_priority_queue (fun _ => [(1, "a"); (5, "b"); (2, "c"); (6, "d")])
    (board_of [new_entry "a" [] IN_PROGRESS 1 10;
               new_entry "b" [] IN_PROGRESS 5 10;
               new_entry "c" [] IN_PROGRESS 2 10;
               new_entry "d" [] IN_PROGRESS 6 10]).

(** That board once [remove_task] has removed "a": "c" is at the root of
    the queue. *)
Definition four_task_board_without_a : TaskBoardManager :=
  log_event {| event_type := "TASK_REMOVED"; task_id := "a";
               data := DataTask (new_entry "a" [] IN_PROGRESS 1 10) |}
    (set_priority_queue (fun _ => [(2, "c"); (5, "b"); (6, "d")])
       (board_of [new_entry "b" [] IN_PROGRESS 5 10;
                  new_entry "c" [] IN_PROGRESS 2 10;
                  new_entry "d" [] IN_PROGRESS 6 10])).

(** ** Methods built on [add_task], [update_dependencies] and [update_task_status] *)

(** One element of the [subtasks] argument of [break_down_task]: a dict
    that is read through the keys ["description"], ["dependencies"] and
    ["assigned_agent"]; [None] is an absent key. *)
Record SubtaskData : Type := {
  sd_description : option string;
  sd_dependencies : option (list string);
  sd_assigned_agent : option string
}.

(** The f-string that names the [n]-th subtask of [task_id]. *)
Definition subtask_id (task_id : string) (n : nat) : string :=
  task_id ++ "_sub_" ++ NilZero.string_of_uint (Nat.to_uint n).

(** The loop of [break_down_task] that creates the subtasks;
    [parent_task] is the entry read before the loop, whose priority and
    iteration cap no step of the loop writes. *)
Fixpoint create_subtasks (r : Reading) (fuel : nat) (parent_task : TaskBoardEntry)
  (task_id : string) (subtasks : list SubtaskData) (subtask_ids : list string)
  : M (list string) :=
  match subtasks with
  | [] => ret subtask_ids
  | subtask_data :: subtasks' =>
      match sd_description subtask_data with
      | None => raise KeyError
      | Some subtask_description =>
          let subtask :=
            {| id := subtask_id task_id (length subtask_ids);
               description := subtask_description;
               dependencies := match sd_dependencies subtask_data with
                               | Some ds => ds
                               | None => []
                               end;
               status := WAITING;
               history := [];
               verification_feedback := [];
               output := PyNone;
               priority := priority parent_task;
               max_iterations := max_iterations parent_task;
               current_iterations := 0;
               assigned_agent := sd_assigned_agent subtask_data |} in
          add_task_with (cycle_test_on_add r) fuel subtask ;;
          create_subtasks r fuel parent_task task_id subtasks' (subtask_ids ++ [id subtask])
      end
  end.

(** [break_down_task], under a reading of the two cycle tests. *)
Definition break_down_task (r : Reading) (fuel : nat) (task_id : string)
  (subtasks : list SubtaskData) : M (list string) :=
  b <- self ;;
  if negb (Dict.mem task_id (tasks b)) then raise KeyError
  else
    parent_task <- task_at task_id ;;
    subtask_ids <- create_subtasks r fuel parent_task task_id subtasks [] ;;
    update_dependencies_with (cycle_test_on_update r) fuel task_id subtask_ids ;;
    ret subtask_ids.

(** [update_task_state]; [member_named] is the lookup
    [TaskStatus[state.upper()]], [None] where the enum has no such member.
    The manager defines no [_check_and_update_parent_status]: the first turn
    of the loop over the dependencies raises. *)
Definition update_task_state (member_named : string -> option TaskStatus) (fuel : nat)
  (task_id state : string) : M unit :=
  match member_named state with
  | None => raise KeyError
  | Some status =>
      update_task_status fuel task_id status ("State updated to " ++ state) ;;
      b <- self ;;
      match Dict.get task_id (tasks b) with
      | Some task =>
          if nonempty (dependencies task)
          then for_each (dependencies task) (fun dep_id => raise AttributeError)
          else ret tt
      | None => ret tt
      end
  end.

(** ** Relations between the states of a call *)

(** [m] relates the state it starts from to the state it ends in by [R],
    whether it returns or raises. *)
Definition keeps (R : TaskBoardManager -> TaskBoardManager -> Prop) {A} (m : M A) : Prop :=
  forall b,
    match m b with
    | Returns _ b' => R b b'
    | Raises _ b' => R b b'
    | Diverges => True
    end.

(** A reflexive and transitive relation on managers. *)
Record Preorder (R : TaskBoardManager -> TaskBoardManager -> Prop) : Prop := {
  pre_refl : forall b, R b b;
  pre_trans : forall b1 b2 b3, R b1 b2 -> R b2 b3 -> R b1 b3
}.

(** One step along the legality table, and any number of them. *)
Definition legal_step (s s' : TaskStatus) : Prop := In s' (VALID_TRANSITIONS s).

Inductive legal_path : TaskStatus -> TaskStatus -> Prop :=
| path_here (s : TaskStatus) : legal_path s s
| path_step (s s' s'' : TaskStatus) :
    legal_path s s' -> legal_step s' s'' -> legal_path s s''.

(** What may become of a stored entry: the fields no method writes stay, the
    iteration counter does not go down, and the status moves along the
    legality table. *)
Definition entry_evolves (t t' : TaskBoardEntry) : Prop :=
  id t' = id t
  /\ description t' = description t
  /\ history t' = history t
  /\ max_iterations t' = max_iterations t
  /\ assigned_agent t' = assigned_agent t
  /\ current_iterations t <= current_iterations t'
  /\ legal_path (status t) (status t').

(** Every entry of [b] is still stored in [b'], related by [E]. *)
Definition entries_related (E : TaskBoardEntry -> TaskBoardEntry -> Prop)
  (b b' : TaskBoardManager) : Prop :=
  forall k t, Dict.get k (tasks b) = Some t ->
              exists t', Dict.get k (tasks b') = Some t' /\ E t t'.

Definition store_evolves : TaskBoardManager -> TaskBoardManager -> Prop :=
  entries_related entry_evolves.

(** [P] holds of the state a call ends in, whether it returned or raised. *)
Definition ends_in {A} (P : TaskBoardManager -> Prop) (o : Outcome A) : Prop :=
  match o with
  | Returns _ b' => P b'
  | Raises _ b' => P b'
  | Diverges => True
  end.

(** What became of the entry stored under [k]: it evolved, or the call was
    the removal of [k]. *)
Definition entry_fate (t : TaskBoardEntry) (k : string) (removed : Prop)
  (b' : TaskBoardManager) : Prop :=
  match Dict.get k (tasks b') with
  | Some t' => entry_evolves t t'
  | None => removed
  end.

(** The fields of an entry that no status change writes. *)
Definition entry_spared (t t' : TaskBoardEntry) : Prop :=
  dependencies t' = dependencies t
  /\ priority t' = priority t
  /\ verification_feedback t' = verification_feedback t.

(** [b'] has every entry of [b], with the spared fields as they were, and
    the dependency graph and the priority queue of [b]. *)
Definition spared (b b' : TaskBoardManager) : Prop :=
  entries_related entry_spared b b'
  /\ dependency_graph b' = dependency_graph b
  /\ priority_queue b' = priority_queue b.

(** Every entry is stored under its own id, and no key occurs twice. *)
Definition well_keyed (b : TaskBoardManager) : Prop :=
  NoDup (Dict.keys (tasks b)) /\ forall k t, In (k, t) (tasks b) -> id t = k.

Definition stays_well_keyed (b b' : TaskBoardManager) : Prop :=
  well_keyed b -> well_keyed b'.

(** The keys of the task store of [b'] are keys of the task store of [b]. *)
Definition no_new_task (b b' : TaskBoardManager) : Prop :=
  forall k, Dict.mem k (tasks b') = true -> Dict.mem k (tasks b) = true.

(** ** The queue as the scheduler reads it *)

(** A stored task that the scheduler hands out: IN_PROGRESS, or WAITING
    with every dependency COMPLETE. *)
Definition ready (b : TaskBoardManager) (task_id : string) : Prop :=
  exists t,
    Dict.get task_id (tasks b) = Some t
    /\ (status t = IN_PROGRESS
        \/ (status t = WAITING
            /\ exists deps, Dict.get task_id (dependency_graph b) = Some deps
                            /\ all_complete (tasks b) deps = Some true)).

(** Every queue entry that names a stored task carries that task's
    priority, as after [add_task] and [update_priority]. *)
Definition queue_in_step (b : TaskBoardManager) : Prop :=
  forall p k t,
    In (p, k) (priority_queue b) -> Dict.get k (tasks b) = Some t -> priority t = p.

(** ** The heap order of the queue *)

(** The invariant of [heapq], [heap[k] <= heap[2*k+1]] and
    [heap[k] <= heap[2*k+2]], stated from the child: no position but the
    first holds an item below the one at its parent. *)
Definition is_heap (heap : list (Z * string)) : Prop :=
  forall i, (0 < i < length heap)%nat ->
            entry_leb (item_at (Nat.div2 (i - 1)) heap) (item_at i heap) = true.

(** The same for the positions whose parent is at [k] or after it. *)
Definition heap_from (k : nat) (heap : list (Z * string)) : Prop :=
  forall i, (0 < i < length heap)%nat -> (k <= Nat.div2 (i - 1))%nat ->
            entry_leb (item_at (Nat.div2 (i - 1)) heap) (item_at i heap) = true.

(** [pos] is [k] or lies under it in the tree. *)
Inductive below (k : nat) : nat -> Prop :=
| below_here : below k k
| below_child (pos c : nat) :
    below k pos -> (0 < c)%nat -> Nat.div2 (c - 1) = pos -> below k c.

(** In the loop of [_siftdown]: the order holds from [k] on except between
    [pos] and its parent, and the children of [pos] are not below the parent
    of [pos]. *)
Definition rising (k pos : nat) (heap : list (Z * string)) : Prop :=
  (forall i, (0 < i < length heap)%nat -> (k <= Nat.div2 (i - 1))%nat -> i <> pos ->
             entry_leb (item_at (Nat.div2 (i - 1)) heap) (item_at i heap) = true)
  /\ ((k < pos)%nat ->
      forall c, (0 < c < length heap)%nat -> Nat.div2 (c - 1) = pos ->
                entry_leb (item_at (Nat.div2 (pos - 1)) heap) (item_at c heap) = true).

(** In the loop of [_siftup]: the order holds from [k] on except around
    [pos], and the children of [pos] are not below the parent of [pos]. *)
Definition sinking (k pos : nat) (heap : list (Z * string)) : Prop :=
  (forall i, (0 < i < length heap)%nat -> (k <= Nat.div2 (i - 1))%nat ->
             i <> pos -> Nat.div2 (i - 1) <> pos ->
             entry_leb (item_at (Nat.div2 (i - 1)) heap) (item_at i heap) = true)
  /\ ((k < pos)%nat ->
      forall c, (0 < c < length heap)%nat -> Nat.div2 (c - 1) = pos ->
                entry_leb (item_at (Nat.div2 (pos - 1)) heap) (item_at c heap) = true).

(** The queue of [b'] is in heap order if that of [b] is. *)
Definition stays_in_heap_order (b b' : TaskBoardManager) : Prop :=
  is_heap (priority_queue b) -> is_heap (priority_queue b').

(** ** Cycles of a dependency graph *)

(** [b] is in the dependency set that the graph holds for [a]. *)
Definition edge (g : Dict.t (list string)) (a b : string) : Prop :=
  exists deps, Dict.get a g = Some deps /\ In b deps.

(** [b] is reached from [a] along one or more edges. *)
Inductive reaches (g : Dict.t (list string)) : string -> string -> Prop :=
| reaches_edge (a b : string) : edge g a b -> reaches g a b
| reaches_step (a b c : string) : edge g a b -> reaches g b c -> reaches g a c.

Definition has_cycle (g : Dict.t (list string)) : Prop :=
  exists n, reaches g n n.

(** Each element of [p] has an edge to the next one. *)
Definition chain (g : Dict.t (list string)) (p : list string) : Prop :=
  forall l1 a b l2, p = l1 ++ a :: b :: l2 -> edge g a b.

(** The last element of [p], if any, has an edge to [node]. *)
Definition hangs (g : Dict.t (list string)) (p : list string) (node : string) : Prop :=
  forall l a, p = l ++ [a] -> edge g a node.

(** The nodes that are visited and off the path have all their successors
    visited and off the path, and lie on no cycle. *)
Definition finished_ok (g : Dict.t (list string)) (v p : list string) : Prop :=
  forall n,
    In n v -> ~ In n p ->
    (forall m, edge g n m -> In m v /\ ~ In m p) /\ ~ reaches g n n.

(** [c] starts and ends at the same node and follows the edges of [g]. *)
Definition closed_walk (g : Dict.t (list string)) (c : list string) : Prop :=
  exists n mid, c = n :: mid ++ [n] /\ chain g c.

(** ** Properties *)

(** *** Dictionaries *)

Lemma get_adjust {V} (k k' : string) (f : V -> V) (d : Dict.t V) :
  Dict.get k' (Dict.adjust k f d)
  = if (k' =? k)%string then option_map f (Dict.get k' d) else Dict.get k' d.
Proof.
  induction d as [|[k0 v] d IH]; simpl.
  - destruct (k' =? k)%string; reflexivity.
  - destruct (k =? k0)%string eqn:E; simpl.
    + apply String.eqb_eq in E. subst k0.
      destruct (k' =? k)%string; reflexivity.
    + destruct (k' =? k0)%string eqn:E'.
      * apply String.eqb_eq in E'. subst k0.
        rewrite String.eqb_sym, E. reflexivity.
      * exact IH.
Qed.

Lemma mem_adjust {V} (k k' : string) (f : V -> V) (d : Dict.t V) :
  Dict.mem k' (Dict.adjust k f d) = Dict.mem k' d.
Proof.
  unfold Dict.mem. rewrite get_adjust.
  destruct (k' =? k)%string; [destruct (Dict.get k' d)|]; reflexivity.
Qed.

Lemma get_set {V} (k k' : string) (v : V) (d : Dict.t V) :
  Dict.get k' (Dict.set k v d) = if (k' =? k)%string then Some v else Dict.get k' d.
Proof.
  induction d as [|[k0 v0] d IH]; simpl.
  - reflexivity.
  - destruct (k =? k0)%string eqn:E; simpl.
    + apply String.eqb_eq in E. subst k0.
      destruct (k' =? k)%string; reflexivity.
    + destruct (k' =? k0)%string eqn:E'.
      * apply String.eqb_eq in E'. subst k0.
        rewrite String.eqb_sym, E. reflexivity.
      * exact IH.
Qed.

Lemma get_pop {V} (k k' : string) (d : Dict.t V) :
  Dict.get k' (Dict.pop k d) = if (k' =? k)%string then None else Dict.get k' d.
Proof.
  unfold Dict.pop. induction d as [|[k0 v0] d IH]; simpl.
  - destruct (k' =? k)%string; reflexivity.
  - destruct (k =? k0)%string eqn:E; simpl.
    + apply String.eqb_eq in E. subst k0. rewrite IH.
      destruct (k' =? k)%string; reflexivity.
    + rewrite IH. destruct (k' =? k0)%string eqn:E'; [|reflexivity].
      apply String.eqb_eq in E'. subst k0.
      rewrite String.eqb_sym, E. reflexivity.
Qed.

Lemma get_map_values {V W} (f : V -> W) (k : string) (d : Dict.t V) :
  Dict.get k (Dict.map_values f d) = option_map f (Dict.get k d).
Proof.
  unfold Dict.map_values. induction d as [|[k0 v0] d IH]; simpl; [reflexivity|].
  destruct (k =? k0)%string; [reflexivity | exact IH].
Qed.

Lemma mem_get_some {V} (k : string) (d : Dict.t V) (v : V) :
  Dict.get k d = Some v -> Dict.mem k d = true.
Proof. unfold Dict.mem. intros ->. reflexivity. Qed.

Lemma get_In {V} (k : string) (d : Dict.t V) (v : V) :
  Dict.get k d = Some v -> In (k, v) d.
Proof.
  induction d as [|[k0 v0] d IH]; simpl; [discriminate|].
  destruct (k =? k0)%string eqn:E.
  - apply String.eqb_eq in E. subst k0. intros [= ->]. left. reflexivity.
  - intros H. right. apply IH. exact H.
Qed.

Lemma In_set {V} (k k' : string) (v v' : V) (d : Dict.t V) :
  In (k', v') (Dict.set k v d) -> (k' = k /\ v' = v) \/ In (k', v') d.
Proof.
  induction d as [|[k0 v0] d IH]; simpl.
  - intros [[= <- <-] | []]. left. split; reflexivity.
  - destruct (k =? k0)%string eqn:E; simpl.
    + apply String.eqb_eq in E. subst k0.
      intros [[= <- <-] | H]; [left; split; reflexivity | right; right; exact H].
    + intros [H | H]; [right; left; exact H|].
      destruct (IH H) as [H' | H']; [left; exact H' | right; right; exact H'].
Qed.

Lemma In_pop {V} (k : string) (kv : string * V) (d : Dict.t V) :
  In kv (Dict.pop k d) -> In kv d /\ fst kv <> k.
Proof.
  unfold Dict.pop. rewrite filter_In. intros [H E]. split; [exact H|].
  intros <-. rewrite String.eqb_refl in E. discriminate.
Qed.

Lemma In_map_values {V W} (f : V -> W) (k : string) (w : W) (d : Dict.t V) :
  In (k, w) (Dict.map_values f d) -> exists v, w = f v /\ In (k, v) d.
Proof.
  unfold Dict.map_values. rewrite in_map_iff. intros [[k0 v0] [[= <- <-] H]].
  exists v0. split; [reflexivity | exact H].
Qed.

Lemma mem_set {V} (k k' : string) (v : V) (d : Dict.t V) :
  Dict.mem k' (Dict.set k v d) = (k' =? k)%string || Dict.mem k' d.
Proof. unfold Dict.mem. rewrite get_set. destruct (k' =? k)%string; reflexivity. Qed.

Lemma mem_pop {V} (k k' : string) (d : Dict.t V) :
  Dict.mem k' (Dict.pop k d) = negb (k' =? k)%string && Dict.mem k' d.
Proof. unfold Dict.mem. rewrite get_pop. destruct (k' =? k)%string; reflexivity. Qed.

Lemma mem_map_values {V W} (f : V -> W) (k : string) (d : Dict.t V) :
  Dict.mem k (Dict.map_values f d) = Dict.mem k d.
Proof. unfold Dict.mem. rewrite get_map_values. destruct (Dict.get k d); reflexivity. Qed.

Lemma py_set_In (x : string) (l : list string) : In x (py_set l) -> In x l.
Proof.
  induction l as [|y l IH]; simpl; [tauto|].
  intros [H | H]; [left; exact H|]. apply filter_In in H. right. apply IH. apply H.
Qed.

Lemma mem_keys {V} (k : string) (d : Dict.t V) :
  In k (Dict.keys d) -> Dict.mem k d = true.
Proof.
  unfold Dict.keys, Dict.mem. induction d as [|[k0 v0] d IH]; simpl; [tauto|].
  intros [-> | H].
  - rewrite String.eqb_refl. reflexivity.
  - destruct (k =? k0)%string; [reflexivity | apply IH; exact H].
Qed.

Lemma keys_get {V} (k : string) (d : Dict.t V) (v : V) :
  Dict.get k d = Some v -> In k (Dict.keys d).
Proof.
  intros H. apply get_In in H. unfold Dict.keys.
  change k with (fst (k, v)). apply in_map. exact H.
Qed.

Lemma in_ids_spec (x : string) (l : list string) : in_ids x l = true <-> In x l.
Proof.
  unfold in_ids. rewrite existsb_exists. split.
  - intros [y [Hy E]]. apply String.eqb_eq in E. subst y. exact Hy.
  - intros H. exists x. split; [exact H | apply String.eqb_refl].
Qed.

Lemma in_ids_false (x : string) (l : list string) : in_ids x l = false -> ~ In x l.
Proof. intros E H. apply in_ids_spec in H. rewrite H in E. discriminate. Qed.

Lemma mem_false_get {V} (k : string) (d : Dict.t V) :
  Dict.mem k d = false -> Dict.get k d = None.
Proof. unfold Dict.mem. destruct (Dict.get k d); [discriminate | reflexivity]. Qed.

(** *** Steps of the monad *)

Lemma bind_returns {A B} (m : M A) (k : A -> M B) (b b' : TaskBoardManager) (a : A) :
  m b = Returns a b' -> bind m k b = k a b'.
Proof. unfold bind. intros ->. reflexivity. Qed.

Lemma task_at_some (task_id : string) (b : TaskBoardManager) (t : TaskBoardEntry) :
  Dict.get task_id (tasks b) = Some t -> task_at task_id b = Returns t b.
Proof. unfold task_at, bind, self. intros ->. reflexivity. Qed.

(** *** The legality table *)

Lemma status_in_spec (s : TaskStatus) (l : list TaskStatus) :
  status_in s l = true <-> In s l.
Proof.
  unfold status_in. rewrite existsb_exists. split.
  - intros [x [Hin Heq]]. destruct s, x; simpl in Heq; try discriminate; exact Hin.
  - intros Hin. exists s. split; [exact Hin | destruct s; reflexivity].
Qed.

Lemma terminal_or_same_not_legal (old_status new_status : TaskStatus) :
  old_status = COMPLETE \/ old_status = ABANDONED \/ new_status = old_status ->
  ~ In new_status (VALID_TRANSITIONS old_status).
Proof.
  intros [-> | [-> | ->]]; simpl; try tauto.
  destruct old_status; simpl; intuition discriminate.
Qed.

(** The first steps of [update_task_status]: lookup and validation. *)
Lemma update_task_status_unknown (fuel : nat) (b : TaskBoardManager)
  (task_id : string) (new_status : TaskStatus) (reason : string) :
  Dict.get task_id (tasks b) = None ->
  update_task_status (S fuel) task_id new_status reason b = Raises KeyError b.
Proof.
  intros Hget. cbn [update_task_status]. unfold bind at 1. unfold task_at at 1.
  unfold bind at 1, self at 1. rewrite Hget. reflexivity.
Qed.

Lemma update_task_status_illegal (fuel : nat) (b : TaskBoardManager)
  (task_id : string) (t : TaskBoardEntry) (new_status : TaskStatus) (reason : string) :
  Dict.get task_id (tasks b) = Some t ->
  status_in new_status (VALID_TRANSITIONS (status t)) = false ->
  update_task_status (S fuel) task_id new_status reason b = Raises InvalidTransitionError b.
Proof.
  intros Hget Hill. cbn [update_task_status]. unfold bind at 1. unfold task_at at 1.
  unfold bind at 1, self at 1. rewrite Hget. unfold ret at 1.
  rewrite Hill. reflexivity.
Qed.

(** A legal transition to IN_PROGRESS or PENDING_REVIEW has no side effect
    beyond the status write and the STATUS_CHANGED event. *)
Lemma update_task_status_plain (fuel : nat) (b : TaskBoardManager)
  (task_id : string) (t : TaskBoardEntry) (new_status : TaskStatus) (reason : string) :
  Dict.get task_id (tasks b) = Some t ->
  status_in new_status (VALID_TRANSITIONS (status t)) = true ->
  new_status = IN_PROGRESS \/ new_status = PENDING_REVIEW ->
  update_task_status (S fuel) task_id new_status reason b
  = Returns tt
      (log_event {| event_type := "STATUS_CHANGED"; task_id := task_id;
                    data := DataStatusChanged (status t) new_status reason |}
         (set_tasks (Dict.adjust task_id (with_status new_status)) b)).
Proof.
  intros Hget Hok Hnew. cbn [update_task_status]. unfold bind at 1. unfold task_at at 1.
  unfold bind at 1, self at 1. rewrite Hget. unfold ret at 1.
  rewrite Hok. cbn [negb].
  destruct Hnew as [-> | ->]; reflexivity.
Qed.

(** C1. A status change whose (current, requested) pair is not in the
    legality table, in particular every pair out of COMPLETE or ABANDONED and
    every request equal to the current status, makes [update_task_status]
    raise [InvalidTransitionError] and leaves the whole manager, hence the
    task's stored status and entry, as it was. *)
Theorem update_task_status_rejects_illegal :
  forall fuel b task_id t new_status reason,
    Dict.get task_id (tasks b) = Some t ->
    (~ In new_status (VALID_TRANSITIONS (status t))
     \/ status t = COMPLETE \/ status t = ABANDONED \/ new_status = status t) ->
    update_task_status (S fuel) task_id new_status reason b
    = Raises InvalidTransitionError b.
Proof.
  intros fuel b task_id t new_status reason Hget Hill.
  assert (Hnot : ~ In new_status (VALID_TRANSITIONS (status t))).
  { destruct Hill as [H | H]; [exact H | apply terminal_or_same_not_legal; exact H]. }
  apply update_task_status_illegal with (t := t); [exact Hget|].
  destruct (status_in new_status (VALID_TRANSITIONS (status t))) eqn:E; [|reflexivity].
  apply status_in_spec in E. contradiction.
Qed.

Lemma update_task_status_rejects_illegal_witness :
  update_task_status 1 "T" IN_PROGRESS "again"
    (board_of [new_entry "T" [] COMPLETE 5 10])
  = Raises InvalidTransitionError (board_of [new_entry "T" [] COMPLETE 5 10]).
Proof.
  apply (update_task_status_rejects_illegal 0 _ "T" (new_entry "T" [] COMPLETE 5 10)).
  - reflexivity.
  - right. left. reflexivity.
Defined.

(** *** Completion of a task unblocks its dependents *)











(** The two ways in which the loop over the blocked tasks stops before B is
    unblocked: a blocked task that is not WAITING makes the nested transition
    raise [InvalidTransitionError]; an output that is neither empty nor a map
    makes the item assignment raise [TypeError].  In both A is COMPLETE
    already, B stays WAITING, and STATUS_CHANGED is not emitted. *)
Lemma completion_stops_at_the_first_failure :
  (exists b',
      update_task_status 2 "A" COMPLETE "verified" active_dependent_board
      = Raises InvalidTransitionError b'
      /\ status_of "A" b' = Some COMPLETE
      /\ status_of "D" b' = Some IN_PROGRESS
      /\ status_of "B" b' = Some WAITING
      /\ option_map output (Dict.get "B" (tasks b')) = Some PyNone
      /\ emitted_types b' = [])
  /\ exists b',
       update_task_status 2 "A" COMPLETE "verified" text_output_board
       = Raises TypeError b'
       /\ status_of "A" b' = Some COMPLETE
       /\ status_of "B" b' = Some WAITING
       /\ option_map output (Dict.get "B" (tasks b')) = Some (PyStr "draft")
       /\ emitted_types b' = [].
Proof.
  split; eexists; (split; [vm_compute; reflexivity | repeat split]).
Qed.

(** *** Failures on entry *)

Lemma task_at_unknown (task_id : string) (b : TaskBoardManager) :
  Dict.mem task_id (tasks b) = false -> task_at task_id b = Raises KeyError b.
Proof.
  intros H. unfold task_at, bind, self. rewrite (mem_false_get _ _ H). reflexivity.
Qed.




(** [escalate_task] emits TASK_ESCALATED before the transition to STALLED is
    validated: on a task in PENDING_REVIEW the call raises and the event
    stays in the stream. *)
Lemma escalate_task_emits_then_raises :
  exists b',
    escalate_task 2 "T" "Conflicting feedback"
      (board_of [new_entry "T" [] PENDING_REVIEW 5 10])
    = Raises InvalidTransitionError b'
    /\ emitted_types b' = ["TASK_ESCALATED"]
    /\ status_of "T" b' = Some PENDING_REVIEW.
Proof. eexists. split; [vm_compute; reflexivity | split; reflexivity]. Qed.

(** *** Calls that leave the keys and the graph alone *)

Lemma same_shape_refl (b : TaskBoardManager) : same_shape b b.
Proof. split; [intros k|]; reflexivity. Qed.

Lemma same_shape_trans (b1 b2 b3 : TaskBoardManager) :
  same_shape b1 b2 -> same_shape b2 b3 -> same_shape b1 b3.
Proof.
  intros [H1 G1] [H2 G2]. split.
  - intros k. rewrite H2. apply H1.
  - rewrite G2. exact G1.
Qed.

Lemma keeps_ret {A} (a : A) : keeps_shape (ret a).
Proof. intros b. apply same_shape_refl. Qed.

Lemma keeps_raise {A} (e : Exn) : keeps_shape (@raise A e).
Proof. intros b. apply same_shape_refl. Qed.

Lemma keeps_diverge {A} : keeps_shape (@diverge A).
Proof. intros b. exact I. Qed.

Lemma keeps_self : keeps_shape self.
Proof. intros b. apply same_shape_refl. Qed.

Lemma keeps_bind {A B} (m : M A) (k : A -> M B) :
  keeps_shape m -> (forall a, keeps_shape (k a)) -> keeps_shape (bind m k).
Proof.
  intros Hm Hk b. unfold bind. specialize (Hm b).
  destruct (m b) as [a b' | e b' |]; [|exact Hm|exact I].
  specialize (Hk a b').
  destruct (k a b') as [a' b'' | e b'' |]; [| |exact I];
    eapply same_shape_trans; eassumption.
Qed.

Lemma keeps_for_each {X} (xs : list X) (body : X -> M unit) :
  (forall x, keeps_shape (body x)) -> keeps_shape (for_each xs body).
Proof.
  intros Hbody. induction xs as [|x xs IH]; cbn [for_each].
  - apply keeps_ret.
  - apply keeps_bind; [apply Hbody | intros _; exact IH].
Qed.

Lemma keeps_lift {A} (p : Pure A) : keeps_shape (lift p).
Proof. destruct p; [apply keeps_ret | apply keeps_raise | apply keeps_diverge]. Qed.

Lemma keeps_update_entry (task_id : string) (f : TaskBoardEntry -> TaskBoardEntry) :
  keeps_shape (update_entry task_id f).
Proof.
  intros b. cbn. split; [|reflexivity]. intros k. cbn. apply mem_adjust.
Qed.

Lemma keeps_emit (task_id ty : string) (d : EventData) :
  keeps_shape (emit_task_event task_id ty d).
Proof. intros b. cbn. split; [intros k|]; reflexivity. Qed.

Lemma keeps_set_priority_queue (f : list (Z * string) -> list (Z * string)) :
  keeps_shape (mutate (set_priority_queue f)).
Proof. intros b. cbn. split; [intros k|]; reflexivity. Qed.

Lemma keeps_task_at (task_id : string) : keeps_shape (task_at task_id).
Proof.
  unfold task_at. apply keeps_bind; [apply keeps_self|]. intros b.
  destruct (Dict.get task_id (tasks b)); [apply keeps_ret | apply keeps_raise].
Qed.

Lemma keeps_get_blocked_tasks (task_id : string) : keeps_shape (get_blocked_tasks task_id).
Proof.
  unfold get_blocked_tasks. apply keeps_bind; [apply keeps_self|]. intros b.
  destruct (negb _); [apply keeps_raise | apply keeps_ret].
Qed.

Lemma keeps_check_dependencies (task_id : string) : keeps_shape (check_dependencies task_id).
Proof.
  unfold check_dependencies. apply keeps_bind; [apply keeps_self|]. intros b.
  destruct (negb _); [apply keeps_raise|].
  destruct (Dict.get task_id (dependency_graph b)) as [deps|]; [|apply keeps_raise].
  destruct (all_complete (tasks b) deps); [apply keeps_ret | apply keeps_raise].
Qed.

Create HintDb keeps.

#[local] Hint Resolve keeps_ret keeps_raise keeps_diverge keeps_self keeps_lift
  keeps_update_entry keeps_emit keeps_set_priority_queue keeps_task_at
  keeps_get_blocked_tasks keeps_check_dependencies : keeps.

(** One step of a proof that a method keeps the shape: split a [bind], or
    decide a test. *)
Ltac keeps_step :=
  match goal with
  | |- keeps_shape (bind _ _) => apply keeps_bind; [|intros ?]
  | |- keeps_shape (for_each _ _) => apply keeps_for_each; intros ?
  | |- keeps_shape (if ?c then _ else _) => destruct c
  | |- keeps_shape (match ?x with _ => _ end) => destruct x
  | |- keeps_shape _ => solve [auto with keeps]
  end.

Section KeepsWithCallback.

Variable update : string -> TaskStatus -> string -> M unit.
Hypothesis keeps_update : forall task_id s reason, keeps_shape (update task_id s reason).

Lemma keeps_handle_partial_failure_with (task_id : string) :
  keeps_shape (handle_partial_failure_with update task_id).
Proof. unfold handle_partial_failure_with. repeat keeps_step. Qed.

Lemma keeps_escalate_task_with (task_id reason : string) :
  keeps_shape (escalate_task_with update task_id reason).
Proof. unfold escalate_task_with. repeat keeps_step. Qed.

Lemma keeps_propagate_result (task_id dep_task_id : string) :
  keeps_shape (propagate_result update task_id dep_task_id).
Proof. unfold propagate_result. repeat keeps_step. Qed.

End KeepsWithCallback.

Lemma keeps_update_task_status (fuel : nat) :
  forall task_id new_status reason,
    keeps_shape (update_task_status fuel task_id new_status reason).
Proof.
  induction fuel as [|fuel IH]; intros task_id new_status reason.
  - apply keeps_diverge.
  - cbn [update_task_status]. unfold propagate_status.
    repeat keeps_step;
      first [ apply keeps_propagate_result; exact IH
            | apply keeps_handle_partial_failure_with; exact IH
            | apply keeps_escalate_task_with; exact IH ].
Qed.

#[local] Hint Resolve keeps_update_task_status : keeps.

Lemma keeps_get_next_priority_task (fuel : nat) :
  keeps_shape (get_next_priority_task fuel).
Proof.
  induction fuel as [|fuel IH]; [apply keeps_diverge|].
  cbn [get_next_priority_task]. repeat keeps_step; exact IH.
Qed.

(** Every operation but the three that write keys or graph keeps the shape. *)
Lemma keeps_run (r : Reading) (fuel : nat) (op : Operation) :
  match op with
  | OpAddTask _ | OpRemoveTask _ | OpUpdateDependencies _ _ => True
  | _ => keeps_shape (run r fuel op)
  end.
Proof.
  destruct op; try exact I; cbn [run];
    unfold handle_status_transition, increment_iteration, handle_iteration_limit_reached,
      request_verification, handle_verification_result, update_priority, handle_feedback,
      escalate_task, handle_partial_failure, increment_iteration,
      handle_iteration_limit_reached;
    try (apply keeps_escalate_task_with; intros; apply keeps_update_task_status);
    try (apply keeps_handle_partial_failure_with; intros; apply keeps_update_task_status);
    repeat keeps_step;
    try (apply keeps_get_next_priority_task);
    try (apply keeps_escalate_task_with; intros; apply keeps_update_task_status).
Qed.

(** *** Cycle detection raises nothing on a closed graph *)

Lemma dfs_no_exn (g : Dict.t (list string)) (Hg : closed g) (fuel : nat) :
  forall task_id st e, Dict.mem task_id g = true -> dfs fuel g task_id st <> PExn e.
Proof.
  induction fuel as [|fuel IH]; intros task_id st e Hmem; cbn [dfs]; [discriminate|].
  destruct (in_ids task_id (dfs_path st)); [discriminate|].
  destruct (in_ids task_id (dfs_visited st)); [discriminate|].
  unfold Dict.mem in Hmem.
  destruct (Dict.get task_id g) as [deps|] eqn:Hget; [|discriminate].
  assert (Hdeps : forall d, In d deps -> Dict.mem d g = true).
  { intros d Hd. exact (Hg _ _ _ (get_In _ _ _ Hget) Hd). }
  clear Hget.
  match goal with
  | |- match ?loop deps ?s with _ => _ end <> _ =>
      assert (Hloop : loop deps s <> PExn e)
  end.
  { generalize dependent deps. intros deps.
    match goal with |- _ -> ?loop deps ?s <> _ => generalize s end.
    induction deps as [|d deps IHd]; intros s Hdeps; [discriminate|].
    specialize (IH d s e (Hdeps d (or_introl eq_refl))).
    destruct (dfs fuel g d s) as [s'| e' |] eqn:E.
    - apply IHd. intros d' Hd'. apply Hdeps. right. exact Hd'.
    - intros [= ->]. apply IH. reflexivity.
    - discriminate. }
  match goal with
  | |- match ?x with _ => _ end <> _ => destruct x
  end; [discriminate | exact Hloop | discriminate].
Qed.

Lemma dfs_from_all_no_exn (g : Dict.t (list string)) (Hg : closed g) (fuel : nat)
  (starts : list string) :
  forall st e, (forall k, In k starts -> Dict.mem k g = true) ->
               dfs_from_all fuel g starts st <> PExn e.
Proof.
  induction starts as [|k starts IH]; intros st e Hk; cbn [dfs_from_all]; [discriminate|].
  pose proof (dfs_no_exn g Hg fuel k st e (Hk k (or_introl eq_refl))) as Hd.
  destruct (dfs fuel g k st) as [st'| e' |].
  - apply IH. intros k' Hk'. apply Hk. right. exact Hk'.
  - intros [= ->]. apply Hd. reflexivity.
  - discriminate.
Qed.

Lemma cycle_test_on_add_no_exn (r : Reading) (g : Dict.t (list string)) (e : Exn) :
  closed g -> cycle_test_on_add r g <> PExn e.
Proof.
  intros Hg. destruct r; cbn [cycle_test_on_add]; [discriminate|].
  unfold detect_circular_dependencies.
  pose proof (dfs_from_all_no_exn g Hg (S (S (length g))) (Dict.keys g)
                {| dfs_visited := []; dfs_path := []; dfs_cycles := [] |}) as H.
  destruct (dfs_from_all _ g (Dict.keys g) _) as [st| e' |]; cbn [pure_map];
    [discriminate | | discriminate].
  intros [= ->]. exact (H e (fun k Hk => mem_keys k g Hk) eq_refl).
Qed.

(** *** Consistency is kept *)

Lemma consistent_same_shape (b b' : TaskBoardManager) :
  consistent b -> same_shape b b' -> consistent b'.
Proof.
  intros [Hk Hd] [Hm Hg]. split.
  - intros k. rewrite Hg, Hm. apply Hk.
  - intros k deps d Hin Hdep. rewrite Hm. rewrite Hg in Hin. eapply Hd; eassumption.
Qed.

Lemma consistent_after_keeps {A} (m : M A) (b : TaskBoardManager) :
  consistent b -> keeps_shape m -> consistent_after (m b).
Proof.
  intros Hc Hm. specialize (Hm b). unfold consistent_after.
  destruct (m b); [| |exact I]; eapply consistent_same_shape; eassumption.
Qed.

Lemma consistent_after_bind {A B} (m : M A) (k : A -> M B) (b : TaskBoardManager) :
  consistent b -> keeps_shape m ->
  (forall a b1, consistent b1 -> same_shape b b1 -> consistent_after (k a b1)) ->
  consistent_after (bind m k b).
Proof.
  intros Hc Hm Hk. specialize (Hm b). unfold bind.
  destruct (m b) as [a b1 | e b1 |]; [| |exact I].
  - apply Hk; [eapply consistent_same_shape; eassumption | exact Hm].
  - eapply consistent_same_shape; eassumption.
Qed.

Lemma consistent_closed (b : TaskBoardManager) :
  consistent b -> closed (dependency_graph b).
Proof. intros [Hk Hd] k deps d Hin Hdep. rewrite Hk. eapply Hd; eassumption. Qed.

Lemma forallb_mem_In (ts : Dict.t TaskBoardEntry) (l : list string) (d : string) :
  forallb (fun x => Dict.mem x ts) l = true -> In d l -> Dict.mem d ts = true.
Proof. intros H Hd. rewrite forallb_forall in H. apply H. exact Hd. Qed.

Lemma add_task_keeps_consistent (r : Reading) (fuel : nat) (task : TaskBoardEntry)
  (b : TaskBoardManager) :
  consistent b -> consistent_after (add_task_with (cycle_test_on_add r) fuel task b).
Proof.
  intros Hc. pose proof Hc as [Hk Hd].
  unfold add_task_with. unfold bind at 1, self at 1.
  destruct (Dict.mem (id task) (tasks b)) eqn:Hfresh; [exact Hc|].
  destruct (forallb (fun dep_id => Dict.mem dep_id (tasks b)) (dependencies task)) eqn:Hdeps;
    cbn [negb]; [|exact Hc].
  unfold bind at 1, mutate at 1. unfold bind at 1, self at 1.
  cbn [dependency_graph set_dependency_graph].
  set (g1 := Dict.set (id task) (py_set (dependencies task)) (dependency_graph b)).
  assert (Hg1 : closed g1).
  { intros k deps d Hin Hdep. subst g1. rewrite mem_set.
    apply In_set in Hin. destruct Hin as [[-> ->] | Hin].
    - rewrite Hk. rewrite (forallb_mem_In _ _ _ Hdeps (py_set_In _ _ Hdep)).
      apply orb_true_r.
    - rewrite Hk, (Hd _ _ _ Hin Hdep). apply orb_true_r. }
  pose proof (cycle_test_on_add_no_exn r g1) as Hno.
  unfold bind at 1.
  destruct (cycle_test_on_add r g1) as [cyclic | e |] eqn:Htest; cbn [lift];
    [| exfalso; exact (Hno e Hg1 eq_refl) | exact I].
  unfold ret at 1. destruct cyclic.
  - (* the graph entry is popped again *)
    unfold bind at 1, mutate at 1. unfold raise, consistent_after.
    split; cbn [tasks dependency_graph set_dependency_graph].
    + intros k. rewrite mem_pop, mem_set.
      destruct (k =? id task)%string eqn:E; cbn [negb orb andb].
      * apply String.eqb_eq in E. subst k. symmetry. exact Hfresh.
      * apply Hk.
    + intros k deps d Hin Hdep.
      apply In_pop in Hin. destruct Hin as [Hin Hne]. cbn [fst] in Hne.
      apply In_set in Hin. destruct Hin as [[-> _] | Hin]; [contradiction|].
      eapply Hd; eassumption.
  - (* the task is stored; what follows keeps the shape *)
    unfold bind at 1, mutate at 1. unfold bind at 1, mutate at 1.
    match goal with
    | |- consistent_after (?m ?b2) =>
        apply (consistent_after_keeps m b2); [| repeat keeps_step]
    end.
    split; cbn [tasks dependency_graph set_dependency_graph set_tasks set_priority_queue].
    + intros k. rewrite !mem_set. rewrite Hk. reflexivity.
    + intros k deps d Hin Hdep.
      rewrite mem_set. apply In_set in Hin. destruct Hin as [[-> ->] | Hin].
      * rewrite (forallb_mem_In _ _ _ Hdeps (py_set_In _ _ Hdep)). apply orb_true_r.
      * rewrite (Hd _ _ _ Hin Hdep). apply orb_true_r.
Qed.

Lemma update_dependencies_keeps_consistent (r : Reading) (fuel : nat) (task_id : string)
  (new_dependencies : list string) (b : TaskBoardManager) :
  consistent b ->
  consistent_after
    (update_dependencies_with (cycle_test_on_update r) fuel task_id new_dependencies b).
Proof.
  intros Hc. pose proof Hc as [Hk Hd].
  unfold update_dependencies_with. unfold bind at 1, self at 1.
  destruct (Dict.mem task_id (tasks b)) eqn:Hmem; cbn [negb]; [|exact Hc].
  unfold Dict.mem in Hmem.
  destruct (Dict.get task_id (tasks b)) as [t|] eqn:Hget; [|discriminate].
  rewrite (bind_returns _ _ _ _ _ (task_at_some _ _ _ Hget)).
  destruct (forallb (fun dep_id => Dict.mem dep_id (tasks b)) (py_set new_dependencies))
    eqn:Hdeps; cbn [negb]; [|exact Hc].
  unfold bind at 1.
  destruct (cycle_test_on_update r _) as [cyclic | e |]; cbn [lift];
    [| exact Hc | exact I].
  unfold ret at 1. destruct cyclic; [exact Hc|].
  unfold bind at 1, update_entry at 1, mutate at 1. unfold bind at 1, mutate at 1.
  match goal with
  | |- consistent_after (?m ?b2) =>
      apply (consistent_after_keeps m b2); [| repeat keeps_step]
  end.
  split; cbn [tasks dependency_graph set_dependency_graph set_tasks].
  - intros k. rewrite mem_set, mem_adjust, Hk.
    destruct (k =? task_id)%string eqn:E; [|reflexivity].
    apply String.eqb_eq in E. subst k. unfold Dict.mem. rewrite Hget. reflexivity.
  - intros k deps d Hin Hdep. rewrite mem_adjust.
    apply In_set in Hin. destruct Hin as [[-> ->] | Hin].
    + exact (forallb_mem_In _ _ _ Hdeps Hdep).
    + eapply Hd; eassumption.
Qed.

Lemma remove_task_keeps_consistent (fuel : nat) (task_id : string) (b : TaskBoardManager) :
  consistent b -> consistent_after (remove_task fuel task_id b).
Proof.
  intros Hc.
  unfold remove_task. unfold bind at 1, self at 1.
  destruct (Dict.mem task_id (tasks b)) eqn:Hmem; cbn [negb]; [|exact Hc].
  apply consistent_after_bind; [exact Hc | apply keeps_get_blocked_tasks |].
  intros blocked b1 Hc1 _.
  apply consistent_after_bind; [exact Hc1 | |].
  { apply keeps_for_each. intros x. unfold handle_partial_failure.
    apply keeps_handle_partial_failure_with. intros. apply keeps_update_task_status. }
  intros _ b2 Hc2 _. pose proof Hc2 as [Hk Hd].
  unfold bind at 1. unfold task_at at 1. unfold bind at 1, self at 1.
  destruct (Dict.get task_id (tasks b2)) as [t|] eqn:Hget; [|exact Hc2].
  unfold ret at 1. unfold bind at 1, mutate at 1. unfold bind at 1, self at 1.
  cbn [tasks dependency_graph set_tasks].
  rewrite Hk. unfold Dict.mem at 1. rewrite Hget. cbn [negb].
  unfold bind at 1, mutate at 1. unfold bind at 1, mutate at 1.
  unfold bind at 1, mutate at 1. unfold bind at 1, mutate at 1.
  apply consistent_after_keeps; [| apply keeps_emit].
  split; cbn [tasks dependency_graph set_dependency_graph set_tasks set_priority_queue].
  - intros k. rewrite mem_map_values, !mem_pop, Hk. reflexivity.
  - intros k deps d Hin Hdep.
    apply In_map_values in Hin. destruct Hin as [deps0 [-> Hin]].
    apply In_pop in Hin. destruct Hin as [Hin _].
    apply filter_In in Hdep. destruct Hdep as [Hdep Hne].
    rewrite mem_pop, Hne. cbn [andb]. eapply Hd; eassumption.
Qed.

Lemma run_keeps_consistent (r : Reading) (fuel : nat) (op : Operation)
  (b : TaskBoardManager) :
  consistent b -> consistent_after (run r fuel op b).
Proof.
  intros Hc. pose proof (keeps_run r fuel op) as Hkeeps.
  destruct op; cbn [run] in *;
    try (apply consistent_after_keeps; [exact Hc | exact Hkeeps]).
  - apply add_task_keeps_consistent. exact Hc.
  - apply remove_task_keeps_consistent. exact Hc.
  - apply update_dependencies_keeps_consistent. exact Hc.
Qed.

(** C10. Every public operation, whether it returns or raises, keeps the
    board consistent: afterwards the task store and the dependency graph
    still have the same keys, and every id in a dependency set of the graph
    is still a key of the task store.  This holds for both readings of the
    two cycle tests. *)
Theorem operations_keep_board_consistent :
  forall r fuel op b,
    consistent b ->
    match run r fuel op b with
    | Returns _ b' => consistent b'
    | Raises _ b' => consistent b'
    | Diverges => True
    end.
Proof. intros r fuel op b Hc. exact (run_keeps_consistent r fuel op b Hc). Qed.

Lemma init_consistent : consistent init.
Proof. split; [intros k; reflexivity | intros k deps d []]. Qed.

(** Hence every board reached from the fresh manager by calls of public
    operations, raising or not, is consistent. *)
Lemma reachable_boards_consistent (r : Reading) (calls : list (nat * Operation)) :
  forall b b', consistent b -> run_all r calls b = Some b' -> consistent b'.
Proof.
  induction calls as [|[fuel op] calls IH]; intros b b' Hc; cbn [run_all].
  - intros [= <-]. exact Hc.
  - pose proof (run_keeps_consistent r fuel op b Hc) as Hstep.
    destruct (run r fuel op b) as [a b1 | e b1 |]; cbn [final_state consistent_after] in *;
      [apply IH; exact Hstep | apply IH; exact Hstep | discriminate].
Qed.

Lemma operations_keep_board_consistent_witness :
  consistent (board_of [new_entry "A" [] IN_PROGRESS 5 10; new_entry "B" ["A"] WAITING 5 10])
  /\ match run AsWritten 2 (OpRemoveTask "A")
             (board_of [new_entry "A" [] IN_PROGRESS 5 10; new_entry "B" ["A"] WAITING 5 10])
     with
     | Returns _ b' => consistent b'
     | Raises _ b' => consistent b'
     | Diverges => True
     end.
Proof.
  assert (H : consistent
                (board_of [new_entry "A" [] IN_PROGRESS 5 10;
                           new_entry "B" ["A"] WAITING 5 10])).
  { split.
    - intros k. unfold Dict.mem. cbn.
      destruct (k =? "A")%string; [reflexivity|].
      destruct (k =? "B")%string; reflexivity.
    - intros k deps d Hin Hdep. cbn in Hin.
      destruct Hin as [[= <- <-] | [[= <- <-] | []]]; cbn in Hdep.
      + destruct Hdep.
      + destruct Hdep as [<- | []]. reflexivity. }
  split; [exact H | apply operations_keep_board_consistent; exact H].
Defined.

(** [remove_task] cleans the dependency sets of the graph; the [dependencies]
    list of a remaining entry is not rewritten. *)
Lemma remove_task_leaves_entry_dependencies :
  exists b',
    remove_task 2 "A"
      (board_of [new_entry "A" [] IN_PROGRESS 5 10; new_entry "B" ["A"] WAITING 5 10])
    = Returns tt b'
    /\ Dict.mem "A" (tasks b') = false
    /\ get_task_dependencies "B" b' = Returns [] b'
    /\ option_map dependencies (Dict.get "B" (tasks b')) = Some ["A"].
Proof. eexists. split; [vm_compute; reflexivity | repeat split]. Qed.

(** *** Where the transitions stop *)

(** STALLED can only be entered from IN_PROGRESS. *)
Lemma stall_only_from_in_progress (fuel : nat) (b : TaskBoardManager) (task_id : string)
  (t : TaskBoardEntry) (reason : string) :
  Dict.get task_id (tasks b) = Some t ->
  status t <> IN_PROGRESS ->
  update_task_status (S fuel) task_id STALLED reason b = Raises InvalidTransitionError b.
Proof.
  intros Hget Hne. apply update_task_status_illegal with (t := t); [exact Hget|].
  destruct (status t); try reflexivity. contradiction.
Qed.

(** No status has an edge into WAITING. *)
Lemma update_to_waiting_never_returns (fuel : nat) (b : TaskBoardManager)
  (task_id reason : string) :
  forall a b', update_task_status fuel task_id WAITING reason b <> Returns a b'.
Proof.
  intros a b'. destruct fuel as [|fuel]; [discriminate|].
  destruct (Dict.get task_id (tasks b)) as [t|] eqn:Hget.
  - rewrite (update_task_status_illegal fuel b task_id t WAITING reason Hget);
      [discriminate | destruct (status t); reflexivity].
  - rewrite (update_task_status_unknown fuel b task_id WAITING reason Hget). discriminate.
Qed.

(** An accepted transition to ABANDONED writes the status, then raises from
    the call of the missing [propagate_status]: no dependent is touched and no
    STATUS_CHANGED event is emitted. *)
Lemma update_task_status_abandoned (fuel : nat) (b : TaskBoardManager) (task_id : string)
  (t : TaskBoardEntry) (reason : string) :
  Dict.get task_id (tasks b) = Some t ->
  status_in ABANDONED (VALID_TRANSITIONS (status t)) = true ->
  update_task_status (S fuel) task_id ABANDONED reason b
  = Raises AttributeError (set_tasks (Dict.adjust task_id (with_status ABANDONED)) b).
Proof.
  intros Hget Hok. cbn [update_task_status].
  rewrite (bind_returns _ _ _ _ _ (task_at_some _ _ _ Hget)).
  rewrite Hok. reflexivity.
Qed.

(** As written, [add_task] and [update_dependencies] return on no input: the
    coroutine object in their cycle test is always true. *)
Lemma add_task_never_returns (fuel : nat) (task : TaskBoardEntry) (b : TaskBoardManager) :
  forall a b', add_task fuel task b <> Returns a b'.
Proof.
  intros a b'. unfold add_task, add_task_with, bind, self, mutate, lift, ret, raise.
  destruct (Dict.mem (id task) (tasks b)); [discriminate|].
  destruct (negb _); discriminate.
Qed.

Lemma update_dependencies_never_returns (fuel : nat) (task_id : string)
  (new_dependencies : list string) (b : TaskBoardManager) :
  forall a b', update_dependencies fuel task_id new_dependencies b <> Returns a b'.
Proof.
  intros a b'. unfold update_dependencies, update_dependencies_with.
  unfold bind at 1, self at 1.
  destruct (negb (Dict.mem task_id (tasks b))); [discriminate|].
  unfold bind at 1. destruct (task_at task_id b) as [t b1 | e b1 |]; [|discriminate..].
  destruct (negb _); [discriminate|].
  cbn. discriminate.
Qed.

(** With the [await] put back, [add_task] still returns for no task that has
    dependencies: its initial transition asks for WAITING. *)
Lemma add_task_with_dependencies_never_returns (r : Reading) (fuel : nat)
  (task : TaskBoardEntry) (b : TaskBoardManager) :
  dependencies task <> [] ->
  forall a b', add_task_with (cycle_test_on_add r) fuel task b <> Returns a b'.
Proof.
  intros Hdeps a b'. unfold add_task_with.
  unfold bind at 1, self at 1.
  destruct (Dict.mem (id task) (tasks b)); [discriminate|].
  destruct (negb _); [discriminate|].
  unfold bind at 1, mutate at 1. unfold bind at 1, self at 1. unfold bind at 1.
  destruct (cycle_test_on_add r _) as [cyclic | e |]; cbn [lift]; [|discriminate..].
  unfold ret at 1. destruct cyclic; [discriminate|].
  unfold bind at 1, mutate at 1. unfold bind at 1, mutate at 1.
  destruct (dependencies task) as [|d ds] eqn:E; [contradiction|]. cbn [nonempty].
  unfold bind at 1.
  match goal with
  | |- match ?u with _ => _ end <> _ => destruct u as [x bx | e bx |] eqn:Hu
  end; [|discriminate..].
  exfalso. exact (update_to_waiting_never_returns _ _ _ _ _ _ Hu).
Qed.

(** C2. On the chain A <- B <- C, with A STALLED and B, C WAITING, the
    transition of A to ABANDONED is accepted and written, and the call then
    raises [AttributeError] from [self.propagate_status]: B and C stay WAITING
    and no event is emitted. *)
Theorem abandon_does_not_cascade :
  exists b',
    update_task_status 3 "A" ABANDONED "gave up" chain_board = Raises AttributeError b'
    /\ status_of "A" b' = Some ABANDONED
    /\ status_of "B" b' = Some WAITING
    /\ status_of "C" b' = Some WAITING
    /\ emitted_types b' = [].
Proof. eexists. split; [vm_compute; reflexivity | repeat split]. Qed.

(** The only loop over dependents that abandons them, in
    [handle_status_transition], stops after the first one for the same
    reason. *)
Lemma handle_status_transition_stops_at_first_dependent :
  exists b',
    handle_status_transition 3 "A" STALLED ABANDONED chain_board = Raises AttributeError b'
    /\ status_of "B" b' = Some ABANDONED
    /\ status_of "C" b' = Some WAITING.
Proof. eexists. split; [vm_compute; reflexivity | repeat split]. Qed.

(** C3. A task in PENDING_REVIEW with [max_iterations] 2 and counter 0: the
    first failed verification raises [InvalidTransitionError] and leaves the
    task in REWORK_NEEDED with the counter already at 2; after the rework
    round (IN_PROGRESS, then [request_verification]) the second failed
    verification raises again and leaves the task in PENDING_REVIEW with the
    counter at 3.  The task is never STALLED; the one TASK_ESCALATED event
    belongs to the first failure, and with no stream attached the same four
    calls end in PENDING_REVIEW as well. *)
Theorem two_failed_verifications_do_not_stall :
  (exists b1 b2 b3 b4,
      handle_verification_result 3 "T" false [] (review_board 2)
      = Raises InvalidTransitionError b1
      /\ status_of "T" b1 = Some REWORK_NEEDED
      /\ iterations_of "T" b1 = Some 2
      /\ emitted_types b1 = ["ITERATION_INCREMENTED"; "TASK_ESCALATED"]
      /\ update_task_status 3 "T" IN_PROGRESS "rework" b1 = Returns tt b2
      /\ request_verification 3 "T" b2 = Returns tt b3
      /\ handle_verification_result 3 "T" false [] b3 = Raises InvalidTransitionError b4
      /\ status_of "T" b4 = Some PENDING_REVIEW
      /\ iterations_of "T" b4 = Some 3
      /\ emitted_types b4
         = ["ITERATION_INCREMENTED"; "TASK_ESCALATED"; "STATUS_CHANGED";
            "STATUS_CHANGED"; "VERIFICATION_REQUESTED"])
  /\ option_map (status_of "T")
       (run_all AsWritten
          [(3%nat, OpHandleVerificationResult "T" false []);
           (3%nat, OpUpdateTaskStatus "T" IN_PROGRESS "rework");
           (3%nat, OpRequestVerification "T");
           (3%nat, OpHandleVerificationResult "T" false [])]
          (without_stream (review_board 2)))
     = Some (Some PENDING_REVIEW).
Proof.
  split; [| vm_compute; reflexivity].
  do 4 eexists.
  split; [vm_compute; reflexivity|].
  split; [reflexivity|]. split; [reflexivity|]. split; [reflexivity|].
  split; [vm_compute; reflexivity|].
  split; [vm_compute; reflexivity|].
  split; [vm_compute; reflexivity|].
  repeat split.
Qed.

(** C4. A task in PENDING_REVIEW with no feedback, threshold 3: whatever the
    order of two approvals and one rejection, the first verdict settles the
    status (COMPLETE after an approval, REWORK_NEEDED after a rejection) and
    the third call, which escalates, raises [InvalidTransitionError]; the task
    is never STALLED, and after an approval first it is COMPLETE. *)
Theorem conflicting_feedback_does_not_stall :
  (exists b2 b3,
      feed 3 "T" ["approve"; "approve"] (review_board 10) = Some b2
      /\ handle_feedback 3 "T" [("verdict", PyStr "reject")] "verifier" b2
         = Raises InvalidTransitionError b3
      /\ status_of "T" b3 = Some COMPLETE
      /\ emitted_types b3 = ["STATUS_CHANGED"; "TASK_ESCALATED"])
  /\ option_map (status_of "T") (feed 3 "T" ["approve"; "reject"; "approve"] (review_board 10))
     = Some (Some COMPLETE)
  /\ option_map (status_of "T") (feed 3 "T" ["reject"; "approve"; "approve"] (review_board 10))
     = Some (Some REWORK_NEEDED).
Proof.
  split; [| split; vm_compute; reflexivity].
  do 2 eexists.
  split; [vm_compute; reflexivity|].
  split; [vm_compute; reflexivity|].
  split; reflexivity.
Qed.

(** C7. T is IN_PROGRESS and gets the new dependency U, which exists, is not
    COMPLETE and closes no cycle.  As written, [update_dependencies] raises
    [CircularDependencyError] and changes nothing.  With the [await] put back
    it replaces the dependency set, then raises [InvalidTransitionError] from
    the transition to WAITING, and T stays IN_PROGRESS. *)
Theorem update_dependencies_does_not_push_back :
  update_dependencies 3 "T" ["U"] two_active_board
  = Raises CircularDependencyError two_active_board
  /\ exists b',
       update_dependencies_with (cycle_test_on_update AwaitRestored) 3 "T" ["U"]
         two_active_board
       = Raises InvalidTransitionError b'
       /\ Dict.get "T" (dependency_graph b') = Some ["U"]
       /\ status_of "T" b' = Some IN_PROGRESS
       /\ emitted_types b' = [].
Proof.
  split; [vm_compute; reflexivity|].
  eexists. split; [vm_compute; reflexivity | repeat split].
Qed.

(** C8. A fresh task B whose only dependency A is stored.  As written,
    [add_task] raises [CircularDependencyError] and B is not stored.  With the
    [await] put back it stores B, then raises [InvalidTransitionError] from
    the initial transition to WAITING: TASK_ADDED is never emitted. *)
Theorem add_task_with_dependency_fails :
  (exists b',
      add_task 3 (new_entry "B" ["A"] WAITING 3 10) one_task_board
      = Raises CircularDependencyError b'
      /\ Dict.mem "B" (tasks b') = false)
  /\ exists b',
       add_task_with (cycle_test_on_add AwaitRestored) 3
         (new_entry "B" ["A"] WAITING 3 10) one_task_board
       = Raises InvalidTransitionError b'
       /\ status_of "B" b' = Some WAITING
       /\ emitted_types b' = [].
Proof.
  split; eexists; (split; [vm_compute; reflexivity | repeat split]).
Qed.

(** One turn of the loop of [get_next_priority_task] on a queue whose least
    entry names a stored task that is not ready puts the entry back. *)
Lemma blocked_head_turn (fuel : nat) :
  get_next_priority_task (S fuel) blocked_head_board
  = get_next_priority_task fuel blocked_head_board.
Proof. reflexivity. Qed.

Lemma none_ready_turn (fuel : nat) :
  get_next_priority_task (S fuel) none_ready_board
  = get_next_priority_task fuel none_ready_board.
Proof. reflexivity. Qed.

(** C9. With "a" (priority 1, PENDING_REVIEW) at the head of the queue and
    the ready task "b" (priority 2, IN_PROGRESS) behind it,
    [get_next_priority_task] returns after no number of turns of its loop;
    neither does it on the board that holds "a" alone, where no task is
    ready. *)
Theorem get_next_priority_task_spins :
  forall fuel,
    get_next_priority_task fuel blocked_head_board = Diverges
    /\ get_next_priority_task fuel none_ready_board = Diverges.
Proof.
  induction fuel as [|fuel [IH1 IH2]]; [split; reflexivity|].
  rewrite blocked_head_turn, none_ready_turn. split; assumption.
Qed.

(** [heappop] takes the first entry of the list: the least one when the
    list is in heap order, as on the first board, whatever it is otherwise,
    as on the second. *)
Lemma get_next_priority_task_ready_head :
  (exists b',
      get_next_priority_task 1
        (board_of [new_entry "b" [] IN_PROGRESS 1 10; new_entry "a" [] IN_PROGRESS 2 10])
      = Returns (Some "b") b'
      /\ priority_queue b' = [(2, "a")])
  /\ exists b',
       get_next_priority_task 1
         (board_of [new_entry "a" [] IN_PROGRESS 2 10; new_entry "b" [] IN_PROGRESS 1 10])
       = Returns (Some "a") b'
       /\ priority_queue b' = [(1, "b")].
Proof. split; eexists; (split; [vm_compute; reflexivity | reflexivity]). Qed.

(** *** The order on queue entries *)

Lemma string_compare_trans_not_gt :
  forall a b c,
    String.compare a b <> Gt -> String.compare b c <> Gt -> String.compare a c <> Gt.
Proof.
  induction a as [|x a IH]; intros [|y b] [|z c]; cbn; try congruence.
  unfold Ascii.compare.
  destruct (N.compare_spec (Ascii.N_of_ascii x) (Ascii.N_of_ascii y)) as [Hxy | Hxy | Hxy];
    destruct (N.compare_spec (Ascii.N_of_ascii y) (Ascii.N_of_ascii z)) as [Hyz | Hyz | Hyz];
    try congruence; intros H1 H2.
  - rewrite Hxy, Hyz, N.compare_refl. exact (IH b c H1 H2).
  - rewrite Hxy. apply N.compare_lt_iff in Hyz. rewrite Hyz. discriminate.
  - rewrite <- Hyz. apply N.compare_lt_iff in Hxy. rewrite Hxy. discriminate.
  - assert (Hxz : (Ascii.N_of_ascii x < Ascii.N_of_ascii z)%N) by lia.
    apply N.compare_lt_iff in Hxz. rewrite Hxz. discriminate.
Qed.

Lemma string_leb_trans (a b c : string) :
  String.leb a b = true -> String.leb b c = true -> String.leb a c = true.
Proof.
  unfold String.leb. intros Hab Hbc.
  pose proof (string_compare_trans_not_gt a b c) as H.
  destruct (String.compare a b); try discriminate;
    destruct (String.compare b c); try discriminate;
    destruct (String.compare a c); try reflexivity;
    exfalso; apply H; try discriminate; reflexivity.
Qed.

Lemma entry_leb_trans (x y z : Z * string) :
  entry_leb x y = true -> entry_leb y z = true -> entry_leb x z = true.
Proof.
  destruct x as [p k], y as [p' k'], z as [p'' k'']. unfold entry_leb. cbn [fst snd].
  intros Hxy Hyz.
  apply orb_true_iff in Hxy. apply orb_true_iff in Hyz. apply orb_true_iff.
  destruct Hxy as [Hxy | Hxy]; destruct Hyz as [Hyz | Hyz];
    try apply andb_true_iff in Hxy; try apply andb_true_iff in Hyz.
  - left. lia.
  - left. lia.
  - left. lia.
  - right. apply andb_true_iff. destruct Hxy as [Hp Hk], Hyz as [Hp' Hk'].
    split; [lia | exact (string_leb_trans _ _ _ Hk Hk')].
Qed.

Lemma entry_leb_total (x y : Z * string) :
  entry_leb x y = true \/ entry_leb y x = true.
Proof.
  destruct x as [p k], y as [p' k']. unfold entry_leb. cbn [fst snd].
  destruct (Z.lt_trichotomy p p') as [H | [H | H]].
  - left. apply orb_true_iff. left. lia.
  - subst p'. destruct (String.leb_total k k') as [Hk | Hk]; [left | right];
      apply orb_true_iff; right; apply andb_true_iff; (split; [lia | exact Hk]).
  - right. apply orb_true_iff. left. lia.
Qed.

Lemma entry_leb_refl (x : Z * string) : entry_leb x x = true.
Proof. destruct (entry_leb_total x x); assumption. Qed.

Lemma entry_ltb_leb (x y : Z * string) : entry_ltb x y = negb (entry_leb y x).
Proof.
  destruct x as [p k], y as [p' k']. unfold entry_ltb, entry_leb. cbn [fst snd].
  unfold String.ltb, String.leb. rewrite (String.compare_antisym k k').
  destruct (Z.ltb_spec p p'), (Z.ltb_spec p' p), (Z.eqb_spec p p'), (Z.eqb_spec p' p);
    try lia; cbn; try reflexivity; destruct (String.compare k' k); reflexivity.
Qed.

Lemma entry_ltb_true (x y : Z * string) : entry_ltb x y = true -> entry_leb x y = true.
Proof.
  rewrite entry_ltb_leb. intros H. destruct (entry_leb_total x y) as [Hxy | Hyx]; [exact Hxy|].
  rewrite Hyx in H. discriminate.
Qed.

Lemma entry_ltb_false (x y : Z * string) : entry_ltb x y = false -> entry_leb y x = true.
Proof. rewrite entry_ltb_leb. destruct (entry_leb y x); [reflexivity | discriminate]. Qed.

(** Positions in the tree. *)
Lemma parent_spec (i : nat) :
  (0 < i)%nat ->
  (i = 2 * Nat.div2 (i - 1) + 1 \/ i = 2 * Nat.div2 (i - 1) + 2)%nat.
Proof.
  intros Hi. destruct (Nat.Even_or_Odd (i - 1)) as [[m Hm] | [m Hm]]; rewrite Hm.
  - left. rewrite Nat.div2_double. lia.
  - right. replace (2 * m + 1)%nat with (S (2 * m)) by lia.
    rewrite Nat.div2_succ_double. lia.
Qed.

Lemma parent_lt (i : nat) : (0 < i)%nat -> (Nat.div2 (i - 1) < i)%nat.
Proof. intros Hi. destruct (parent_spec i Hi); lia. Qed.

Lemma parent_left (p : nat) : Nat.div2 (2 * p + 1 - 1) = p.
Proof. replace (2 * p + 1 - 1)%nat with (2 * p)%nat by lia. apply Nat.div2_double. Qed.

Lemma parent_right (p : nat) : Nat.div2 (2 * p + 1 + 1 - 1) = p.
Proof.
  replace (2 * p + 1 + 1 - 1)%nat with (S (2 * p)) by lia. apply Nat.div2_succ_double.
Qed.

(** Items of the list. *)
Lemma length_set_at (i : nat) (x : Z * string) (l : list (Z * string)) :
  length (set_at i x l) = length l.
Proof.
  revert i. induction l as [|y l IH]; intros [|i]; cbn; try reflexivity.
  rewrite IH. reflexivity.
Qed.

Lemma item_at_set_at_eq (i : nat) (x : Z * string) (l : list (Z * string)) :
  (i < length l)%nat -> item_at i (set_at i x l) = x.
Proof.
  revert i. induction l as [|y l IH]; intros [|i] Hi; cbn in *; try lia; try reflexivity.
  apply IH. lia.
Qed.

Lemma item_at_set_at_neq (i j : nat) (x : Z * string) (l : list (Z * string)) :
  i <> j -> item_at j (set_at i x l) = item_at j l.
Proof.
  revert i j. induction l as [|y l IH]; intros [|i] [|j] Hne; cbn; try reflexivity;
    try congruence.
  apply IH. congruence.
Qed.

Lemma set_at_perm (i : nat) (x : Z * string) (l : list (Z * string)) :
  (i < length l)%nat -> Permutation (item_at i l :: set_at i x l) (x :: l).
Proof.
  revert i. induction l as [|y l IH]; intros [|i] Hi; cbn in *; try lia.
  - apply perm_swap.
  - eapply perm_trans; [apply perm_swap|].
    eapply perm_trans; [apply perm_skip; apply IH; lia|]. apply perm_swap.
Qed.

Lemma length_swap (i j : nat) (l : list (Z * string)) : length (swap i j l) = length l.
Proof. unfold swap. rewrite !length_set_at. reflexivity. Qed.

Lemma item_at_swap_l (i j : nat) (l : list (Z * string)) :
  (i < length l)%nat -> item_at i (swap i j l) = item_at j l.
Proof. intros Hi. unfold swap. apply item_at_set_at_eq. rewrite length_set_at. exact Hi. Qed.

Lemma item_at_swap_r (i j : nat) (l : list (Z * string)) :
  (i < length l)%nat -> (j < length l)%nat -> item_at j (swap i j l) = item_at i l.
Proof.
  intros Hi Hj. unfold swap. destruct (Nat.eq_dec i j) as [-> | Hne].
  - rewrite item_at_set_at_eq; [reflexivity | rewrite length_set_at; exact Hj].
  - rewrite item_at_set_at_neq by exact Hne. apply item_at_set_at_eq. exact Hj.
Qed.

Lemma item_at_swap_other (i j k : nat) (l : list (Z * string)) :
  k <> i -> k <> j -> item_at k (swap i j l) = item_at k l.
Proof.
  intros Hi Hj. unfold swap. rewrite !item_at_set_at_neq by congruence. reflexivity.
Qed.

Lemma swap_perm (i j : nat) (l : list (Z * string)) :
  (i < length l)%nat -> (j < length l)%nat -> Permutation (swap i j l) l.
Proof.
  intros Hi Hj. unfold swap.
  pose proof (set_at_perm j (item_at i l) l Hj) as H1.
  pose proof (set_at_perm i (item_at j l) (set_at j (item_at i l) l)
                ltac:(rewrite length_set_at; exact Hi)) as H2.
  assert (Hi' : item_at i (set_at j (item_at i l) l) = item_at i l).
  { destruct (Nat.eq_dec j i) as [-> | Hne].
    - apply item_at_set_at_eq. exact Hi.
    - apply item_at_set_at_neq. exact Hne. }
  rewrite Hi' in H2.
  apply (Permutation_cons_inv (a := item_at i l)).
  eapply perm_trans; [exact H2|]. exact H1.
Qed.

(** *** The operations permute the list *)

Lemma rise_perm (turns : nat) :
  forall heap startpos pos,
    (pos < length heap)%nat ->
    Permutation (rise turns heap startpos pos) heap.
Proof.
  induction turns as [|turns IH]; intros heap startpos pos Hpos; cbn [rise];
    [apply Permutation_refl|].
  destruct (startpos <? pos)%nat eqn:Hstart; [|apply Permutation_refl].
  apply Nat.ltb_lt in Hstart.
  destruct (entry_ltb _ _); [|apply Permutation_refl].
  pose proof (parent_lt pos ltac:(lia)) as Hparent.
  eapply perm_trans.
  - apply IH. rewrite length_swap. lia.
  - apply swap_perm; lia.
Qed.

Lemma sink_perm (turns : nat) :
  forall heap pos heap' leaf,
    (pos < length heap)%nat ->
    sink turns heap pos = (heap', leaf) ->
    Permutation heap' heap /\ (leaf < length heap)%nat.
Proof.
  induction turns as [|turns IH]; intros heap pos heap' leaf Hpos; cbn [sink].
  - intros H. injection H as <- <-. split; [apply Permutation_refl | exact Hpos].
  - destruct (2 * pos + 1 <? length heap)%nat eqn:Hchild.
    2:{ intros H. injection H as <- <-. split; [apply Permutation_refl | exact Hpos]. }
    apply Nat.ltb_lt in Hchild.
    set (c := if ((2 * pos + 1 + 1 <? length heap)%nat
                  && negb (entry_ltb (item_at (2 * pos + 1) heap)
                             (item_at (2 * pos + 1 + 1) heap)))%bool
              then (2 * pos + 1 + 1)%nat else (2 * pos + 1)%nat).
    assert (Hc : (c < length heap)%nat).
    { unfold c. destruct (2 * pos + 1 + 1 <? length heap)%nat eqn:Hr; cbn [andb].
      - apply Nat.ltb_lt in Hr. destruct (negb _); lia.
      - exact Hchild. }
    intros H. destruct (IH (swap pos c heap) c heap' leaf) as [Hperm Hleaf];
      [rewrite length_swap; exact Hc | exact H |].
    rewrite length_swap in Hleaf. split; [|exact Hleaf].
    eapply perm_trans; [exact Hperm|]. apply swap_perm; assumption.
Qed.

Lemma _siftdown_perm (heap : list (Z * string)) (startpos pos : nat) :
  (pos < length heap)%nat -> Permutation (_siftdown heap startpos pos) heap.
Proof. apply rise_perm. Qed.

Lemma _siftup_perm (heap : list (Z * string)) (pos : nat) :
  (pos < length heap)%nat -> Permutation (_siftup heap pos) heap.
Proof.
  intros Hpos. unfold _siftup.
  destruct (sink (length heap) heap pos) as [heap' leaf] eqn:Hsink.
  destruct (sink_perm _ _ _ _ _ Hpos Hsink) as [Hperm Hleaf].
  eapply perm_trans; [|exact Hperm].
  apply _siftdown_perm. rewrite (Permutation_length Hperm). exact Hleaf.
Qed.

Lemma heappush_perm (heap : list (Z * string)) (item : Z * string) :
  Permutation (heappush heap item) (item :: heap).
Proof.
  unfold heappush. eapply perm_trans.
  - apply _siftdown_perm. rewrite length_app. cbn. lia.
  - apply Permutation_sym. apply Permutation_cons_append.
Qed.

Lemma heappop_perm (heap heap' : list (Z * string)) (m : Z * string) :
  heappop heap = Some (m, heap') -> Permutation heap (m :: heap').
Proof.
  unfold heappop. destruct heap as [|x heap]; [discriminate|].
  assert (Hsplit : x :: heap = removelast (x :: heap) ++ [last (x :: heap) (0, "")]).
  { apply app_removelast_last. discriminate. }
  remember (last (x :: heap) (0, "")) as lastelt eqn:Hlast.
  destruct (removelast (x :: heap)) as [|returnitem rest] eqn:Hrest.
  - intros H. injection H as <- <-. rewrite Hsplit. apply Permutation_refl.
  - intros H. injection H as <- <-. rewrite Hsplit.
    change ((returnitem :: rest) ++ [lastelt]) with (returnitem :: (rest ++ [lastelt])).
    apply perm_skip. apply Permutation_sym. eapply perm_trans.
    + apply _siftup_perm. cbn. lia.
    + apply Permutation_cons_append.
Qed.

Lemma heappop_none (heap : list (Z * string)) : heappop heap = None -> heap = [].
Proof.
  unfold heappop. destruct heap as [|x heap]; [reflexivity|].
  destruct (removelast (x :: heap)); discriminate.
Qed.

Lemma heapify_from_perm (i : nat) :
  forall x, (i <= length x)%nat -> Permutation (heapify_from i x) x.
Proof.
  induction i as [|i IH]; intros x Hi; cbn [heapify_from]; [apply Permutation_refl|].
  pose proof (_siftup_perm x i ltac:(lia)) as Hstep.
  eapply perm_trans; [|exact Hstep].
  apply IH. rewrite (Permutation_length Hstep). lia.
Qed.

Lemma div2_le (n : nat) : (Nat.div2 n <= n)%nat.
Proof.
  destruct (Nat.Even_or_Odd n) as [[m ->] | [m ->]].
  - rewrite Nat.div2_double. lia.
  - replace (2 * m + 1)%nat with (S (2 * m)) by lia. rewrite Nat.div2_succ_double. lia.
Qed.

Lemma heapify_perm (x : list (Z * string)) : Permutation (heapify x) x.
Proof. apply heapify_from_perm. apply div2_le. Qed.

(** *** The heap order *)

Lemma is_heap_from (heap : list (Z * string)) : is_heap heap <-> heap_from 0 heap.
Proof.
  split.
  - intros H i Hi _. exact (H i Hi).
  - intros H i Hi. apply (H i Hi). apply Nat.le_0_l.
Qed.

Lemma below_le (k pos : nat) : below k pos -> (k <= pos)%nat.
Proof.
  induction 1 as [|pos c _ IH Hc Hparent]; [lia|].
  pose proof (parent_lt c Hc). lia.
Qed.

Lemma below_parent (k pos : nat) :
  below k pos -> (k < pos)%nat -> below k (Nat.div2 (pos - 1)).
Proof.
  intros H Hlt. destruct H as [|p c Hp Hc Hparent]; [lia|]. rewrite Hparent. exact Hp.
Qed.

(** The first item of a heap is a least one. *)
Lemma heap_root_least (heap : list (Z * string)) :
  is_heap heap ->
  forall i, (i < length heap)%nat -> entry_leb (item_at 0 heap) (item_at i heap) = true.
Proof.
  intros Hheap i. induction i as [i IH] using (well_founded_induction lt_wf).
  intros Hi. destruct i as [|i]; [apply entry_leb_refl|].
  pose proof (parent_lt (S i) ltac:(lia)) as Hparent.
  eapply entry_leb_trans; [apply (IH _ Hparent); lia|].
  apply Hheap. lia.
Qed.

Lemma heap_least (heap : list (Z * string)) (x : Z * string) :
  is_heap heap -> In x heap -> entry_leb (item_at 0 heap) x = true.
Proof.
  intros Hheap Hin. destruct (In_nth heap x (0, "") Hin) as [i [Hi <-]].
  exact (heap_root_least heap Hheap i Hi).
Qed.

(** [_siftdown] closes a gap in the order between [pos] and its parent. *)
Lemma rise_heap (turns : nat) :
  forall k pos heap,
    (pos <= turns)%nat -> (pos < length heap)%nat -> below k pos ->
    rising k pos heap ->
    heap_from k (rise turns heap k pos).
Proof.
  induction turns as [|turns IH]; intros k pos heap Hturns Hpos Hbelow [Hrest Hkids].
  - cbn [rise]. intros i Hi Hk. apply (Hrest i Hi Hk).
    pose proof (below_le _ _ Hbelow). pose proof (parent_lt i ltac:(lia)). lia.
  - cbn [rise]. destruct (k <? pos)%nat eqn:Hstart.
    2:{ apply Nat.ltb_ge in Hstart. pose proof (below_le _ _ Hbelow).
        intros i Hi Hk. apply (Hrest i Hi Hk).
        pose proof (parent_lt i ltac:(lia)). lia. }
    apply Nat.ltb_lt in Hstart.
    set (p := Nat.div2 (pos - 1)).
    pose proof (parent_lt pos ltac:(lia)) as Hp. fold p in Hp.
    pose proof (below_parent _ _ Hbelow Hstart) as Hbelow'. fold p in Hbelow'.
    pose proof (below_le _ _ Hbelow') as Hkp.
    destruct (entry_ltb (item_at pos heap) (item_at p heap)) eqn:Hlt.
    2:{ intros i Hi Hk. destruct (Nat.eq_dec i pos) as [Heq | Hne].
        - subst i. apply entry_ltb_false. exact Hlt.
        - exact (Hrest i Hi Hk Hne). }
    apply IH; [lia | rewrite length_swap; lia | exact Hbelow' |].
    assert (Hat_pos : item_at pos (swap pos p heap) = item_at p heap).
    { apply item_at_swap_l. exact Hpos. }
    assert (Hat_p : item_at p (swap pos p heap) = item_at pos heap).
    { apply item_at_swap_r; lia. }
    assert (Hat : forall j, j <> pos -> j <> p ->
                            item_at j (swap pos p heap) = item_at j heap).
    { intros j H1 H2. apply item_at_swap_other; assumption. }
    split.
    + intros i Hi Hk Hne. rewrite length_swap in Hi.
      pose proof (parent_lt i ltac:(lia)) as Hpi.
      destruct (Nat.eq_dec i pos) as [Heq | Hipos].
      * subst i. fold p. rewrite Hat_pos, Hat_p. apply entry_ltb_true. exact Hlt.
      * rewrite (Hat i Hipos Hne).
        destruct (Nat.eq_dec (Nat.div2 (i - 1)) pos) as [Hchild | Hnchild].
        -- rewrite Hchild, Hat_pos. exact (Hkids Hstart i Hi Hchild).
        -- destruct (Nat.eq_dec (Nat.div2 (i - 1)) p) as [Hsib | Hnsib].
           ++ rewrite Hsib, Hat_p.
              eapply entry_leb_trans; [apply entry_ltb_true; exact Hlt|].
              rewrite <- Hsib. apply (Hrest i Hi Hk Hipos).
           ++ rewrite (Hat _ Hnchild Hnsib). exact (Hrest i Hi Hk Hipos).
    + intros Hkp' c Hc Hparent. rewrite length_swap in Hc.
      pose proof (parent_lt p ltac:(lia)) as Hpp.
      pose proof (below_le _ _ (below_parent _ _ Hbelow' Hkp')) as Hkpp.
      rewrite (Hat (Nat.div2 (p - 1))) by lia.
      assert (Hp_ok : entry_leb (item_at (Nat.div2 (p - 1)) heap) (item_at p heap) = true).
      { apply Hrest; lia. }
      destruct (Nat.eq_dec c pos) as [Heq | Hcpos].
      * subst c. rewrite Hat_pos. exact Hp_ok.
      * rewrite (Hat c Hcpos) by (pose proof (parent_lt c ltac:(lia)); lia).
        eapply entry_leb_trans; [exact Hp_ok|].
        rewrite <- Hparent. apply Hrest; [exact Hc | lia | exact Hcpos].
Qed.

(** The first phase of [_siftup] takes the gap down to a leaf. *)
Lemma sink_rising (turns : nat) :
  forall k pos heap heap' leaf,
    (length heap <= turns + pos)%nat -> (pos < length heap)%nat -> below k pos ->
    sinking k pos heap ->
    sink turns heap pos = (heap', leaf) ->
    length heap' = length heap /\ (leaf < length heap)%nat /\ below k leaf
    /\ rising k leaf heap'.
Proof.
  induction turns as [|turns IH]; intros k pos heap heap' leaf Hturns Hpos Hbelow Hsinking;
    [lia|].
  cbn [sink]. destruct (2 * pos + 1 <? length heap)%nat eqn:Hchild.
  2:{ apply Nat.ltb_ge in Hchild. intros H. injection H as <- <-.
      split; [reflexivity|]. split; [exact Hpos|]. split; [exact Hbelow|].
      destruct Hsinking as [Hrest Hkids]. split; [|exact Hkids].
      intros i Hi Hk Hne. apply (Hrest i Hi Hk Hne).
      destruct (parent_spec i ltac:(lia)); lia. }
  apply Nat.ltb_lt in Hchild.
  set (left := (2 * pos + 1)%nat) in *. set (right := (left + 1)%nat).
  set (c := if ((right <? length heap)%nat
                && negb (entry_ltb (item_at left heap) (item_at right heap)))%bool
            then right else left).
  assert (Hc : (c < length heap)%nat /\ (c = left \/ c = right)
               /\ (forall s, (s < length heap)%nat -> s = left \/ s = right ->
                             entry_leb (item_at c heap) (item_at s heap) = true)).
  { unfold c. destruct (right <? length heap)%nat eqn:Hr; cbn [andb].
    - apply Nat.ltb_lt in Hr.
      destruct (entry_ltb (item_at left heap) (item_at right heap)) eqn:Hlt; cbn [negb].
      + split; [exact Hchild|]. split; [left; reflexivity|].
        intros s _ [-> | ->]; [apply entry_leb_refl | apply entry_ltb_true; exact Hlt].
      + split; [exact Hr|]. split; [right; reflexivity|].
        intros s _ [-> | ->]; [apply entry_ltb_false; exact Hlt | apply entry_leb_refl].
    - apply Nat.ltb_ge in Hr. split; [exact Hchild|]. split; [left; reflexivity|].
      intros s Hs [-> | ->]; [apply entry_leb_refl | lia]. }
  destruct Hc as (Hc & Hwhich & Hsmall).
  assert (Hcparent : Nat.div2 (c - 1) = pos).
  { destruct Hwhich as [-> | ->]; [apply parent_left | apply parent_right]. }
  assert (Hcpos : (pos < c)%nat) by (unfold right, left in Hwhich; lia).
  intros Hsink.
  assert (Hat_pos : item_at pos (swap pos c heap) = item_at c heap).
  { apply item_at_swap_l. exact Hpos. }
  assert (Hat_c : item_at c (swap pos c heap) = item_at pos heap).
  { apply item_at_swap_r; assumption. }
  assert (Hat : forall j, j <> pos -> j <> c ->
                          item_at j (swap pos c heap) = item_at j heap).
  { intros j H1 H2. apply item_at_swap_other; assumption. }
  destruct Hsinking as [Hrest Hkids].
  destruct (IH k c (swap pos c heap) heap' leaf) as (Hlen & Hleaf & Hbelow' & Hrising).
  - rewrite length_swap. lia.
  - rewrite length_swap. exact Hc.
  - apply (below_child k pos c Hbelow); [lia | exact Hcparent].
  - pose proof (below_le _ _ Hbelow) as Hkpos. split.
    + intros i Hi Hk Hne Hnparent. rewrite length_swap in Hi.
      pose proof (parent_lt i ltac:(lia)) as Hpi.
      destruct (Nat.eq_dec i pos) as [Heq | Hipos].
      * subst i. rewrite Hat_pos. rewrite (Hat (Nat.div2 (pos - 1))) by lia.
        apply Hkids; [lia | lia | exact Hcparent].
      * rewrite (Hat i Hipos Hne).
        destruct (Nat.eq_dec (Nat.div2 (i - 1)) pos) as [Hchild' | Hnchild].
        -- rewrite Hchild', Hat_pos. apply Hsmall; [lia|].
           destruct (parent_spec i ltac:(lia)) as [H | H]; unfold right, left; lia.
        -- rewrite (Hat _ Hnchild Hnparent). exact (Hrest i Hi Hk Hipos Hnchild).
    + intros _ d Hd Hdparent. rewrite length_swap in Hd.
      rewrite Hcparent, Hat_pos.
      rewrite (Hat d) by (pose proof (parent_lt d ltac:(lia)); lia).
      pose proof (parent_lt d ltac:(lia)) as Hpd.
      rewrite <- Hdparent. apply Hrest; [exact Hd | lia | lia | lia].
  - exact Hsink.
  - rewrite length_swap in Hlen, Hleaf. split; [exact Hlen|]. split; [exact Hleaf|].
    split; [exact Hbelow' | exact Hrising].
Qed.

(** [_siftup] at [pos] puts the part of the list under [pos] in order. *)
Lemma _siftup_heap (heap : list (Z * string)) (pos : nat) :
  (pos < length heap)%nat -> sinking pos pos heap -> heap_from pos (_siftup heap pos).
Proof.
  intros Hpos Hsinking. unfold _siftup.
  destruct (sink (length heap) heap pos) as [heap' leaf] eqn:Hsink.
  destruct (sink_rising (length heap) pos pos heap heap' leaf ltac:(lia) Hpos (below_here pos)
              Hsinking Hsink) as (Hlen & Hleaf & Hbelow & Hrising).
  unfold _siftdown. apply rise_heap; [lia | lia | exact Hbelow | exact Hrising].
Qed.

Lemma below_zero (pos : nat) : below 0 pos.
Proof.
  induction pos as [pos IH] using (well_founded_induction lt_wf).
  destruct pos as [|pos]; [apply below_here|].
  apply (below_child 0 (Nat.div2 (S pos - 1))); [|apply Nat.lt_0_succ|reflexivity].
  apply IH. apply parent_lt. apply Nat.lt_0_succ.
Qed.

Lemma item_at_app (i : nat) (heap tail : list (Z * string)) :
  (i < length heap)%nat -> item_at i (heap ++ tail) = item_at i heap.
Proof. intros Hi. unfold item_at. apply app_nth1. exact Hi. Qed.

(** [heappush] keeps the heap order. *)
Lemma heappush_heap (heap : list (Z * string)) (item : Z * string) :
  is_heap heap -> is_heap (heappush heap item).
Proof.
  intros Hheap. apply is_heap_from. unfold heappush, _siftdown.
  apply rise_heap.
  - apply Nat.le_refl.
  - rewrite length_app. cbn [length]. lia.
  - apply below_zero.
  - split.
    + intros i Hi _ Hne. rewrite length_app in Hi. cbn [length] in Hi.
      pose proof (parent_lt i ltac:(lia)) as Hp.
      rewrite !item_at_app by lia. apply Hheap. lia.
    + intros _ c Hc Hparent. rewrite length_app in Hc. cbn [length] in Hc.
      pose proof (parent_lt c ltac:(lia)) as Hp. lia.
Qed.

(** [heappop] returns the first item, whatever the order of the list. *)
Lemma heappop_first (x : Z * string) (heap : list (Z * string)) :
  exists heap', heappop (x :: heap) = Some (x, heap').
Proof.
  unfold heappop. destruct heap as [|y heap].
  - cbn. exists []. reflexivity.
  - change (removelast (x :: y :: heap)) with (x :: removelast (y :: heap)).
    eexists. reflexivity.
Qed.

(** [heappop] keeps the heap order. *)
Lemma heappop_heap (heap heap' : list (Z * string)) (m : Z * string) :
  is_heap heap -> heappop heap = Some (m, heap') -> is_heap heap'.
Proof.
  intros Hheap. unfold heappop. destruct heap as [|x heap]; [discriminate|].
  assert (Hsplit : x :: heap = removelast (x :: heap) ++ [last (x :: heap) (0, "")]).
  { apply app_removelast_last. discriminate. }
  remember (last (x :: heap) (0, "")) as lastelt eqn:Hlast.
  destruct (removelast (x :: heap)) as [|returnitem rest] eqn:Hrest.
  - intros H. injection H as _ <-. intros i Hi. cbn in Hi. lia.
  - intros H. injection H as _ <-. apply is_heap_from. apply _siftup_heap.
    + cbn [length]. lia.
    + split; [|intros H; lia].
      intros i Hi _ Hne Hnparent. cbn [length] in Hi.
      rewrite Hsplit in Hheap.
      assert (Hitem : forall j, (0 < j < S (length rest))%nat ->
                item_at j (lastelt :: rest)
                = item_at j ((returnitem :: rest) ++ [lastelt])).
      { intros [|j] Hj; [lia|]. unfold item_at. cbn [nth app].
        symmetry. apply app_nth1. lia. }
      pose proof (parent_lt i ltac:(lia)) as Hp.
      remember (Nat.div2 (i - 1)) as p eqn:Hpdef.
      rewrite (Hitem i) by lia. rewrite (Hitem p) by lia. subst p. apply Hheap.
      rewrite length_app. cbn [length]. lia.
Qed.

(** Popped from a heap, the item is a least one. *)
Lemma heappop_least (heap heap' : list (Z * string)) (m x : Z * string) :
  is_heap heap -> heappop heap = Some (m, heap') -> In x heap -> entry_leb m x = true.
Proof.
  intros Hheap Hpop Hin. destruct heap as [|y heap]; [destruct Hin|].
  destruct (heappop_first y heap) as [rest Hfirst].
  rewrite Hfirst in Hpop. injection Hpop as <- _.
  exact (heap_least (y :: heap) x Hheap Hin).
Qed.

Lemma heap_from_step (i : nat) (x : list (Z * string)) :
  (i < length x)%nat -> heap_from (S i) x -> heap_from i (_siftup x i).
Proof.
  intros Hi Hfrom. apply _siftup_heap; [exact Hi|].
  split; [|intros H; lia].
  intros j Hj Hk Hne Hnparent. apply (Hfrom j Hj). lia.
Qed.

Lemma heapify_from_heap (i : nat) :
  forall x, (i <= length x)%nat -> heap_from i x -> is_heap (heapify_from i x).
Proof.
  induction i as [|i IH]; intros x Hi Hfrom; cbn [heapify_from].
  - apply is_heap_from. exact Hfrom.
  - apply IH.
    + rewrite (Permutation_length (_siftup_perm x i ltac:(lia))). lia.
    + apply heap_from_step; [lia | exact Hfrom].
Qed.

Lemma double_div2 (n : nat) : (n <= 2 * Nat.div2 n + 1)%nat.
Proof.
  destruct (Nat.Even_or_Odd n) as [[m ->] | [m ->]].
  - rewrite Nat.div2_double. lia.
  - replace (2 * m + 1)%nat with (S (2 * m)) by lia. rewrite Nat.div2_succ_double. lia.
Qed.

(** [heapify] puts any list in heap order. *)
Lemma heapify_heap (x : list (Z * string)) : is_heap (heapify x).
Proof.
  unfold heapify. apply heapify_from_heap; [apply div2_le|].
  intros i Hi Hk. pose proof (double_div2 (length x)).
  destruct (parent_spec i ltac:(lia)); lia.
Qed.

(** *** What the scheduler relies on *)

Lemma heappop_some (q q' : list (Z * string)) (m : Z * string) :
  heappop q = Some (m, q') ->
  In m q /\ (forall y, In y q' -> In y q) /\ (forall y, In y q -> y = m \/ In y q').
Proof.
  intros Hpop. pose proof (heappop_perm _ _ _ Hpop) as Hperm.
  split; [|split].
  - apply (Permutation_in m (Permutation_sym Hperm)). left. reflexivity.
  - intros y Hy. apply (Permutation_in y (Permutation_sym Hperm)). right. exact Hy.
  - intros y Hy. destruct (Permutation_in y Hperm Hy) as [<- | H]; [left | right]; auto.
Qed.

Lemma heappop_length (q q' : list (Z * string)) (m : Z * string) :
  heappop q = Some (m, q') -> S (length q') = length q.
Proof. intros Hpop. rewrite (Permutation_length (heappop_perm _ _ _ Hpop)). reflexivity. Qed.

Lemma heappush_In (q : list (Z * string)) (x y : Z * string) :
  In y (heappush q x) <-> y = x \/ In y q.
Proof.
  split.
  - intros H. destruct (Permutation_in y (heappush_perm q x) H) as [<- | Hy];
      [left | right]; auto.
  - intros H. apply (Permutation_in y (Permutation_sym (heappush_perm q x))).
    destruct H as [-> | H]; [left | right]; auto.
Qed.

Lemma entry_leb_antisym (x y : Z * string) :
  entry_leb x y = true -> entry_leb y x = true -> x = y.
Proof.
  destruct x as [p s], y as [q u]. unfold entry_leb. cbn [fst snd].
  intros H1 H2.
  apply orb_true_iff in H1. apply orb_true_iff in H2.
  destruct H1 as [H1 | H1], H2 as [H2 | H2];
    rewrite ?andb_true_iff, ?Z.ltb_lt, ?Z.eqb_eq in *; try lia.
  destruct H1 as [-> H1], H2 as [_ H2]. f_equal. apply String.leb_antisym; assumption.
Qed.

(** A least entry of a heap is the one that [heappop] takes. *)
Lemma heappop_least_entry (m : Z * string) (q : list (Z * string)) :
  is_heap q ->
  In m q ->
  (forall y, In y q -> entry_leb m y = true) ->
  exists q', heappop q = Some (m, q').
Proof.
  intros Hheap Hin Hle. destruct q as [|x q]; [destruct Hin|].
  destruct (heappop_first x q) as [q' Hpop]. exists q'. rewrite Hpop.
  assert (Hx : x = m).
  { apply entry_leb_antisym.
    - exact (heap_least (x :: q) m Hheap Hin).
    - apply Hle. left. reflexivity. }
  rewrite Hx. reflexivity.
Qed.

(** Whenever the queue is in heap order and its least entry names a stored
    task that is not ready, and carries that task's priority,
    [get_next_priority_task] does not return: each turn of its loop pops the
    entry and pushes it back. *)
Lemma get_next_priority_task_spins_on_blocked_head (fuel : nat) :
  forall b p task_id t,
    is_heap (priority_queue b) ->
    In (p, task_id) (priority_queue b) ->
    (forall y, In y (priority_queue b) -> entry_leb (p, task_id) y = true) ->
    Dict.get task_id (tasks b) = Some t ->
    priority t = p ->
    not_ready b task_id t ->
    get_next_priority_task fuel b = Diverges.
Proof.
  induction fuel as [|fuel IH]; intros b p task_id t Hheap Hin Hle Hget Hp Hnr;
    [reflexivity|].
  cbn [get_next_priority_task]. unfold bind at 1, self at 1.
  destruct (heappop_least_entry _ _ Hheap Hin Hle) as [q' Hpop]. rewrite Hpop.
  destruct (heappop_some _ _ _ Hpop) as (_ & Hsub & _).
  unfold bind at 1, mutate at 1.
  rewrite (mem_get_some _ _ _ Hget). cbn [negb].
  set (b1 := set_priority_queue _ b).
  assert (Hget1 : Dict.get task_id (tasks b1) = Some t) by exact Hget.
  rewrite (bind_returns _ _ _ _ _ (task_at_some _ _ _ Hget1)).
  assert (Hturn :
    (task' <- task_at task_id ;;
     mutate (set_priority_queue (fun q => heappush q (priority task', task_id))) ;;
     get_next_priority_task fuel) b1 = Diverges).
  { rewrite (bind_returns _ _ _ _ _ (task_at_some _ _ _ Hget1)).
    unfold bind at 1, mutate at 1. rewrite Hp.
    apply (IH _ p task_id t); cbn [priority_queue tasks set_priority_queue b1].
    - apply heappush_heap. exact (heappop_heap _ _ _ Hheap Hpop).
    - apply heappush_In. left. reflexivity.
    - intros y Hy. apply heappush_In in Hy. destruct Hy as [-> | Hy].
      + apply entry_leb_refl.
      + apply Hle. apply Hsub. exact Hy.
    - exact Hget.
    - exact Hp.
    - exact Hnr. }
  destruct Hnr as [[Hw Hi] | [Hw [deps [Hg Hall]]]].
  - destruct (status t); try contradiction; exact Hturn.
  - rewrite Hw.
    assert (Hcheck : check_dependencies task_id b1 = Returns false b1).
    { unfold check_dependencies, bind, self. rewrite (mem_get_some _ _ _ Hget1).
      cbn [negb]. change (dependency_graph b1) with (dependency_graph b).
      change (tasks b1) with (tasks b). rewrite Hg, Hall. reflexivity. }
    rewrite (bind_returns _ _ _ _ _ Hcheck). exact Hturn.
Qed.

(** *** Two units of fuel are enough outside the scheduler loop *)

Lemma total_ret {A} (a : A) : total (ret a).
Proof. intros b. discriminate. Qed.

Lemma total_raise {A} (e : Exn) : total (@raise A e).
Proof. intros b. discriminate. Qed.

Lemma total_self : total self.
Proof. intros b. discriminate. Qed.

Lemma total_mutate (f : TaskBoardManager -> TaskBoardManager) : total (mutate f).
Proof. intros b. discriminate. Qed.

Lemma total_bind {A B} (m : M A) (k : A -> M B) :
  total m -> (forall a, total (k a)) -> total (bind m k).
Proof.
  intros Hm Hk b. unfold bind. specialize (Hm b).
  destruct (m b) as [a b' | e b' |]; [apply Hk | discriminate | contradiction].
Qed.

Lemma total_for_each {X} (xs : list X) (body : X -> M unit) :
  (forall x, total (body x)) -> total (for_each xs body).
Proof.
  intros Hbody. induction xs as [|x xs IH]; cbn [for_each].
  - apply total_ret.
  - apply total_bind; [apply Hbody | intros _; exact IH].
Qed.

Lemma total_task_at (task_id : string) : total (task_at task_id).
Proof.
  intros b. unfold task_at, bind, self.
  destruct (Dict.get task_id (tasks b)); discriminate.
Qed.

Lemma total_get_blocked_tasks (task_id : string) : total (get_blocked_tasks task_id).
Proof.
  intros b. unfold get_blocked_tasks, bind, self. destruct (negb _); discriminate.
Qed.

Lemma total_check_dependencies (task_id : string) : total (check_dependencies task_id).
Proof.
  intros b. unfold check_dependencies, bind, self. destruct (negb _); [discriminate|].
  destruct (Dict.get task_id (dependency_graph b)) as [deps|]; [|discriminate].
  destruct (all_complete (tasks b) deps); discriminate.
Qed.

Create HintDb total.

#[local] Hint Resolve total_ret total_raise total_self total_mutate total_task_at
  total_get_blocked_tasks total_check_dependencies : total.

Ltac total_step :=
  match goal with
  | |- total (bind _ _) => apply total_bind; [|intros ?]
  | |- total (for_each _ _) => apply total_for_each; intros ?
  | |- total (update_entry _ _) => apply total_mutate
  | |- total (emit_task_event _ _ _) => apply total_mutate
  | |- total (if ?c then _ else _) => destruct c
  | |- total (match ?x with _ => _ end) => destruct x
  | |- total _ => solve [auto with total]
  end.

(** With one unit of fuel, the two requests that the nested calls make
    return or raise: IN_PROGRESS has no side effect, and STALLED is refused
    for a task that is not IN_PROGRESS. *)
Lemma update_to_in_progress_total (fuel : nat) (task_id reason : string) :
  total (update_task_status (S fuel) task_id IN_PROGRESS reason).
Proof.
  intros b. destruct (Dict.get task_id (tasks b)) as [t|] eqn:Hget.
  - destruct (status_in IN_PROGRESS (VALID_TRANSITIONS (status t))) eqn:Hok.
    + rewrite (update_task_status_plain fuel b task_id t IN_PROGRESS reason Hget Hok);
        [discriminate | left; reflexivity].
    + rewrite (update_task_status_illegal fuel b task_id t IN_PROGRESS reason Hget Hok).
      discriminate.
  - rewrite (update_task_status_unknown fuel b task_id IN_PROGRESS reason Hget). discriminate.
Qed.

Section TotalWithCallback.

Variable update : string -> TaskStatus -> string -> M unit.
Hypothesis update_in_progress : forall task_id reason, total (update task_id IN_PROGRESS reason).
Hypothesis update_stalled :
  forall task_id reason b t,
    Dict.get task_id (tasks b) = Some t -> status t <> IN_PROGRESS ->
    update task_id STALLED reason b <> Diverges.

Lemma total_propagate_result (task_id dep_task_id : string) :
  total (propagate_result update task_id dep_task_id).
Proof. unfold propagate_result. repeat total_step. Qed.

Lemma handle_partial_failure_with_returns (task_id : string) (b : TaskBoardManager)
  (t : TaskBoardEntry) :
  Dict.get task_id (tasks b) = Some t -> status t <> IN_PROGRESS ->
  handle_partial_failure_with update task_id b <> Diverges.
Proof.
  intros Hget Hne. unfold handle_partial_failure_with.
  rewrite (bind_returns _ _ _ _ _ (task_at_some _ _ _ Hget)).
  unfold bind at 1, self at 1.
  destruct (failed_dependencies (tasks b) (dependencies t)) as [[|d ds]|];
    [discriminate | | discriminate].
  unfold bind at 1, emit_task_event at 1, mutate at 1.
  apply update_stalled with (t := t); [exact Hget | exact Hne].
Qed.

Lemma escalate_task_with_returns (task_id reason : string) (b : TaskBoardManager)
  (t : TaskBoardEntry) :
  Dict.get task_id (tasks b) = Some t -> status t <> IN_PROGRESS ->
  escalate_task_with update task_id reason b <> Diverges.
Proof.
  intros Hget Hne. unfold escalate_task_with.
  rewrite (bind_returns _ _ _ _ _ (task_at_some _ _ _ Hget)).
  unfold bind at 1, self at 1. unfold bind at 1, emit_task_event at 1, mutate at 1.
  apply update_stalled with (t := t); [exact Hget | exact Hne].
Qed.

End TotalWithCallback.

Lemma update_to_stalled_refused (fuel : nat) (task_id reason : string)
  (b : TaskBoardManager) (t : TaskBoardEntry) :
  Dict.get task_id (tasks b) = Some t -> status t <> IN_PROGRESS ->
  update_task_status (S fuel) task_id STALLED reason b <> Diverges.
Proof.
  intros Hget Hne. rewrite (stall_only_from_in_progress fuel b task_id t reason Hget Hne).
  discriminate.
Qed.

(** [update_task_status] returns or raises as soon as it has two units of
    fuel: its nested calls go one level deep. *)
Lemma update_task_status_total (fuel : nat) (task_id : string) (new_status : TaskStatus)
  (reason : string) :
  total (update_task_status (S (S fuel)) task_id new_status reason).
Proof.
  intros b. remember (S fuel) as n eqn:Hn. cbn [update_task_status].
  destruct (Dict.get task_id (tasks b)) as [t|] eqn:Hget.
  2:{ unfold bind at 1. rewrite (task_at_unknown task_id b); [discriminate|].
      unfold Dict.mem. rewrite Hget. reflexivity. }
  rewrite (bind_returns _ _ _ _ _ (task_at_some _ _ _ Hget)).
  destruct (negb (status_in new_status (VALID_TRANSITIONS (status t)))); [discriminate|].
  unfold bind at 1, update_entry at 1, mutate at 1.
  set (b1 := set_tasks (Dict.adjust task_id (with_status new_status)) b).
  assert (Hget1 : Dict.get task_id (tasks b1) = Some (with_status new_status t)).
  { subst b1. cbn [tasks set_tasks]. rewrite get_adjust, String.eqb_refl, Hget. reflexivity. }
  assert (Hemit : forall old s r, total (emit_task_event task_id "STATUS_CHANGED"
                                           (DataStatusChanged old s r))).
  { intros. apply total_mutate. }
  destruct new_status.
  - apply total_bind; [apply total_ret | intros; apply Hemit].
  - apply total_bind; [apply total_ret | intros; apply Hemit].
  - apply total_bind; [apply total_ret | intros; apply Hemit].
  - (* REWORK_NEEDED *)
    unfold bind at 1. unfold bind at 1, update_entry at 1, mutate at 1.
    set (b2 := set_tasks _ b1).
    assert (Hget2 : exists t2, Dict.get task_id (tasks b2) = Some t2
                               /\ status t2 = REWORK_NEEDED).
    { subst b2. cbn [tasks set_tasks]. rewrite get_adjust, String.eqb_refl, Hget1.
      eexists. split; reflexivity. }
    destruct Hget2 as [t2 [Hget2 Hs2]].
    rewrite (bind_returns _ _ _ _ _ (task_at_some _ _ _ Hget2)).
    destruct (current_iterations t2 >=? max_iterations t2).
    + pose proof (escalate_task_with_returns (update_task_status n)
                    (fun tid r b0 t0 H1 H2 =>
                       ltac:(subst n; exact (update_to_stalled_refused _ tid r b0 t0 H1 H2)))
                    task_id "Maximum iterations reached during rework" b2 t2 Hget2) as Hesc.
      destruct (escalate_task_with _ _ _ b2) as [x bx | e bx |];
        [discriminate | discriminate |].
      exfalso. apply Hesc; [rewrite Hs2; discriminate | reflexivity].
    + discriminate.
  - (* COMPLETE *)
    apply total_bind; [|intros; apply Hemit].
    apply total_bind; [apply total_get_blocked_tasks|]. intros blocked.
    apply total_for_each. intros x. apply total_propagate_result.
    intros tid r. subst n. apply update_to_in_progress_total.
  - (* STALLED *)
    unfold bind at 1.
    pose proof (handle_partial_failure_with_returns (update_task_status n)
                  (fun tid r b0 t0 H1 H2 =>
                     ltac:(subst n; exact (update_to_stalled_refused _ tid r b0 t0 H1 H2)))
                  task_id b1 _ Hget1) as Hpf.
    destruct (handle_partial_failure_with _ _ b1) as [x bx | e bx |];
      [discriminate | discriminate |].
    exfalso. apply Hpf; [cbn; discriminate | reflexivity].
  - (* ABANDONED *)
    discriminate.
Qed.

#[local] Hint Resolve update_task_status_total : total.

(** Every operation but the scheduler loop returns or raises, as written,
    from every state. *)
Lemma run_total (fuel : nat) (op : Operation) :
  op <> OpGetNextPriorityTask -> total (run AsWritten (S (S fuel)) op).
Proof.
  intros Hop. destruct op; try contradiction; cbn [run];
    unfold add_task_with, remove_task, handle_status_transition,
      request_verification, handle_verification_result, increment_iteration,
      handle_iteration_limit_reached,
      update_priority, update_dependencies_with, handle_feedback, escalate_task,
      handle_partial_failure, escalate_task_with, handle_partial_failure_with,
      cycle_test_on_add, cycle_test_on_update, coroutine_truth, lift;
    repeat total_step.
Qed.

(** *** The cycle detectors terminate *)

Lemma path_grows (K path : list string) (x : string) (fuel : nat) :
  NoDup path -> incl path K -> ~ In x path -> In x K ->
  (length K < S fuel + length path)%nat ->
  NoDup (path ++ [x]) /\ incl (path ++ [x]) K
  /\ (length K < fuel + length (path ++ [x]))%nat.
Proof.
  intros Hnd Hincl Hx HxK Hlen. repeat split.
  - apply NoDup_app; [exact Hnd | constructor; [tauto | constructor] |].
    intros a Ha [<- | []]. exact (Hx Ha).
  - intros a Ha. apply in_app_or in Ha. destruct Ha as [Ha | [<- | []]];
      [apply Hincl; exact Ha | exact HxK].
  - rewrite length_app. cbn [length]. lia.
Qed.

Lemma fuel_left (K path : list string) (fuel : nat) :
  NoDup path -> incl path K -> (length K < fuel + length path)%nat -> fuel <> O.
Proof.
  intros Hnd Hincl Hlen ->. pose proof (NoDup_incl_length Hnd Hincl). lia.
Qed.

(** [dfs] returns (or raises) whenever its fuel exceeds the number of graph
    keys that are not yet on the path, and it leaves the path as it found
    it. *)
Lemma dfs_terminates (g : Dict.t (list string)) (fuel : nat) :
  forall task_id st,
    NoDup (dfs_path st) -> incl (dfs_path st) (Dict.keys g) ->
    (length (Dict.keys g) < fuel + length (dfs_path st))%nat ->
    match dfs fuel g task_id st with
    | PVal st' => dfs_path st' = dfs_path st
    | PExn _ => True
    | PLoop => False
    end.
Proof.
  induction fuel as [|fuel IH]; intros task_id st Hnd Hincl Hlen.
  - exfalso. exact (fuel_left _ _ _ Hnd Hincl Hlen eq_refl).
  - cbn [dfs].
    destruct (in_ids task_id (dfs_path st)) eqn:Epath; [reflexivity|].
    destruct (in_ids task_id (dfs_visited st)); [reflexivity|].
    destruct (Dict.get task_id g) as [deps|] eqn:Hget; [|exact I].
    destruct (path_grows _ _ task_id fuel Hnd Hincl (in_ids_false _ _ Epath)
                (keys_get _ _ _ Hget) Hlen) as [Hnd1 [Hincl1 Hlen1]].
    set (st1 := {| dfs_visited := dfs_visited st ++ [task_id];
                   dfs_path := dfs_path st ++ [task_id];
                   dfs_cycles := dfs_cycles st |}).
    match goal with
    | |- match (match ?loop deps st1 with _ => _ end) with _ => _ end =>
        assert (Hloop : forall ds s, dfs_path s = dfs_path st1 ->
                  match loop ds s with
                  | PVal s' => dfs_path s' = dfs_path st1
                  | PExn _ => True
                  | PLoop => False
                  end)
    end.
    { induction ds as [|d ds IHd]; intros s Hs; [exact Hs|].
      assert (Hd : match dfs fuel g d s with
                   | PVal s' => dfs_path s' = dfs_path s
                   | PExn _ => True
                   | PLoop => False
                   end).
      { apply IH; rewrite Hs; assumption. }
      destruct (dfs fuel g d s) as [s'| e |]; [|exact I|exact Hd].
      apply IHd. rewrite Hd. exact Hs. }
    specialize (Hloop deps st1 eq_refl).
    match goal with
    | |- match (match ?x with _ => _ end) with _ => _ end => destruct x as [s'| e |]
    end; [|exact I|exact Hloop].
    cbn [dfs_path]. rewrite Hloop. cbn [st1 dfs_path]. apply removelast_last.
Qed.

Lemma detect_circular_dependencies_terminates (g : Dict.t (list string)) :
  detect_circular_dependencies g <> PLoop.
Proof.
  unfold detect_circular_dependencies.
  assert (H : forall starts st,
             dfs_path st = [] ->
             dfs_from_all (S (S (length g))) g starts st <> PLoop).
  { induction starts as [|k starts IHs]; intros st Hst; cbn [dfs_from_all]; [discriminate|].
    pose proof (dfs_terminates g (S (S (length g))) k st) as Hk.
    rewrite Hst in Hk. specialize (Hk (NoDup_nil _) (incl_nil_l _)).
    unfold Dict.keys in Hk. rewrite length_map in Hk. cbn [length] in Hk.
    specialize (Hk ltac:(lia)).
    destruct (dfs (S (S (length g))) g k st) as [st'| e |];
      [apply IHs; exact Hk | discriminate | contradiction]. }
  specialize (H (Dict.keys g) {| dfs_visited := []; dfs_path := []; dfs_cycles := [] |} eq_refl).
  destruct (dfs_from_all _ g (Dict.keys g) _); [discriminate | discriminate | contradiction].
Qed.

Lemma filter_out_last (x : string) (l : list string) :
  ~ In x l -> filter (fun y => negb (x =? y)%string) (l ++ [x]) = l.
Proof.
  intros Hx. rewrite filter_app. cbn [filter]. rewrite String.eqb_refl. cbn [negb].
  rewrite app_nil_r. induction l as [|y l IH]; [reflexivity|].
  cbn [filter]. destruct (x =? y)%string eqn:E.
  - apply String.eqb_eq in E. subst y. exfalso. apply Hx. left. reflexivity.
  - cbn [negb]. f_equal. apply IH. intros H. apply Hx. right. exact H.
Qed.

(** [visit] returns under the same bound on its fuel, and a call that
    answers [False] leaves the path as it found it. *)
Lemma visit_terminates (g : Dict.t (list string)) (fuel : nat) :
  forall node visited path,
    NoDup path -> incl path (Dict.keys g) ->
    (length (Dict.keys g) < fuel + length path)%nat ->
    match visit fuel g node (visited, path) with
    | Some (false, (_, path')) => path' = path
    | Some (true, _) => True
    | None => False
    end.
Proof.
  induction fuel as [|fuel IH]; intros node visited path Hnd Hincl Hlen.
  - exfalso. exact (fuel_left _ _ _ Hnd Hincl Hlen eq_refl).
  - cbn [visit].
    destruct (in_ids node path) eqn:Epath; [exact I|].
    destruct (in_ids node visited); [reflexivity|].
    pose proof (in_ids_false _ _ Epath) as Hnot.
    destruct (Dict.get node g) as [deps|] eqn:Hget.
    + destruct (path_grows _ _ node fuel Hnd Hincl Hnot (keys_get _ _ _ Hget) Hlen)
        as [Hnd1 [Hincl1 Hlen1]].
      match goal with
      | |- match (match ?loop deps ?s0 with _ => _ end) with _ => _ end =>
          assert (Hloop : forall ds v,
                    match loop ds (v, path ++ [node]) with
                    | Some (false, (_, path')) => path' = path ++ [node]
                    | Some (true, _) => True
                    | None => False
                    end)
      end.
      { induction ds as [|d ds IHd]; intros v; [reflexivity|].
        pose proof (IH d v (path ++ [node]) Hnd1 Hincl1 Hlen1) as Hd.
        destruct (visit fuel g d (v, path ++ [node])) as [[[|] [v' p']]|];
          [exact I | | exact Hd].
        subst p'. apply IHd. }
      specialize (Hloop deps (visited ++ [node])).
      match goal with
      | |- match (match ?x with _ => _ end) with _ => _ end =>
          destruct x as [[[|] [v' p']]|]
      end; [exact I | | exact Hloop].
      subst p'. apply filter_out_last. exact Hnot.
    + apply filter_out_last. exact Hnot.
Qed.

Lemma _detect_cycles_in_graph_terminates (g : Dict.t (list string)) :
  _detect_cycles_in_graph g <> PLoop.
Proof.
  unfold _detect_cycles_in_graph.
  assert (H : forall nodes v, visit_any (S (S (length g))) g nodes (v, []) <> None).
  { induction nodes as [|k nodes IHn]; intros v; cbn [visit_any]; [discriminate|].
    pose proof (visit_terminates g (S (S (length g))) k v [] (NoDup_nil _) (incl_nil_l _)) as Hk.
    unfold Dict.keys in Hk. rewrite length_map in Hk. cbn [length] in Hk.
    specialize (Hk ltac:(lia)).
    destruct (visit (S (S (length g))) g k (v, [])) as [[[|] [v' p']]|];
      [discriminate | subst p'; apply IHn | contradiction]. }
  specialize (H (Dict.keys g) []).
  destruct (visit_any _ g (Dict.keys g) _); [discriminate | contradiction].
Qed.

(** Hence, with the [await] put back as well, every operation but the
    scheduler loop returns or raises from every state. *)
Lemma run_total_await_restored (fuel : nat) (op : Operation) :
  op <> OpGetNextPriorityTask -> total (run AwaitRestored (S (S fuel)) op).
Proof.
  intros Hop.
  assert (Hadd : forall g, total (lift (cycle_test_on_add AwaitRestored g))).
  { intros g b. cbn [cycle_test_on_add].
    pose proof (detect_circular_dependencies_terminates g) as Hg.
    destruct (detect_circular_dependencies g); cbn; [discriminate | discriminate | contradiction]. }
  assert (Hupd : forall g, total (lift (cycle_test_on_update AwaitRestored g))).
  { intros g b. cbn [cycle_test_on_update].
    pose proof (_detect_cycles_in_graph_terminates g) as Hg.
    destruct (_detect_cycles_in_graph g); cbn; [discriminate | discriminate | contradiction]. }
  destruct op; try contradiction;
    match goal with
    | |- total (run _ _ ?o) => try exact (run_total fuel o ltac:(discriminate))
    end; cbn [run].
  - unfold add_task_with. repeat total_step; apply Hadd.
  - unfold update_dependencies_with. repeat total_step; apply Hupd.
Qed.

Lemma run_returns_or_raises (r : Reading) (fuel : nat) (op : Operation) :
  op <> OpGetNextPriorityTask -> total (run r (S (S fuel)) op).
Proof. destruct r; [apply run_total | apply run_total_await_restored]. Qed.

(** * Further properties of the manager *)

(** ** Relations that every step of a call keeps *)

Section Kept.

Variable R : TaskBoardManager -> TaskBoardManager -> Prop.
Hypothesis R_pre : Preorder R.

Lemma kept_ret {A} (a : A) : keeps R (ret a).
Proof. intros b. apply (pre_refl R R_pre). Qed.

Lemma kept_raise {A} (e : Exn) : keeps R (@raise A e).
Proof. intros b. apply (pre_refl R R_pre). Qed.

Lemma kept_diverge {A} : keeps R (@diverge A).
Proof. intros b. exact I. Qed.

Lemma kept_self : keeps R self.
Proof. intros b. apply (pre_refl R R_pre). Qed.

Lemma kept_bind {A B} (m : M A) (k : A -> M B) :
  keeps R m -> (forall a, keeps R (k a)) -> keeps R (bind m k).
Proof.
  intros Hm Hk b. unfold bind. specialize (Hm b).
  destruct (m b) as [a b' | e b' |]; [|exact Hm|exact I].
  specialize (Hk a b').
  destruct (k a b') as [a' b'' | e b'' |]; [| |exact I];
    eapply (pre_trans R R_pre); eassumption.
Qed.

Lemma kept_for_each {X} (xs : list X) (body : X -> M unit) :
  (forall x, keeps R (body x)) -> keeps R (for_each xs body).
Proof.
  intros Hbody. induction xs as [|x xs IH]; cbn [for_each].
  - apply kept_ret.
  - apply kept_bind; [apply Hbody | intros _; exact IH].
Qed.

Lemma kept_lift {A} (p : Pure A) : keeps R (lift p).
Proof. destruct p; [apply kept_ret | apply kept_raise | apply kept_diverge]. Qed.

Lemma kept_task_at (task_id : string) : keeps R (task_at task_id).
Proof.
  unfold task_at. apply kept_bind; [apply kept_self|]. intros b.
  destruct (Dict.get task_id (tasks b)); [apply kept_ret | apply kept_raise].
Qed.

Lemma kept_get_blocked_tasks (task_id : string) : keeps R (get_blocked_tasks task_id).
Proof.
  unfold get_blocked_tasks. apply kept_bind; [apply kept_self|]. intros b.
  destruct (negb _); [apply kept_raise | apply kept_ret].
Qed.

Lemma kept_check_dependencies (task_id : string) : keeps R (check_dependencies task_id).
Proof.
  unfold check_dependencies. apply kept_bind; [apply kept_self|]. intros b.
  destruct (negb _); [apply kept_raise|].
  destruct (Dict.get task_id (dependency_graph b)) as [deps|]; [|apply kept_raise].
  destruct (all_complete (tasks b) deps); [apply kept_ret | apply kept_raise].
Qed.

End Kept.

Lemma entries_related_preorder (E : TaskBoardEntry -> TaskBoardEntry -> Prop) :
  (forall t, E t t) -> (forall t1 t2 t3, E t1 t2 -> E t2 t3 -> E t1 t3) ->
  Preorder (entries_related E).
Proof.
  intros Hrefl Htrans. split.
  - intros b k t Hget. exists t. split; [exact Hget | apply Hrefl].
  - intros b1 b2 b3 H12 H23 k t Hget.
    destruct (H12 k t Hget) as [t2 [Hget2 E12]].
    destruct (H23 k t2 Hget2) as [t3 [Hget3 E23]].
    exists t3. split; [exact Hget3 | eapply Htrans; eassumption].
Qed.

Lemma legal_path_trans (s1 s2 s3 : TaskStatus) :
  legal_path s1 s2 -> legal_path s2 s3 -> legal_path s1 s3.
Proof.
  intros H12 H23. induction H23 as [|s2 s' s'' _ IH Hstep]; [exact H12|].
  eapply path_step; [apply IH; exact H12 | exact Hstep].
Qed.

Lemma entry_evolves_refl (t : TaskBoardEntry) : entry_evolves t t.
Proof. repeat split; first [reflexivity | lia | apply path_here]. Qed.

Lemma entry_evolves_trans (t1 t2 t3 : TaskBoardEntry) :
  entry_evolves t1 t2 -> entry_evolves t2 t3 -> entry_evolves t1 t3.
Proof.
  intros [A1 [A2 [A3 [A4 [A5 [A6 A7]]]]]] [B1 [B2 [B3 [B4 [B5 [B6 B7]]]]]].
  repeat split; first [congruence | lia | eapply legal_path_trans; eassumption].
Qed.

Lemma store_evolves_preorder : Preorder store_evolves.
Proof.
  apply entries_related_preorder; [apply entry_evolves_refl | apply entry_evolves_trans].
Qed.

(** A write to the fields of one entry relates the stores by [E] when it
    relates the entry to itself written. *)
Lemma kept_update_entry (E : TaskBoardEntry -> TaskBoardEntry -> Prop)
  (task_id : string) (f : TaskBoardEntry -> TaskBoardEntry) :
  (forall t, E t t) -> (forall t, E t (f t)) ->
  keeps (entries_related E) (update_entry task_id f).
Proof.
  intros Hrefl Hf b k t Hget. cbn [tasks set_tasks]. rewrite get_adjust, Hget.
  destruct (k =? task_id)%string; cbn [option_map].
  - exists (f t). split; [reflexivity | apply Hf].
  - exists t. split; [reflexivity | apply Hrefl].
Qed.

Lemma kept_same_tasks (E : TaskBoardEntry -> TaskBoardEntry -> Prop)
  (f : TaskBoardManager -> TaskBoardManager) :
  (forall t, E t t) -> (forall b, tasks (f b) = tasks b) ->
  keeps (entries_related E) (mutate f).
Proof.
  intros Hrefl Hf b k t Hget. rewrite Hf. exists t. split; [exact Hget | apply Hrefl].
Qed.

Ltac kept_step P :=
  match goal with
  | |- keeps _ (bind _ _) => apply (kept_bind _ P); [|intros ?]
  | |- keeps _ (for_each _ _) => apply (kept_for_each _ P); intros ?
  | |- keeps _ (ret _) => apply (kept_ret _ P)
  | |- keeps _ (raise _) => apply (kept_raise _ P)
  | |- keeps _ diverge => apply (kept_diverge _)
  | |- keeps _ self => apply (kept_self _ P)
  | |- keeps _ (lift _) => apply (kept_lift _ P)
  | |- keeps _ (task_at _) => apply (kept_task_at _ P)
  | |- keeps _ (get_blocked_tasks _) => apply (kept_get_blocked_tasks _ P)
  | |- keeps _ (check_dependencies _) => apply (kept_check_dependencies _ P)
  | |- keeps _ (if ?c then _ else _) => destruct c
  | |- keeps _ (match ?x with _ => _ end) => destruct x
  end.

(** ** Entries evolve: statuses follow the table, counters grow *)

Lemma evolves_with_output (o : PyVal) (t : TaskBoardEntry) :
  entry_evolves t (with_output o t).
Proof. repeat split; cbn; first [reflexivity | lia | apply path_here]. Qed.

Lemma evolves_with_verification_feedback (fs : list Feedback) (t : TaskBoardEntry) :
  entry_evolves t (with_verification_feedback fs t).
Proof. repeat split; cbn; first [reflexivity | lia | apply path_here]. Qed.

Lemma evolves_with_priority (p : Z) (t : TaskBoardEntry) :
  entry_evolves t (with_priority p t).
Proof. repeat split; cbn; first [reflexivity | lia | apply path_here]. Qed.

Lemma evolves_with_dependencies (ds : list string) (t : TaskBoardEntry) :
  entry_evolves t (with_dependencies ds t).
Proof. repeat split; cbn; first [reflexivity | lia | apply path_here]. Qed.

Lemma evolves_next_iteration (t : TaskBoardEntry) :
  entry_evolves t (with_current_iterations (current_iterations t + 1) t).
Proof. repeat split; cbn; first [reflexivity | lia | apply path_here]. Qed.

Lemma evolves_legal_status (s : TaskStatus) (t : TaskBoardEntry) :
  status_in s (VALID_TRANSITIONS (status t)) = true ->
  entry_evolves t (with_status s t).
Proof.
  intros H. apply status_in_spec in H.
  repeat split; cbn; try reflexivity; try lia.
  eapply path_step; [apply path_here | exact H].
Qed.

Ltac evolves_step :=
  first
    [ kept_step store_evolves_preorder
    | apply kept_update_entry;
      [ apply entry_evolves_refl
      | intros ?;
        first [ apply evolves_with_output | apply evolves_with_verification_feedback
              | apply evolves_with_priority | apply evolves_with_dependencies
              | apply evolves_next_iteration ] ]
    | apply kept_same_tasks; [apply entry_evolves_refl | reflexivity] ].

(** The validated status write that opens [update_task_status]. *)
Lemma evolves_status_write {A} (task_id : string) (new_status : TaskStatus) (e : Exn)
  (rest : TaskBoardEntry -> M A) :
  (forall task, keeps store_evolves (rest task)) ->
  keeps store_evolves
    (task <- task_at task_id ;;
     if negb (status_in new_status (VALID_TRANSITIONS (status task)))
     then raise e
     else update_entry task_id (with_status new_status) ;; rest task).
Proof.
  intros Hrest b. unfold bind at 1. unfold task_at, bind at 1, self.
  destruct (Dict.get task_id (tasks b)) as [t|] eqn:Hget;
    [|apply (pre_refl _ store_evolves_preorder)].
  unfold ret at 1.
  destruct (status_in new_status (VALID_TRANSITIONS (status t))) eqn:Hok; cbn [negb];
    [|apply (pre_refl _ store_evolves_preorder)].
  unfold bind at 1, update_entry at 1, mutate at 1.
  set (b1 := set_tasks (Dict.adjust task_id (with_status new_status)) b).
  assert (H1 : store_evolves b b1).
  { intros k t0 Hk. subst b1. cbn [tasks set_tasks]. rewrite get_adjust, Hk.
    destruct (String.eqb_spec k task_id) as [-> | Hne]; cbn [option_map].
    - rewrite Hget in Hk. injection Hk as <-.
      eexists. split; [reflexivity | apply evolves_legal_status; exact Hok].
    - eexists. split; [reflexivity | apply entry_evolves_refl]. }
  specialize (Hrest t b1).
  destruct (rest t b1) as [a b' | e' b' |]; [| |exact I];
    eapply (pre_trans _ store_evolves_preorder); eassumption.
Qed.

Section EvolvesWithCallback.

Variable update : string -> TaskStatus -> string -> M unit.
Hypothesis evolves_update : forall task_id s reason, keeps store_evolves (update task_id s reason).

Lemma evolves_handle_partial_failure_with (task_id : string) :
  keeps store_evolves (handle_partial_failure_with update task_id).
Proof. unfold handle_partial_failure_with. repeat evolves_step; apply evolves_update. Qed.

Lemma evolves_escalate_task_with (task_id reason : string) :
  keeps store_evolves (escalate_task_with update task_id reason).
Proof. unfold escalate_task_with. repeat evolves_step; apply evolves_update. Qed.

Lemma evolves_propagate_result (task_id dep_task_id : string) :
  keeps store_evolves (propagate_result update task_id dep_task_id).
Proof. unfold propagate_result. repeat evolves_step; apply evolves_update. Qed.

End EvolvesWithCallback.

Lemma evolves_update_task_status (fuel : nat) :
  forall task_id new_status reason,
    keeps store_evolves (update_task_status fuel task_id new_status reason).
Proof.
  induction fuel as [|fuel IH]; intros task_id new_status reason.
  - apply kept_diverge.
  - cbn [update_task_status]. apply evolves_status_write. intros task.
    unfold propagate_status.
    repeat evolves_step;
      first [ apply evolves_propagate_result; exact IH
            | apply evolves_handle_partial_failure_with; exact IH
            | apply evolves_escalate_task_with; exact IH ].
Qed.

Lemma evolves_get_next_priority_task (fuel : nat) :
  keeps store_evolves (get_next_priority_task fuel).
Proof.
  induction fuel as [|fuel IH]; [apply kept_diverge|].
  cbn [get_next_priority_task].
  repeat evolves_step; first [exact IH | apply evolves_update_task_status].
Qed.

Lemma ends_in_kept {A} (R : TaskBoardManager -> TaskBoardManager -> Prop)
  (P : TaskBoardManager -> Prop) (m : M A) (b0 b : TaskBoardManager) :
  Preorder R -> R b0 b -> keeps R m -> (forall b1, R b0 b1 -> P b1) ->
  ends_in P (m b).
Proof.
  intros HR H0 Hm HP. specialize (Hm b). unfold ends_in.
  destruct (m b); [| |exact I]; apply HP; eapply (pre_trans R HR); eassumption.
Qed.

Lemma ends_in_bind {A B} (R : TaskBoardManager -> TaskBoardManager -> Prop)
  (P : TaskBoardManager -> Prop) (m : M A) (k : A -> M B) (b0 b : TaskBoardManager) :
  Preorder R -> R b0 b -> keeps R m -> (forall b1, R b0 b1 -> P b1) ->
  (forall a b1, R b0 b1 -> ends_in P (k a b1)) ->
  ends_in P (bind m k b).
Proof.
  intros HR H0 Hm HP Hk. specialize (Hm b). unfold bind.
  destruct (m b) as [a b1 | e b1 |]; [| |exact I].
  - apply Hk. eapply (pre_trans R HR); eassumption.
  - apply HP. eapply (pre_trans R HR); eassumption.
Qed.

Lemma entry_fate_evolves (b0 b1 : TaskBoardManager) (k : string) (t : TaskBoardEntry)
  (removed : Prop) :
  Dict.get k (tasks b0) = Some t -> store_evolves b0 b1 -> entry_fate t k removed b1.
Proof.
  intros Hget H. destruct (H k t Hget) as [t' [Hget' He]].
  unfold entry_fate. rewrite Hget'. exact He.
Qed.

Lemma add_task_evolves (test : Dict.t (list string) -> Pure bool) (fuel : nat)
  (task : TaskBoardEntry) :
  keeps store_evolves (add_task_with test fuel task).
Proof.
  intros b. unfold add_task_with. unfold bind at 1, self at 1.
  destruct (Dict.mem (id task) (tasks b)) eqn:Hfresh;
    [apply (pre_refl _ store_evolves_preorder)|].
  destruct (negb _); [apply (pre_refl _ store_evolves_preorder)|].
  unfold bind at 1, mutate at 1. unfold bind at 1, self at 1. unfold bind at 1.
  cbn [dependency_graph set_dependency_graph].
  destruct (test _) as [cyclic | e |]; cbn [lift];
    [| intros k t Hk; exists t; split; [exact Hk | apply entry_evolves_refl] | exact I].
  unfold ret at 1. destruct cyclic.
  - intros k t Hk. exists t. split; [exact Hk | apply entry_evolves_refl].
  - unfold bind at 1, mutate at 1. unfold bind at 1, mutate at 1.
    match goal with
    | |- match ?m ?b2 with _ => _ end =>
        change (ends_in (store_evolves b) (m b2));
        apply (ends_in_kept store_evolves (store_evolves b) m b b2 store_evolves_preorder);
        [ | repeat evolves_step; apply evolves_update_task_status | intros b1 H; exact H ]
    end.
    intros k t Hk. cbn [tasks set_tasks set_priority_queue set_dependency_graph].
    rewrite get_set. destruct (String.eqb_spec k (id task)) as [-> | Hne].
    + unfold Dict.mem in Hfresh. rewrite Hk in Hfresh. discriminate.
    + exists t. split; [exact Hk | apply entry_evolves_refl].
Qed.

Lemma remove_task_evolves (fuel : nat) (task_id : string) (b : TaskBoardManager)
  (k : string) (t : TaskBoardEntry) :
  Dict.get k (tasks b) = Some t ->
  ends_in (entry_fate t k (k = task_id)) (remove_task fuel task_id b).
Proof.
  intros Hget. unfold remove_task. unfold bind at 1, self at 1.
  assert (Hstay : forall b1, store_evolves b b1 -> entry_fate t k (k = task_id) b1).
  { intros b1 H. eapply entry_fate_evolves; eassumption. }
  pose proof (pre_refl _ store_evolves_preorder b) as Hrefl.
  destruct (negb (Dict.mem task_id (tasks b))); [apply Hstay; exact Hrefl|].
  apply (ends_in_bind store_evolves _ _ _ b b store_evolves_preorder Hrefl);
    [apply (kept_get_blocked_tasks _ store_evolves_preorder) | exact Hstay |].
  intros blocked b1 H1.
  apply (ends_in_bind store_evolves _ _ _ b b1 store_evolves_preorder H1); [| exact Hstay |].
  { apply (kept_for_each _ store_evolves_preorder). intros x. unfold handle_partial_failure.
    apply evolves_handle_partial_failure_with. intros. apply evolves_update_task_status. }
  intros _ b2 H2.
  apply (ends_in_bind store_evolves _ _ _ b b2 store_evolves_preorder H2);
    [apply (kept_task_at _ store_evolves_preorder) | exact Hstay |].
  intros removed b3 H3.
  destruct (H3 k t Hget) as [t3 [Hget3 He3]].
  assert (Hfinal : forall b4, tasks b4 = Dict.pop task_id (tasks b3) ->
                              entry_fate t k (k = task_id) b4).
  { intros b4 Htasks. unfold entry_fate. rewrite Htasks, get_pop.
    destruct (String.eqb_spec k task_id) as [-> | Hne]; [reflexivity|].
    rewrite Hget3. exact He3. }
  unfold bind at 1, mutate at 1. unfold bind at 1, self at 1.
  destruct (negb _); [apply Hfinal; reflexivity|].
  unfold bind, mutate, emit_task_event. apply Hfinal. reflexivity.
Qed.

(** The fate of a stored entry under one call of any operation. *)
Lemma run_evolves (r : Reading) (fuel : nat) (op : Operation) (b : TaskBoardManager)
  (k : string) (t : TaskBoardEntry) :
  Dict.get k (tasks b) = Some t ->
  ends_in (entry_fate t k (op = OpRemoveTask k)) (run r fuel op b).
Proof.
  intros Hget.
  assert (Hkeeps : forall m : M unit, keeps store_evolves m ->
            ends_in (entry_fate t k (op = OpRemoveTask k)) (m b)).
  { intros m Hm. apply (ends_in_kept store_evolves _ m b b store_evolves_preorder);
      [apply (pre_refl _ store_evolves_preorder) | exact Hm |].
    intros b1 H1. eapply entry_fate_evolves; eassumption. }
  destruct op; cbn [run].
  - apply Hkeeps. apply add_task_evolves.
  - pose proof (remove_task_evolves fuel task_id0 b k t Hget) as H.
    unfold ends_in, entry_fate in *.
    destruct (remove_task fuel task_id0 b) as [a b' | e b' |]; [| |exact I];
      (destruct (Dict.get k (tasks b')); [exact H | rewrite H; reflexivity]).
  - apply Hkeeps. apply evolves_update_task_status.
  - apply Hkeeps. unfold handle_status_transition.
    repeat evolves_step; apply evolves_update_task_status.
  - apply Hkeeps. unfold increment_iteration, handle_iteration_limit_reached.
    repeat evolves_step; apply evolves_update_task_status.
  - apply Hkeeps. unfold handle_iteration_limit_reached.
    repeat evolves_step; apply evolves_update_task_status.
  - apply Hkeeps. unfold request_verification.
    repeat evolves_step; apply evolves_update_task_status.
  - apply Hkeeps. unfold handle_verification_result, increment_iteration,
      handle_iteration_limit_reached.
    repeat evolves_step; apply evolves_update_task_status.
  - apply Hkeeps. repeat evolves_step. apply evolves_get_next_priority_task.
  - apply Hkeeps. unfold update_priority. repeat evolves_step.
  - apply Hkeeps. unfold update_dependencies_with.
    repeat evolves_step; apply evolves_update_task_status.
  - apply Hkeeps. unfold handle_feedback, escalate_task.
    repeat evolves_step;
      first [ apply evolves_update_task_status
            | apply evolves_escalate_task_with; intros; apply evolves_update_task_status ].
  - apply Hkeeps. unfold escalate_task.
    apply evolves_escalate_task_with. intros. apply evolves_update_task_status.
  - apply Hkeeps. unfold handle_partial_failure.
    apply evolves_handle_partial_failure_with. intros. apply evolves_update_task_status.
Qed.

Lemma run_all_evolves (r : Reading) (calls : list (nat * Operation)) :
  forall b k t,
    Dict.get k (tasks b) = Some t ->
    ~ In (OpRemoveTask k) (map snd calls) ->
    match run_all r calls b with
    | Some b' => exists t', Dict.get k (tasks b') = Some t' /\ entry_evolves t t'
    | None => True
    end.
Proof.
  induction calls as [|[fuel op] calls IH]; intros b k t Hget Hkeep; cbn [run_all].
  - exists t. split; [exact Hget | apply entry_evolves_refl].
  - pose proof (run_evolves r fuel op b k t Hget) as Hstep.
    assert (Hop : op <> OpRemoveTask k).
    { intros ->. apply Hkeep. left. reflexivity. }
    assert (Hrest : ~ In (OpRemoveTask k) (map snd calls)).
    { intros H. apply Hkeep. right. exact H. }
    unfold ends_in, entry_fate in Hstep.
    destruct (run r fuel op b) as [a b1 | e b1 |]; cbn [final_state]; [| |exact I];
      (destruct (Dict.get k (tasks b1)) as [t1|] eqn:Hget1; [|contradiction];
       specialize (IH b1 k t1 Hget1 Hrest);
       destruct (run_all r calls b1) as [b'|]; [|exact I];
       destruct IH as [t' [Hget' He']]; exists t'; split;
       [exact Hget' | eapply entry_evolves_trans; eassumption]).
Qed.

Lemma legal_path_from_terminal (s s' : TaskStatus) :
  legal_path s s' -> s = COMPLETE \/ s = ABANDONED -> s' = s.
Proof.
  induction 1 as [s | s s' s'' Hpath IH Hstep]; intros Hs; [reflexivity|].
  rewrite (IH Hs) in Hstep. unfold legal_step in Hstep.
  destruct Hs as [-> | ->]; destruct Hstep.
Qed.

Lemma legal_path_into_waiting (s s' : TaskStatus) :
  legal_path s s' -> s' = WAITING -> s = WAITING.
Proof.
  induction 1 as [s | s s' s'' Hpath IH Hstep]; intros Hs; [exact Hs|].
  subst s''. unfold legal_step in Hstep.
  destruct s'; cbn in Hstep; intuition discriminate.
Qed.

(** X1. Along any sequence of calls of the operations of [Operation], made
    by a caller that goes on after a raise, the status of a stored task moves
    only along edges of [VALID_TRANSITIONS], as long as no call removes the
    task: the task is still stored afterwards and its status is reached from
    the one it had by a chain of legal transitions. *)
Theorem statuses_follow_the_transition_table :
  forall r calls b k t,
    Dict.get k (tasks b) = Some t ->
    ~ In (OpRemoveTask k) (map snd calls) ->
    match run_all r calls b with
    | Some b' => exists s', status_of k b' = Some s' /\ legal_path (status t) s'
    | None => True
    end.
Proof.
  intros r calls b k t Hget Hkeep.
  pose proof (run_all_evolves r calls b k t Hget Hkeep) as H.
  destruct (run_all r calls b) as [b'|]; [|exact I].
  destruct H as [t' [Hget' He]]. exists (status t'). split.
  - unfold status_of. rewrite Hget'. reflexivity.
  - apply He.
Qed.

Lemma statuses_follow_the_transition_table_witness :
  match run_all AwaitRestored
          [(3%nat, OpHandleVerificationResult "A" true []);
           (3%nat, OpRequestVerification "B");
           (3%nat, OpEscalateTask "B" "late")]
          fan_out_board
  with
  | Some b' => exists s', status_of "B" b' = Some s' /\ legal_path WAITING s'
  | None => True
  end.
Proof.
  apply (statuses_follow_the_transition_table AwaitRestored _ fan_out_board "B"
           (new_entry "B" ["A"] WAITING 5 10)).
  - reflexivity.
  - cbn. intros [H | [H | [H | []]]]; discriminate.
Defined.

(** X2. A task that is COMPLETE or ABANDONED is never reopened: after any
    sequence of calls of the operations of [Operation] that does not remove
    it, it is still stored and still has that status. *)
Theorem finished_task_is_never_reopened :
  forall r calls b k t,
    Dict.get k (tasks b) = Some t ->
    status t = COMPLETE \/ status t = ABANDONED ->
    ~ In (OpRemoveTask k) (map snd calls) ->
    match run_all r calls b with
    | Some b' => status_of k b' = Some (status t)
    | None => True
    end.
Proof.
  intros r calls b k t Hget Hdone Hkeep.
  pose proof (run_all_evolves r calls b k t Hget Hkeep) as H.
  destruct (run_all r calls b) as [b'|]; [|exact I].
  destruct H as [t' [Hget' He]]. unfold status_of. rewrite Hget'. cbn.
  f_equal. apply legal_path_from_terminal; [apply He | exact Hdone].
Qed.

Lemma finished_task_is_never_reopened_witness :
  match run_all AsWritten
          [(3%nat, OpUpdateTaskStatus "T" IN_PROGRESS "reopen");
           (3%nat, OpHandleFeedback "T" [("verdict", PyStr "reject")] "verifier");
           (3%nat, OpEscalateTask "T" "stuck")]
          (board_of [new_entry "T" [] COMPLETE 5 10])
  with
  | Some b' => status_of "T" b' = Some COMPLETE
  | None => True
  end.
Proof.
  apply (finished_task_is_never_reopened AsWritten _
           (board_of [new_entry "T" [] COMPLETE 5 10]) "T" (new_entry "T" [] COMPLETE 5 10)).
  - reflexivity.
  - left. reflexivity.
  - cbn. intros [H | [H | [H | []]]]; discriminate.
Defined.

(** X3. No operation of [Operation] rewrites the identity of a stored task:
    after any sequence of calls that does not remove it, the entry under the
    same key has the id, description, history, iteration cap and assigned
    agent it had, and its iteration counter has not gone down. *)
Theorem entry_identity_is_stable :
  forall r calls b k t,
    Dict.get k (tasks b) = Some t ->
    ~ In (OpRemoveTask k) (map snd calls) ->
    match run_all r calls b with
    | Some b' =>
        exists t',
          Dict.get k (tasks b') = Some t'
          /\ id t' = id t
          /\ description t' = description t
          /\ history t' = history t
          /\ max_iterations t' = max_iterations t
          /\ assigned_agent t' = assigned_agent t
          /\ current_iterations t <= current_iterations t'
    | None => True
    end.
Proof.
  intros r calls b k t Hget Hkeep.
  pose proof (run_all_evolves r calls b k t Hget Hkeep) as H.
  destruct (run_all r calls b) as [b'|]; [|exact I].
  destruct H as [t' [Hget' He]]. exists t'. split; [exact Hget'|].
  destruct He as (H1 & H2 & H3 & H4 & H5 & H6 & _). repeat split; assumption.
Qed.

Lemma entry_identity_is_stable_witness :
  match run_all AwaitRestored
          [(3%nat, OpHandleVerificationResult "T" false []);
           (3%nat, OpUpdatePriority "T" 1);
           (3%nat, OpUpdateDependencies "T" [])]
          (review_board 10)
  with
  | Some b' =>
      exists t',
        Dict.get "T" (tasks b') = Some t'
        /\ id t' = "T"
        /\ description t' = "work"
        /\ history t' = []
        /\ max_iterations t' = 10
        /\ assigned_agent t' = None
        /\ 0 <= current_iterations t'
  | None => True
  end.
Proof.
  apply (entry_identity_is_stable AwaitRestored _ (review_board 10) "T"
           (new_entry "T" [] PENDING_REVIEW 5 10)).
  - reflexivity.
  - cbn. intros [H | [H | [H | []]]]; discriminate.
Defined.

(** X4. No operation of [Operation] puts a task back to WAITING: a stored
    task whose status is not WAITING does not have that status after any
    sequence of calls that does not remove it. *)
Theorem waiting_is_never_reentered :
  forall r calls b k t,
    Dict.get k (tasks b) = Some t ->
    status t <> WAITING ->
    ~ In (OpRemoveTask k) (map snd calls) ->
    match run_all r calls b with
    | Some b' => exists s', status_of k b' = Some s' /\ s' <> WAITING
    | None => True
    end.
Proof.
  intros r calls b k t Hget Hstarted Hkeep.
  pose proof (run_all_evolves r calls b k t Hget Hkeep) as H.
  destruct (run_all r calls b) as [b'|]; [|exact I].
  destruct H as [t' [Hget' He]]. exists (status t'). split.
  - unfold status_of. rewrite Hget'. reflexivity.
  - intros Hw. apply Hstarted. eapply legal_path_into_waiting; [apply He | exact Hw].
Qed.

Lemma waiting_is_never_reentered_witness :
  match run_all AwaitRestored
          [(3%nat, OpUpdateDependencies "T" ["U"]);
           (3%nat, OpUpdateTaskStatus "T" WAITING "blocked")]
          two_active_board
  with
  | Some b' => exists s', status_of "T" b' = Some s' /\ s' <> WAITING
  | None => True
  end.
Proof.
  apply (waiting_is_never_reentered AwaitRestored _ two_active_board "T"
           (new_entry "T" [] IN_PROGRESS 5 10)).
  - reflexivity.
  - discriminate.
  - cbn. intros [H | [H | []]]; discriminate.
Defined.

(** ** Recovery, escalation and the iteration cap *)

Lemma bind_returns_inv {A B} (m : M A) (k : A -> M B) (b b' : TaskBoardManager) (r : B) :
  bind m k b = Returns r b' ->
  exists a b1, m b = Returns a b1 /\ k a b1 = Returns r b'.
Proof.
  unfold bind. destruct (m b) as [a b1 | e b1 |]; intros H; try discriminate.
  exists a, b1. split; [reflexivity | exact H].
Qed.

Lemma get_adjust_same {V} (k : string) (f : V -> V) (d : Dict.t V) (v : V) :
  Dict.get k d = Some v -> Dict.get k (Dict.adjust k f d) = Some (f v).
Proof. intros H. rewrite get_adjust, String.eqb_refl, H. reflexivity. Qed.

Lemma failed_dependencies_after_stall (ts : Dict.t TaskBoardEntry) (task_id : string)
  (deps : list string) :
  forall l,
    failed_dependencies ts deps = Some l ->
    exists l', failed_dependencies (Dict.adjust task_id (with_status STALLED) ts) deps = Some l'
               /\ (l <> [] -> l' <> []).
Proof.
  induction deps as [|dep deps IH]; intros l H; cbn in H |- *.
  - exists []. split; [reflexivity|]. inversion H. auto.
  - rewrite get_adjust.
    destruct (Dict.get dep ts) as [dt|]; [|discriminate].
    destruct (failed_dependencies ts deps) as [rest|]; [|discriminate].
    destruct (IH rest eq_refl) as [rest' [Hrest' Hne]]. rewrite Hrest'.
    destruct (dep =? task_id)%string; cbn [option_map].
    + cbn. exists (dep :: rest'). split; [reflexivity | discriminate].
    + revert H.
      match goal with |- context [if ?c then _ else _] => destruct c end;
        intros H; injection H as <-.
      * exists (dep :: rest'). split; [reflexivity | discriminate].
      * exists rest'. split; [reflexivity | exact Hne].
Qed.

(** Once a dependency of a task has failed, no attempt to stall the task
    returns: the nested recovery asks for STALLED again. *)
Lemma stall_with_failed_dependency (fuel : nat) :
  forall b task_id t d fd reason r b',
    Dict.get task_id (tasks b) = Some t ->
    failed_dependencies (tasks b) (dependencies t) = Some (d :: fd) ->
    update_task_status fuel task_id STALLED reason b <> Returns r b'.
Proof.
  induction fuel as [|fuel IH]; intros b task_id t d fd reason r b' Hget Hfailed;
    [discriminate|].
  cbn [update_task_status].
  rewrite (bind_returns _ _ _ _ _ (task_at_some _ _ _ Hget)).
  destruct (negb (status_in STALLED (VALID_TRANSITIONS (status t)))); [discriminate|].
  unfold bind at 1, update_entry at 1, mutate at 1.
  set (b1 := set_tasks _ b).
  intros Hret. apply bind_returns_inv in Hret. destruct Hret as [u [b2 [Hret _]]].
  revert Hret. unfold handle_partial_failure_with.
  assert (Hget1 : Dict.get task_id (tasks b1) = Some (with_status STALLED t)).
  { apply get_adjust_same. exact Hget. }
  rewrite (bind_returns _ _ _ _ _ (task_at_some _ _ _ Hget1)).
  unfold bind at 1, self at 1.
  destruct (failed_dependencies_after_stall (tasks b) task_id _ _ Hfailed)
    as [l' [Hl' Hne]].
  change (tasks b1) with (Dict.adjust task_id (with_status STALLED) (tasks b)).
  change (dependencies (with_status STALLED t)) with (dependencies t).
  rewrite Hl'. destruct l' as [|d' fd']; [exfalso; apply Hne; [discriminate | reflexivity]|].
  unfold bind at 1, emit_task_event at 1, mutate at 1.
  eapply IH; [exact Hget1 | exact Hl'].
Qed.

Lemma handle_partial_failure_with_failed_dependency (fuel : nat) (b : TaskBoardManager)
  (task_id : string) (t : TaskBoardEntry) (d : string) (fd : list string) :
  Dict.get task_id (tasks b) = Some t ->
  failed_dependencies (tasks b) (dependencies t) = Some (d :: fd) ->
  forall r b', handle_partial_failure fuel task_id b <> Returns r b'.
Proof.
  intros Hget Hfailed r b'. unfold handle_partial_failure, handle_partial_failure_with.
  rewrite (bind_returns _ _ _ _ _ (task_at_some _ _ _ Hget)).
  unfold bind at 1, self at 1. rewrite Hfailed.
  unfold bind at 1, emit_task_event at 1, mutate at 1.
  eapply stall_with_failed_dependency; [exact Hget | exact Hfailed].
Qed.

Lemma handle_partial_failure_returned (fuel : nat) (task_id : string)
  (b b' : TaskBoardManager) (r : unit) :
  handle_partial_failure fuel task_id b = Returns r b' ->
  b' = b /\ exists t, Dict.get task_id (tasks b) = Some t
                      /\ failed_dependencies (tasks b) (dependencies t) = Some [].
Proof.
  intros Hret.
  destruct (Dict.get task_id (tasks b)) as [t|] eqn:Hget.
  - destruct (failed_dependencies (tasks b) (dependencies t)) as [[|d fd]|] eqn:Hfailed.
    + revert Hret. unfold handle_partial_failure, handle_partial_failure_with.
      rewrite (bind_returns _ _ _ _ _ (task_at_some _ _ _ Hget)).
      unfold bind, self. rewrite Hfailed. unfold ret. intros H. injection H as _ <-.
      split; [reflexivity|]. exists t. split; [reflexivity | exact Hfailed].
    + exfalso.
      exact (handle_partial_failure_with_failed_dependency fuel b task_id t d fd
               Hget Hfailed r b' Hret).
    + revert Hret. unfold handle_partial_failure, handle_partial_failure_with.
      rewrite (bind_returns _ _ _ _ _ (task_at_some _ _ _ Hget)).
      unfold bind, self. rewrite Hfailed. discriminate.
  - revert Hret. unfold handle_partial_failure, handle_partial_failure_with.
    unfold bind at 1. unfold task_at, bind, self. rewrite Hget. discriminate.
Qed.

(** X5. [handle_partial_failure] returns exactly when the task is stored,
    each of its dependencies is stored and none of them is ABANDONED or
    STALLED; it then leaves the manager as it was.  With a failed dependency
    the call raises, whatever the status of the task. *)
Theorem handle_partial_failure_returns_iff_nothing_failed :
  forall fuel task_id b,
    (forall r b', handle_partial_failure fuel task_id b = Returns r b' -> b' = b)
    /\ ((exists r b', handle_partial_failure fuel task_id b = Returns r b')
        <-> exists t, Dict.get task_id (tasks b) = Some t
                      /\ failed_dependencies (tasks b) (dependencies t) = Some []).
Proof.
  intros fuel task_id b.
  split; [intros r b' H; apply (handle_partial_failure_returned _ _ _ _ _ H)|]. split.
  - intros [r [b' H]]. apply (handle_partial_failure_returned _ _ _ _ _ H).
  - intros [t [Hget Hfailed]]. exists tt, b.
    unfold handle_partial_failure, handle_partial_failure_with.
    rewrite (bind_returns _ _ _ _ _ (task_at_some _ _ _ Hget)).
    unfold bind, self. rewrite Hfailed. reflexivity.
Qed.

Lemma failed_dependencies_lists (ts : Dict.t TaskBoardEntry) (deps : list string)
  (d : string) (t : TaskBoardEntry) :
  In d deps -> Dict.get d ts = Some t ->
  status_in (status t) [ABANDONED; STALLED] = true ->
  failed_dependencies ts deps <> Some [].
Proof.
  induction deps as [|dep deps IH]; intros Hin Hget Hfailed; [destruct Hin|].
  cbn [failed_dependencies].
  destruct (Dict.get dep ts) as [dt|] eqn:Hdep; [|discriminate].
  destruct (failed_dependencies ts deps) as [rest|] eqn:Hrest; [|discriminate].
  destruct Hin as [-> | Hin].
  - rewrite Hget in Hdep. injection Hdep as <-. rewrite Hfailed. discriminate.
  - destruct (status_in (status dt) [ABANDONED; STALLED]); [discriminate|].
    intros H. injection H as ->. apply (IH Hin Hget Hfailed). reflexivity.
Qed.

Lemma for_each_recovery_stops (fuel : nat) (D : string) (b : TaskBoardManager)
  (Ds : list string) :
  In D Ds ->
  (forall r b', handle_partial_failure fuel D b <> Returns r b') ->
  forall r b', for_each Ds (handle_partial_failure fuel) b <> Returns r b'.
Proof.
  induction Ds as [|x Ds IH]; intros Hin Hstop r b' Hret; [destruct Hin|].
  cbn [for_each] in Hret. apply bind_returns_inv in Hret.
  destruct Hret as [u [b1 [Hx Hrest]]].
  destruct Hin as [-> | Hin]; [exact (Hstop u b1 Hx)|].
  destruct (handle_partial_failure_returned _ _ _ _ _ Hx) as [-> _].
  exact (IH Hin Hstop r b' Hrest).
Qed.

(** X6. A STALLED or ABANDONED task that another stored task depends on
    cannot be removed: [remove_task] raises from the recovery of the
    dependent, before anything is deleted, so the task is still stored. *)
Theorem failed_task_with_dependent_is_not_removed :
  forall fuel b task_id t D tD,
    Dict.get task_id (tasks b) = Some t ->
    status t = STALLED \/ status t = ABANDONED ->
    In D (blocked_by task_id (dependency_graph b)) ->
    Dict.get D (tasks b) = Some tD ->
    In task_id (dependencies tD) ->
    exists e b',
      remove_task (S (S fuel)) task_id b = Raises e b'
      /\ Dict.mem task_id (tasks b') = true.
Proof.
  intros fuel b task_id t D tD Hget Hfailed HD HgetD Hdep.
  assert (Hstop : forall r b', handle_partial_failure (S (S fuel)) D b <> Returns r b').
  { intros r b' Hret.
    destruct (handle_partial_failure_returned _ _ _ _ _ Hret) as [_ [tD' [HgetD' Hnone]]].
    rewrite HgetD in HgetD'. injection HgetD' as <-.
    apply (failed_dependencies_lists (tasks b) (dependencies tD) task_id t Hdep Hget);
      [|exact Hnone].
    destruct Hfailed as [-> | ->]; reflexivity. }
  pose proof (run_total fuel (OpRemoveTask task_id) ltac:(discriminate) b) as Htotal.
  cbn [run] in Htotal.
  assert (Hblocked : get_blocked_tasks task_id b
                     = Returns (blocked_by task_id (dependency_graph b)) b).
  { unfold get_blocked_tasks, bind, self. rewrite (mem_get_some _ _ _ Hget). reflexivity. }
  pose proof (for_each_recovery_stops (S (S fuel)) D b _ HD Hstop) as Hloop.
  pose proof (kept_for_each _ store_evolves_preorder
                (blocked_by task_id (dependency_graph b))
                (handle_partial_failure (S (S fuel)))
                (fun x => evolves_handle_partial_failure_with _
                            (evolves_update_task_status (S (S fuel))) x) b) as Hkept.
  assert (Hprefix :
    remove_task (S (S fuel)) task_id b
    = match for_each (blocked_by task_id (dependency_graph b))
              (handle_partial_failure (S (S fuel))) b with
      | Returns _ b1 => remove_task (S (S fuel)) task_id b
      | Raises e b1 => Raises e b1
      | Diverges => Diverges
      end).
  { destruct (for_each _ _ b) as [r b1 | e b1 |] eqn:Hfe; [reflexivity | |];
      unfold remove_task; unfold bind at 1, self at 1;
      rewrite (mem_get_some _ _ _ Hget); cbn [negb];
      rewrite (bind_returns _ _ _ _ _ Hblocked);
      unfold bind at 1; rewrite Hfe; reflexivity. }
  destruct (for_each _ _ b) as [r b1 | e b1 |].
  - exfalso. exact (Hloop r b1 eq_refl).
  - exists e, b1. split; [exact Hprefix|].
    destruct (Hkept task_id t Hget) as [t' [Hget' _]].
    exact (mem_get_some _ _ _ Hget').
  - exfalso. exact (Htotal Hprefix).
Qed.

Lemma failed_task_with_dependent_is_not_removed_witness :
  exists e b',
    remove_task 2 "A" chain_board = Raises e b'
    /\ Dict.mem "A" (tasks b') = true.
Proof.
  apply (failed_task_with_dependent_is_not_removed 0 chain_board "A"
           (new_entry "A" [] STALLED 5 10) "B" (new_entry "B" ["A"] WAITING 5 10)).
  - reflexivity.
  - left. reflexivity.
  - cbn. left. reflexivity.
  - reflexivity.
  - left. reflexivity.
Defined.

(** X7. Escalating a stored task that is not IN_PROGRESS emits
    TASK_ESCALATED and then raises [InvalidTransitionError]: the transition
    to STALLED is refused, and nothing but the event stream has changed. *)
Theorem escalate_task_outside_work_raises :
  forall fuel b task_id t reason,
    Dict.get task_id (tasks b) = Some t ->
    status t <> IN_PROGRESS ->
    escalate_task (S fuel) task_id reason b
    = Raises InvalidTransitionError
        (log_event {| event_type := "TASK_ESCALATED"; task_id := task_id;
                      data := DataEscalated reason (verification_feedback t)
                                (escalation_agent b) |} b).
Proof.
  intros fuel b task_id t reason Hget Hstatus.
  unfold escalate_task, escalate_task_with.
  rewrite (bind_returns _ _ _ _ _ (task_at_some _ _ _ Hget)).
  unfold bind at 1, self at 1. unfold bind at 1, emit_task_event at 1, mutate at 1.
  apply (stall_only_from_in_progress fuel _ task_id t); [exact Hget | exact Hstatus].
Qed.

Lemma escalate_task_outside_work_raises_witness :
  escalate_task 1 "T" "Conflicting feedback" (review_board 10)
  = Raises InvalidTransitionError
      (log_event {| event_type := "TASK_ESCALATED"; task_id := "T";
                    data := DataEscalated "Conflicting feedback" [] "delegator" |}
         (review_board 10)).
Proof.
  apply (escalate_task_outside_work_raises 0 (review_board 10) "T"
           (new_entry "T" [] PENDING_REVIEW 5 10)).
  - reflexivity.
  - discriminate.
Defined.

(** X8. [handle_iteration_limit_reached] never stalls a task and never
    changes the manager: for a task under review or in rework the transition
    to STALLED it asks for is refused with [InvalidTransitionError], for a
    task in any other status the call does nothing, and for an unknown id it
    raises [KeyError]. *)
Theorem handle_iteration_limit_reached_changes_nothing :
  forall fuel task_id b,
    handle_iteration_limit_reached (S fuel) task_id b
    = match Dict.get task_id (tasks b) with
      | None => Raises KeyError b
      | Some t =>
          if status_in (status t) [REWORK_NEEDED; PENDING_REVIEW]
          then Raises InvalidTransitionError b
          else Returns tt b
      end.
Proof.
  intros fuel task_id b. unfold handle_iteration_limit_reached.
  destruct (Dict.get task_id (tasks b)) as [t|] eqn:Hget.
  - rewrite (bind_returns _ _ _ _ _ (task_at_some _ _ _ Hget)).
    destruct (status t) eqn:Hs; cbn; try reflexivity;
      apply (stall_only_from_in_progress fuel b task_id t); try exact Hget;
      rewrite Hs; discriminate.
  - unfold bind. rewrite (task_at_unknown task_id b); [reflexivity|].
    unfold Dict.mem. rewrite Hget. reflexivity.
Qed.

Lemma increment_iteration_step :
  forall fuel b task_id t,
    Dict.get task_id (tasks b) = Some t ->
    let counted :=
      set_tasks (Dict.adjust task_id
                   (fun t => with_current_iterations (current_iterations t + 1) t)) b in
    increment_iteration (S fuel) task_id b
    = if (current_iterations t + 1 >=? max_iterations t)
         && status_in (status t) [REWORK_NEEDED; PENDING_REVIEW]
      then Raises InvalidTransitionError counted
      else Returns tt
             (log_event {| event_type := "ITERATION_INCREMENTED"; task_id := task_id;
                           data := DataIteration (current_iterations t + 1) |} counted).
Proof.
  intros fuel b task_id t Hget counted.
  unfold increment_iteration. unfold bind at 1, self at 1.
  rewrite (mem_get_some _ _ _ Hget). cbn [negb].
  unfold bind at 1, update_entry at 1, mutate at 1. fold counted.
  assert (Hget1 : Dict.get task_id (tasks counted)
                  = Some (with_current_iterations (current_iterations t + 1) t)).
  { exact (get_adjust_same task_id
             (fun t => with_current_iterations (current_iterations t + 1) t)
             (tasks b) t Hget). }
  rewrite (bind_returns _ _ _ _ _ (task_at_some _ _ _ Hget1)).
  cbn [current_iterations max_iterations with_current_iterations].
  destruct (current_iterations t + 1 >=? max_iterations t); cbn [andb].
  - unfold handle_iteration_limit_reached.
    unfold bind at 1. rewrite (bind_returns _ _ _ _ _ (task_at_some _ _ _ Hget1)).
    cbn [status with_current_iterations].
    destruct (status t) eqn:Hs; cbn [status_in existsb TaskStatus_eqb orb];
      try (unfold ret at 1;
           rewrite (bind_returns _ _ _ _ _ (task_at_some _ _ _ Hget1)); reflexivity);
      rewrite (stall_only_from_in_progress fuel counted task_id _ _ Hget1);
      try reflexivity; cbn [status with_current_iterations]; rewrite Hs; discriminate.
  - unfold bind at 1, ret at 1.
    rewrite (bind_returns _ _ _ _ _ (task_at_some _ _ _ Hget1)). reflexivity.
Qed.

(** X9. [increment_iteration] on a stored task always adds one to the
    counter.  When the counter reaches the cap and the task is under review
    or in rework, the call then raises [InvalidTransitionError] without
    emitting ITERATION_INCREMENTED and without changing the status; in every
    other case it emits the event and returns. *)
Theorem increment_iteration_counts_then_may_raise :
  forall fuel b task_id t,
    Dict.get task_id (tasks b) = Some t ->
    let counted :=
      set_tasks (Dict.adjust task_id
                   (fun t => with_current_iterations (current_iterations t + 1) t)) b in
    increment_iteration (S fuel) task_id b
    = if (current_iterations t + 1 >=? max_iterations t)
         && status_in (status t) [REWORK_NEEDED; PENDING_REVIEW]
      then Raises InvalidTransitionError counted
      else Returns tt
             (log_event {| event_type := "ITERATION_INCREMENTED"; task_id := task_id;
                           data := DataIteration (current_iterations t + 1) |} counted).
Proof.
  intros fuel b task_id t Hget. exact (increment_iteration_step fuel b task_id t Hget).
Qed.

Lemma increment_iteration_counts_then_may_raise_witness :
  increment_iteration 1 "T" (review_board 1)
  = Raises InvalidTransitionError
      (set_tasks (Dict.adjust "T"
                    (fun t => with_current_iterations (current_iterations t + 1) t))
         (review_board 1)).
Proof.
  apply (increment_iteration_counts_then_may_raise 0 (review_board 1) "T"
           (new_entry "T" [] PENDING_REVIEW 5 1)).
  reflexivity.
Defined.

Ltac step_task_at H := rewrite (bind_returns _ _ _ _ _ (task_at_some _ _ _ H)).
Ltac step_write := unfold bind at 1, update_entry at 1, mutate at 1.

Lemma rework_step :
  forall fuel b task_id t reason,
    Dict.get task_id (tasks b) = Some t ->
    status t = PENDING_REVIEW ->
    let reworked :=
      set_tasks (Dict.adjust task_id
                   (fun t => with_current_iterations (current_iterations t + 1) t))
        (set_tasks (Dict.adjust task_id (with_status REWORK_NEEDED)) b) in
    update_task_status (S (S fuel)) task_id REWORK_NEEDED reason b
    = if current_iterations t + 1 >=? max_iterations t
      then Raises InvalidTransitionError
             (log_event {| event_type := "TASK_ESCALATED"; task_id := task_id;
                           data := DataEscalated "Maximum iterations reached during rework"
                                     (verification_feedback t) (escalation_agent b) |}
                reworked)
      else Returns tt
             (log_event {| event_type := "STATUS_CHANGED"; task_id := task_id;
                           data := DataStatusChanged PENDING_REVIEW REWORK_NEEDED reason |}
                reworked).
Proof.
  intros fuel b task_id t reason Hget Hstatus reworked.
  remember (S fuel) as n eqn:Hn. cbn [update_task_status].
  step_task_at Hget. rewrite Hstatus. cbn [VALID_TRANSITIONS status_in existsb
    TaskStatus_eqb orb negb].
  step_write. set (b1 := set_tasks (Dict.adjust task_id (with_status REWORK_NEEDED)) b).
  assert (Hget1 : Dict.get task_id (tasks b1) = Some (with_status REWORK_NEEDED t)).
  { exact (get_adjust_same task_id (with_status REWORK_NEEDED) (tasks b) t Hget). }
  unfold bind at 1. unfold bind at 1, update_entry at 1, mutate at 1. fold reworked.
  assert (Hget2 : Dict.get task_id (tasks reworked)
                  = Some (with_current_iterations (current_iterations t + 1)
                            (with_status REWORK_NEEDED t))).
  { exact (get_adjust_same task_id
             (fun t => with_current_iterations (current_iterations t + 1) t)
             (tasks b1) _ Hget1). }
  step_task_at Hget2.
  cbn [current_iterations max_iterations with_current_iterations with_status].
  destruct (current_iterations t + 1 >=? max_iterations t).
  - unfold escalate_task_with. step_task_at Hget2.
    unfold bind at 1, self at 1. unfold bind at 1, emit_task_event at 1, mutate at 1.
    subst n.
    rewrite (stall_only_from_in_progress fuel (log_event _ reworked) task_id _ _ Hget2
               ltac:(discriminate)).
    reflexivity.
  - reflexivity.
Qed.

(** X10. Sending a task under review to REWORK_NEEDED writes the status and
    adds one to the iteration counter.  If the counter has then reached the
    cap, the call emits TASK_ESCALATED and raises [InvalidTransitionError]
    with the task left in REWORK_NEEDED and no STATUS_CHANGED event;
    otherwise it emits STATUS_CHANGED and returns. *)
Theorem rework_transition_counts_and_may_raise :
  forall fuel b task_id t reason,
    Dict.get task_id (tasks b) = Some t ->
    status t = PENDING_REVIEW ->
    exists b',
      update_task_status (S (S fuel)) task_id REWORK_NEEDED reason b
      = (if current_iterations t + 1 >=? max_iterations t
         then Raises InvalidTransitionError b' else Returns tt b')
      /\ status_of task_id b' = Some REWORK_NEEDED
      /\ iterations_of task_id b' = Some (current_iterations t + 1)
      /\ event_stream b'
         = option_map
             (fun log =>
                log ++ [if current_iterations t + 1 >=? max_iterations t
                        then {| event_type := "TASK_ESCALATED"; task_id := task_id;
                                data := DataEscalated "Maximum iterations reached during rework"
                                          (verification_feedback t) (escalation_agent b) |}
                        else {| event_type := "STATUS_CHANGED"; task_id := task_id;
                                data := DataStatusChanged PENDING_REVIEW REWORK_NEEDED
                                          reason |}])
             (event_stream b).
Proof.
  intros fuel b task_id t reason Hget Hstatus.
  pose proof (rework_step fuel b task_id t reason Hget Hstatus) as Hstep.
  cbv zeta in Hstep. rewrite Hstep.
  assert (Hstored : forall ev,
    Dict.get task_id
      (tasks (log_event ev
         (set_tasks (Dict.adjust task_id
                       (fun t => with_current_iterations (current_iterations t + 1) t))
            (set_tasks (Dict.adjust task_id (with_status REWORK_NEEDED)) b))))
    = Some (with_current_iterations (current_iterations t + 1)
              (with_status REWORK_NEEDED t))).
  { intros ev.
    exact (get_adjust_same task_id
             (fun t => with_current_iterations (current_iterations t + 1) t)
             _ (with_status REWORK_NEEDED t)
             (get_adjust_same task_id (with_status REWORK_NEEDED) (tasks b) t Hget)). }
  destruct (current_iterations t + 1 >=? max_iterations t);
    eexists; (split; [reflexivity|]);
    unfold status_of, iterations_of; rewrite Hstored;
    (split; [reflexivity|]); (split; [reflexivity|]);
    cbn [event_stream log_event set_event_stream set_tasks];
    destruct (event_stream b); reflexivity.
Qed.

Lemma rework_transition_counts_and_may_raise_witness :
  exists b',
    update_task_status 2 "T" REWORK_NEEDED "redo" (review_board 1)
    = Raises InvalidTransitionError b'
    /\ status_of "T" b' = Some REWORK_NEEDED
    /\ iterations_of "T" b' = Some 1
    /\ event_stream b'
       = Some [{| event_type := "TASK_ESCALATED"; task_id := "T";
                  data := DataEscalated "Maximum iterations reached during rework"
                            [] "delegator" |}].
Proof.
  apply (rework_transition_counts_and_may_raise 0 (review_board 1) "T"
           (new_entry "T" [] PENDING_REVIEW 5 1) "redo"); reflexivity.
Defined.

(** X11. A failed verification never stalls the task, whatever the cap: on
    a task under review with counter [c] and cap [m],
    [handle_verification_result] with [passed = False] records the feedback
    and then
    - if [c + 1 >= m], raises [InvalidTransitionError] with the task still
      under review and the counter at [c + 1];
    - otherwise moves the task to REWORK_NEEDED with the counter at [c + 2]
      (one from [increment_iteration], one from the transition), and returns
      only if [c + 2 < m]. *)
Theorem failed_verification_counts_twice_and_never_stalls :
  forall fuel b task_id t feedback,
    Dict.get task_id (tasks b) = Some t ->
    status t = PENDING_REVIEW ->
    exists b' t',
      handle_verification_result (S (S fuel)) task_id false feedback b
      = (if current_iterations t + 2 <? max_iterations t
         then Returns tt b' else Raises InvalidTransitionError b')
      /\ Dict.get task_id (tasks b') = Some t'
      /\ status t'
         = (if current_iterations t + 1 <? max_iterations t
            then REWORK_NEEDED else PENDING_REVIEW)
      /\ current_iterations t'
         = (if current_iterations t + 1 <? max_iterations t
            then current_iterations t + 2 else current_iterations t + 1)
      /\ verification_feedback t'
         = verification_feedback t
           ++ [[("timestamp", PyDatetime); ("passed", PyBool false);
                ("feedback", PyDict feedback)]].
Proof.
  intros fuel b task_id t feedback Hget Hstatus.
  set (item := [("timestamp", PyDatetime); ("passed", PyBool false);
                ("feedback", PyDict feedback)]).
  set (noted := fun t => with_verification_feedback (verification_feedback t ++ [item]) t).
  unfold handle_verification_result. unfold bind at 1, self at 1.
  rewrite (mem_get_some _ _ _ Hget). cbn [negb].
  step_task_at Hget. rewrite Hstatus. cbn [TaskStatus_eqb negb].
  step_write. fold item. fold noted.
  set (b1 := set_tasks (Dict.adjust task_id noted) b).
  assert (Hget1 : Dict.get task_id (tasks b1) = Some (noted t)).
  { exact (get_adjust_same task_id noted (tasks b) t Hget). }
  unfold bind at 1.
  rewrite (increment_iteration_step (S fuel) b1 task_id (noted t) Hget1).
  cbn [noted current_iterations max_iterations status with_verification_feedback].
  rewrite Hstatus. cbn [status_in existsb TaskStatus_eqb orb]. rewrite andb_true_r.
  set (counted := fun t => with_current_iterations (current_iterations t + 1) t).
  set (b2 := set_tasks (Dict.adjust task_id counted) b1).
  assert (Hget2 : Dict.get task_id (tasks b2) = Some (counted (noted t))).
  { exact (get_adjust_same task_id counted (tasks b1) _ Hget1). }
  destruct (current_iterations t + 1 >=? max_iterations t) eqn:Hcap.
  - assert (H1 : (current_iterations t + 1 <? max_iterations t) = false) by lia.
    assert (H2 : (current_iterations t + 2 <? max_iterations t) = false) by lia.
    rewrite H1, H2. exists b2, (counted (noted t)).
    repeat split; try reflexivity; [exact Hget2 | exact Hstatus].
  - assert (H1 : (current_iterations t + 1 <? max_iterations t) = true) by lia.
    rewrite H1. set (b3 := log_event _ b2).
    assert (Hget3 : Dict.get task_id (tasks b3) = Some (counted (noted t))) by exact Hget2.
    step_task_at Hget3.
    cbn [counted noted current_iterations max_iterations with_current_iterations
         with_verification_feedback].
    rewrite H1.
    rewrite (rework_step fuel b3 task_id (counted (noted t)) _ Hget3 Hstatus).
    cbn [counted noted current_iterations max_iterations with_current_iterations
         with_verification_feedback].
    assert (Hget5 : forall ev,
      Dict.get task_id
        (tasks (log_event ev
           (set_tasks (Dict.adjust task_id
                         (fun t => with_current_iterations (current_iterations t + 1) t))
              (set_tasks (Dict.adjust task_id (with_status REWORK_NEEDED)) b3))))
      = Some (with_current_iterations (current_iterations t + 1 + 1)
                (with_status REWORK_NEEDED (counted (noted t))))).
    { intros ev.
      exact (get_adjust_same task_id
               (fun t => with_current_iterations (current_iterations t + 1) t)
               _ (with_status REWORK_NEEDED (counted (noted t)))
               (get_adjust_same task_id (with_status REWORK_NEEDED) (tasks b3) _ Hget3)). }
    destruct (current_iterations t + 1 + 1 >=? max_iterations t) eqn:Hcap2.
    + assert (H2 : (current_iterations t + 2 <? max_iterations t) = false) by lia.
      rewrite H2. eexists. eexists. split; [reflexivity|].
      split; [apply Hget5|]. cbn. repeat split; lia.
    + assert (H2 : (current_iterations t + 2 <? max_iterations t) = true) by lia.
      rewrite H2. eexists. eexists. split; [reflexivity|].
      split; [apply Hget5|]. cbn. repeat split; lia.
Qed.

Lemma failed_verification_counts_twice_and_never_stalls_witness :
  exists b' t',
    handle_verification_result 2 "T" false [] (review_board 5)
    = Returns tt b'
    /\ Dict.get "T" (tasks b') = Some t'
    /\ status t' = REWORK_NEEDED
    /\ current_iterations t' = 2
    /\ verification_feedback t'
       = [[("timestamp", PyDatetime); ("passed", PyBool false); ("feedback", PyDict [])]].
Proof.
  apply (failed_verification_counts_twice_and_never_stalls 0 (review_board 5) "T"
           (new_entry "T" [] PENDING_REVIEW 5 5) []); reflexivity.
Defined.

(** X12. [request_verification] on a stored task returns only when the task
    is IN_PROGRESS; it then moves the task to PENDING_REVIEW and emits
    STATUS_CHANGED and VERIFICATION_REQUESTED.  On a task in REWORK_NEEDED it
    first clears the recorded verification feedback and then raises
    [InvalidTransitionError], the feedback staying cleared; in every other
    status it raises and changes nothing. *)
Theorem request_verification_by_status :
  forall fuel b task_id t,
    Dict.get task_id (tasks b) = Some t ->
    request_verification (S fuel) task_id b
    = match status t with
      | IN_PROGRESS =>
          Returns tt
            (log_event {| event_type := "VERIFICATION_REQUESTED"; task_id := task_id;
                          data := DataVerificationRequested (history t) (output t)
                                    (current_iterations t) |}
               (log_event {| event_type := "STATUS_CHANGED"; task_id := task_id;
                             data := DataStatusChanged IN_PROGRESS PENDING_REVIEW
                                       "Verification requested" |}
                  (set_tasks (Dict.adjust task_id (with_status PENDING_REVIEW)) b)))
      | REWORK_NEEDED =>
          Raises InvalidTransitionError
            (set_tasks (Dict.adjust task_id (with_verification_feedback [])) b)
      | _ => Raises InvalidTransitionError b
      end.
Proof.
  intros fuel b task_id t Hget.
  unfold request_verification. unfold bind at 1, self at 1.
  rewrite (mem_get_some _ _ _ Hget). cbn [negb].
  step_task_at Hget.
  destruct (status t) eqn:Hs; cbn [TaskStatus_eqb];
    try (unfold bind at 1, ret at 1; unfold bind at 1;
         rewrite (update_task_status_illegal fuel b task_id t PENDING_REVIEW _ Hget);
         [reflexivity | rewrite Hs; reflexivity]).
  - unfold bind at 1, ret at 1. unfold bind at 1.
    rewrite (update_task_status_plain fuel b task_id t PENDING_REVIEW _ Hget);
      [| rewrite Hs; reflexivity | right; reflexivity].
    rewrite Hs.
    set (b1 := log_event _ (set_tasks (Dict.adjust task_id (with_status PENDING_REVIEW)) b)).
    assert (Hget1 : Dict.get task_id (tasks b1) = Some (with_status PENDING_REVIEW t))
      by exact (get_adjust_same task_id (with_status PENDING_REVIEW) (tasks b) t Hget).
    step_task_at Hget1. reflexivity.
  - step_write.
    set (b1 := set_tasks (Dict.adjust task_id (with_verification_feedback [])) b).
    assert (Hget1 : Dict.get task_id (tasks b1) = Some (with_verification_feedback [] t))
      by exact (get_adjust_same task_id (with_verification_feedback []) (tasks b) t Hget).
    unfold bind at 1.
    rewrite (update_task_status_illegal fuel b1 task_id _ PENDING_REVIEW _ Hget1);
      [reflexivity | cbn [status with_verification_feedback]; rewrite Hs; reflexivity].
Qed.

Lemma request_verification_by_status_witness :
  request_verification 1 "T" (board_of [new_entry "T" [] REWORK_NEEDED 5 10])
  = Raises InvalidTransitionError
      (set_tasks (Dict.adjust "T" (with_verification_feedback []))
         (board_of [new_entry "T" [] REWORK_NEEDED 5 10])).
Proof.
  apply (request_verification_by_status 0 (board_of [new_entry "T" [] REWORK_NEEDED 5 10])
           "T" (new_entry "T" [] REWORK_NEEDED 5 10)).
  reflexivity.
Defined.

(** ** What a status change leaves alone *)

Lemma entry_spared_refl (t : TaskBoardEntry) : entry_spared t t.
Proof. repeat split. Qed.

Lemma entry_spared_trans (t1 t2 t3 : TaskBoardEntry) :
  entry_spared t1 t2 -> entry_spared t2 t3 -> entry_spared t1 t3.
Proof. unfold entry_spared. intuition congruence. Qed.

Lemma spared_preorder : Preorder spared.
Proof.
  pose proof (entries_related_preorder entry_spared entry_spared_refl entry_spared_trans)
    as [Hrefl Htrans].
  split.
  - intros b. repeat split. apply Hrefl.
  - intros b1 b2 b3 (H12 & Hg12 & Hq12) (H23 & Hg23 & Hq23). repeat split.
    + eapply Htrans; eassumption.
    + congruence.
    + congruence.
Qed.

Lemma spared_update_entry (task_id : string) (f : TaskBoardEntry -> TaskBoardEntry) :
  (forall t, entry_spared t (f t)) -> keeps spared (update_entry task_id f).
Proof.
  intros Hf b. repeat split.
  apply (kept_update_entry entry_spared task_id f entry_spared_refl Hf b).
Qed.

Lemma spared_emit (task_id ty : string) (d : EventData) :
  keeps spared (emit_task_event task_id ty d).
Proof.
  intros b. repeat split. intros k t Hget. exists t. split; [exact Hget | repeat split].
Qed.

Ltac spared_step :=
  first
    [ kept_step spared_preorder
    | apply spared_emit
    | apply spared_update_entry; intros ?; repeat split ].

Section SparedWithCallback.

Variable update : string -> TaskStatus -> string -> M unit.
Hypothesis spared_update : forall task_id s reason, keeps spared (update task_id s reason).

Lemma spared_handle_partial_failure_with (task_id : string) :
  keeps spared (handle_partial_failure_with update task_id).
Proof. unfold handle_partial_failure_with. repeat spared_step; apply spared_update. Qed.

Lemma spared_escalate_task_with (task_id reason : string) :
  keeps spared (escalate_task_with update task_id reason).
Proof. unfold escalate_task_with. repeat spared_step; apply spared_update. Qed.

Lemma spared_propagate_result (task_id dep_task_id : string) :
  keeps spared (propagate_result update task_id dep_task_id).
Proof. unfold propagate_result. repeat spared_step; apply spared_update. Qed.

End SparedWithCallback.

Lemma spared_update_task_status (fuel : nat) :
  forall task_id new_status reason,
    keeps spared (update_task_status fuel task_id new_status reason).
Proof.
  induction fuel as [|fuel IH]; intros task_id new_status reason.
  - apply kept_diverge.
  - cbn [update_task_status]. unfold propagate_status.
    repeat spared_step;
      first [ apply spared_propagate_result; exact IH
            | apply spared_handle_partial_failure_with; exact IH
            | apply spared_escalate_task_with; exact IH ].
Qed.

(** X13. A status change, with everything it sets off (propagation to the
    dependents, recovery, escalation), writes only statuses, outputs,
    iteration counters and the event stream: in the state that
    [update_task_status] returns or raises with, the dependency graph and the
    priority queue are as they were, and every stored entry is still stored
    with its dependencies, priority and verification feedback unchanged.  In
    particular a task that completes or is abandoned stays in the queue. *)
Theorem update_task_status_spares_graph_queue_and_feedback :
  forall fuel task_id new_status reason b,
    match update_task_status fuel task_id new_status reason b with
    | Returns _ b' | Raises _ b' =>
        dependency_graph b' = dependency_graph b
        /\ priority_queue b' = priority_queue b
        /\ forall k t,
             Dict.get k (tasks b) = Some t ->
             exists t',
               Dict.get k (tasks b') = Some t'
               /\ dependencies t' = dependencies t
               /\ priority t' = priority t
               /\ verification_feedback t' = verification_feedback t
    | Diverges => True
    end.
Proof.
  intros fuel task_id new_status reason b.
  pose proof (spared_update_task_status fuel task_id new_status reason b) as H.
  destruct (update_task_status fuel task_id new_status reason b) as [r b' | e b' |];
    [| |exact I]; destruct H as (He & Hg & Hq); (split; [exact Hg|]);
    (split; [exact Hq|]); intros k t Hget; destruct (He k t Hget) as [t' [Hget' Ht']];
    exists t'; (split; [exact Hget' | exact Ht']).
Qed.

(** X14. [handle_feedback] on a stored task records exactly one feedback
    item, whatever it decides afterwards and whether it returns or raises:
    the item is the given feedback with its [source] and [timestamp] keys
    set, appended to the task's verification feedback, and the feedback of
    every other task is unchanged.  (The feedback dict is a value here: a
    caller that passes one dict object twice is outside the embedding.) *)
Theorem handle_feedback_records_one_item :
  forall fuel b task_id t feedback source,
    Dict.get task_id (tasks b) = Some t ->
    match handle_feedback fuel task_id feedback source b with
    | Returns _ b' | Raises _ b' =>
        (exists t',
            Dict.get task_id (tasks b') = Some t'
            /\ verification_feedback t'
               = verification_feedback t
                 ++ [Dict.set "timestamp" PyDatetime
                       (Dict.set "source" (PyStr source) feedback)])
        /\ forall k u,
             k <> task_id -> Dict.get k (tasks b) = Some u ->
             exists u',
               Dict.get k (tasks b') = Some u'
               /\ verification_feedback u' = verification_feedback u
    | Diverges => True
    end.
Proof.
  intros fuel b task_id t feedback source Hget.
  set (item := Dict.set "timestamp" PyDatetime (Dict.set "source" (PyStr source) feedback)).
  set (noted := fun t => with_verification_feedback (verification_feedback t ++ [item]) t).
  unfold handle_feedback. unfold bind at 1, self at 1.
  rewrite (mem_get_some _ _ _ Hget). cbn [negb].
  step_write. fold item. fold noted.
  set (b1 := set_tasks (Dict.adjust task_id noted) b).
  assert (Hget1 : Dict.get task_id (tasks b1) = Some (noted t)).
  { exact (get_adjust_same task_id noted (tasks b) t Hget). }
  assert (Hothers : forall k u, k <> task_id -> Dict.get k (tasks b) = Some u ->
                                Dict.get k (tasks b1) = Some u).
  { intros k u Hk Hu. unfold b1. cbn [tasks set_tasks]. rewrite get_adjust.
    apply String.eqb_neq in Hk. rewrite Hk. exact Hu. }
  match goal with
  | |- match ?m b1 with _ => _ end =>
      assert (Hrest : keeps spared m)
  end.
  { unfold escalate_task.
    repeat spared_step;
      first [ apply spared_update_task_status
            | apply spared_escalate_task_with; apply spared_update_task_status ]. }
  specialize (Hrest b1). cbv beta in Hrest.
  match goal with
  | |- match ?o with _ => _ end => destruct o as [r b' | e b' |]
  end; [| |exact I]; destruct Hrest as (He & _ & _); split.
  1,3: destruct (He task_id _ Hget1) as [t' [Hget' (_ & _ & Hfb)]];
       exists t'; split; [exact Hget' | exact Hfb].
  all: intros k u Hk Hu;
       destruct (He k u (Hothers k u Hk Hu)) as [u' [Hget' (_ & _ & Hfb)]];
       exists u'; split; [exact Hget' | exact Hfb].
Qed.

Lemma handle_feedback_records_one_item_witness :
  match handle_feedback 2 "T" [("verdict", PyStr "approve")] "verifier" (review_board 10) with
  | Returns _ b' | Raises _ b' =>
      (exists t',
          Dict.get "T" (tasks b') = Some t'
          /\ verification_feedback t'
             = [] ++ [Dict.set "timestamp" PyDatetime
                        (Dict.set "source" (PyStr "verifier")
                           [("verdict", PyStr "approve")])])
      /\ forall k u,
           k <> "T" -> Dict.get k (tasks (review_board 10)) = Some u ->
           exists u',
             Dict.get k (tasks b') = Some u'
             /\ verification_feedback u' = verification_feedback u
  | Diverges => True
  end.
Proof.
  apply (handle_feedback_records_one_item 2 (review_board 10) "T"
           (new_entry "T" [] PENDING_REVIEW 5 10)).
  reflexivity.
Defined.

(** ** The scheduler *)

Lemma check_dependencies_returned (task_id : string) (b b' : TaskBoardManager) (r : bool) :
  check_dependencies task_id b = Returns r b' ->
  b' = b /\ exists deps, Dict.get task_id (dependency_graph b) = Some deps
                         /\ all_complete (tasks b) deps = Some r.
Proof.
  unfold check_dependencies, bind, self.
  destruct (negb (Dict.mem task_id (tasks b))); [discriminate|].
  destruct (Dict.get task_id (dependency_graph b)) as [deps|]; [|discriminate].
  destruct (all_complete (tasks b) deps) as [r'|] eqn:Hall; [|discriminate].
  unfold ret. intros H. injection H as -> ->. split; [reflexivity|].
  exists deps. split; [reflexivity | exact Hall].
Qed.

(** X15. When [get_next_priority_task] returns a task id, that id was in
    the priority queue and named a stored task that was ready (IN_PROGRESS,
    or WAITING with all its dependencies COMPLETE); the task is IN_PROGRESS
    afterwards, and no other entry and no dependency set has changed. *)
Theorem get_next_priority_task_returns_a_ready_task :
  forall fuel b task_id b',
    get_next_priority_task fuel b = Returns (Some task_id) b' ->
    In task_id (map snd (priority_queue b))
    /\ ready b task_id
    /\ status_of task_id b' = Some IN_PROGRESS
    /\ (forall k, k <> task_id -> Dict.get k (tasks b') = Dict.get k (tasks b))
    /\ dependency_graph b' = dependency_graph b.
Proof.
  induction fuel as [|fuel IH]; intros b task_id b' Hret; [discriminate|].
  cbn [get_next_priority_task] in Hret. unfold bind at 1, self at 1 in Hret.
  destruct (heappop (priority_queue b)) as [[[p k] q']|] eqn:Hpop; [|discriminate].
  destruct (heappop_some _ _ _ Hpop) as (Hin & Hsub & _).
  assert (Hk : In k (map snd (priority_queue b))).
  { apply (in_map snd) in Hin. exact Hin. }
  unfold bind at 1, mutate at 1 in Hret.
  set (b1 := set_priority_queue (fun _ => q') b) in Hret.
  assert (Hback : forall b2,
    tasks b2 = tasks b -> dependency_graph b2 = dependency_graph b ->
    (forall y, In y (priority_queue b2) -> snd y = k \/ In y q') ->
    get_next_priority_task fuel b2 = Returns (Some task_id) b' ->
    In task_id (map snd (priority_queue b))
    /\ ready b task_id
    /\ status_of task_id b' = Some IN_PROGRESS
    /\ (forall k, k <> task_id -> Dict.get k (tasks b') = Dict.get k (tasks b))
    /\ dependency_graph b' = dependency_graph b).
  { intros b2 Ht Hg Hq H2.
    destruct (IH b2 task_id b' H2) as (Hin2 & Hready & Hst & Hothers & Hgraph).
    split; [|split; [|split; [exact Hst | split]]].
    - apply in_map_iff in Hin2. destruct Hin2 as [y [Hy Hiny]].
      destruct (Hq y Hiny) as [Hyk | Hyq].
      + rewrite <- Hy, Hyk. exact Hk.
      + rewrite <- Hy. apply in_map. apply Hsub. exact Hyq.
    - unfold ready in *. rewrite Ht, Hg in Hready. exact Hready.
    - intros k0 Hk0. rewrite (Hothers k0 Hk0), Ht. reflexivity.
    - rewrite Hgraph. exact Hg. }
  destruct (Dict.mem k (tasks b)) eqn:Hmem; cbn [negb] in Hret.
  2:{ apply (Hback b1); try reflexivity; [|exact Hret]. intros y Hy. right. exact Hy. }
  destruct (Dict.get k (tasks b)) as [t|] eqn:Hget;
    [|unfold Dict.mem in Hmem; rewrite Hget in Hmem; discriminate].
  assert (Hget1 : Dict.get k (tasks b1) = Some t) by exact Hget.
  rewrite (bind_returns _ _ _ _ _ (task_at_some _ _ _ Hget1)) in Hret.
  assert (Hagain :
    (task' <- task_at k ;;
     mutate (set_priority_queue (fun q => heappush q (priority task', k))) ;;
     get_next_priority_task fuel) b1 = Returns (Some task_id) b' ->
    In task_id (map snd (priority_queue b))
    /\ ready b task_id
    /\ status_of task_id b' = Some IN_PROGRESS
    /\ (forall k, k <> task_id -> Dict.get k (tasks b') = Dict.get k (tasks b))
    /\ dependency_graph b' = dependency_graph b).
  { rewrite (bind_returns _ _ _ _ _ (task_at_some _ _ _ Hget1)).
    unfold bind at 1, mutate at 1. apply Hback; try reflexivity.
    intros y Hy. cbn [priority_queue set_priority_queue b1] in Hy.
    apply heappush_In in Hy. destruct Hy as [-> | Hy]; [left; reflexivity | right; exact Hy]. }
  assert (Hhere : forall b2,
    Returns (Some k) b2 = Returns (Some task_id) b' ->
    ready b k -> status_of k b2 = Some IN_PROGRESS ->
    (forall k0, k0 <> k -> Dict.get k0 (tasks b2) = Dict.get k0 (tasks b)) ->
    dependency_graph b2 = dependency_graph b ->
    In task_id (map snd (priority_queue b))
    /\ ready b task_id
    /\ status_of task_id b' = Some IN_PROGRESS
    /\ (forall k, k <> task_id -> Dict.get k (tasks b') = Dict.get k (tasks b))
    /\ dependency_graph b' = dependency_graph b).
  { intros b2 Heq Hready Hst Hothers Hgraph. injection Heq as <- <-.
    repeat split; assumption. }
  destruct (status t) eqn:Hs; try exact (Hagain Hret).
  - destruct (check_dependencies k b1) as [r b2 | e b2 |] eqn:Hcheck;
      unfold bind at 1 in Hret; rewrite Hcheck in Hret; try discriminate.
    destruct (check_dependencies_returned _ _ _ _ Hcheck) as [-> [deps [Hdeps Hall]]].
    destruct r; [|exact (Hagain Hret)].
    destruct fuel as [|fuel]; [discriminate|].
    unfold bind at 1 in Hret.
    rewrite (update_task_status_plain fuel b1 k t IN_PROGRESS _ Hget1) in Hret;
      [| rewrite Hs; reflexivity | left; reflexivity].
    unfold ret in Hret. apply (Hhere _ Hret).
    + exists t. split; [exact Hget|]. right. split; [exact Hs|].
      exists deps. split; [exact Hdeps | exact Hall].
    + unfold status_of. cbn [tasks log_event set_event_stream set_tasks].
      rewrite (get_adjust_same k (with_status IN_PROGRESS) _ t Hget1). reflexivity.
    + intros k0 Hk0. cbn [tasks log_event set_event_stream set_tasks].
      rewrite get_adjust. apply String.eqb_neq in Hk0. rewrite Hk0. reflexivity.
    + reflexivity.
  - unfold ret in Hret. apply (Hhere _ Hret).
    + exists t. split; [exact Hget | left; exact Hs].
    + unfold status_of. rewrite Hget1. cbn. rewrite Hs. reflexivity.
    + reflexivity.
    + reflexivity.
Qed.

Lemma get_next_priority_task_returns_a_ready_task_witness :
  In "B" (map snd (priority_queue (board_of [new_entry "A" [] COMPLETE 5 10;
                                            new_entry "B" ["A"] WAITING 1 10])))
  /\ ready (board_of [new_entry "A" [] COMPLETE 5 10; new_entry "B" ["A"] WAITING 1 10]) "B"
  /\ status_of "B"
       (log_event {| event_type := "STATUS_CHANGED"; task_id := "B";
                     data := DataStatusChanged WAITING IN_PROGRESS "Dependencies satisfied" |}
          (set_tasks (Dict.adjust "B" (with_status IN_PROGRESS))
             (set_priority_queue (fun _ => [(5, "A")])
                (board_of [new_entry "A" [] COMPLETE 5 10;
                           new_entry "B" ["A"] WAITING 1 10]))))
     = Some IN_PROGRESS
  /\ (forall k, k <> "B" ->
        Dict.get k
          (tasks
             (log_event {| event_type := "STATUS_CHANGED"; task_id := "B";
                           data := DataStatusChanged WAITING IN_PROGRESS
                                     "Dependencies satisfied" |}
                (set_tasks (Dict.adjust "B" (with_status IN_PROGRESS))
                   (set_priority_queue (fun _ => [(5, "A")])
                      (board_of [new_entry "A" [] COMPLETE 5 10;
                                 new_entry "B" ["A"] WAITING 1 10])))))
        = Dict.get k (tasks (board_of [new_entry "A" [] COMPLETE 5 10;
                                       new_entry "B" ["A"] WAITING 1 10])))
  /\ dependency_graph
       (log_event {| event_type := "STATUS_CHANGED"; task_id := "B";
                     data := DataStatusChanged WAITING IN_PROGRESS "Dependencies satisfied" |}
          (set_tasks (Dict.adjust "B" (with_status IN_PROGRESS))
             (set_priority_queue (fun _ => [(5, "A")])
                (board_of [new_entry "A" [] COMPLETE 5 10;
                           new_entry "B" ["A"] WAITING 1 10]))))
     = dependency_graph (board_of [new_entry "A" [] COMPLETE 5 10;
                                   new_entry "B" ["A"] WAITING 1 10]).
Proof.
  apply (get_next_priority_task_returns_a_ready_task 3
           (board_of [new_entry "A" [] COMPLETE 5 10; new_entry "B" ["A"] WAITING 1 10])
           "B").
  reflexivity.
Defined.

(** X16. [get_next_priority_task] answers [None] only when no entry of the
    priority queue names a stored task, and it does answer [None] then, after
    at most one turn of its loop per queue entry; the queue is empty
    afterwards and the task store untouched.  A queue that holds a stored
    task never yields [None], however many tasks are COMPLETE. *)
Theorem get_next_priority_task_none_iff_queue_is_stale :
  forall fuel b,
    (forall b',
        get_next_priority_task fuel b = Returns None b' ->
        (forall e, In e (priority_queue b) -> Dict.mem (snd e) (tasks b) = false)
        /\ tasks b' = tasks b /\ priority_queue b' = [])
    /\ ((forall e, In e (priority_queue b) -> Dict.mem (snd e) (tasks b) = false) ->
        (length (priority_queue b) < fuel)%nat ->
        exists b', get_next_priority_task fuel b = Returns None b').
Proof.
  induction fuel as [|fuel IH]; intros b; (split; [intros b' Hret | intros Hstale Hfuel]).
  - discriminate.
  - inversion Hfuel.
  - cbn [get_next_priority_task] in Hret. unfold bind at 1, self at 1 in Hret.
    destruct (heappop (priority_queue b)) as [[[p k] q']|] eqn:Hpop.
    2:{ unfold ret in Hret. injection Hret as <-.
        rewrite (heappop_none _ Hpop). repeat split. intros e []. }
    destruct (heappop_some _ _ _ Hpop) as (Hin & Hsub & Hcases).
    unfold bind at 1, mutate at 1 in Hret.
    set (b1 := set_priority_queue (fun _ => q') b) in Hret.
    destruct (Dict.mem k (tasks b)) eqn:Hmem; cbn [negb] in Hret.
    + exfalso.
      destruct (Dict.get k (tasks b)) as [t|] eqn:Hget;
        [|unfold Dict.mem in Hmem; rewrite Hget in Hmem; discriminate].
      assert (Hget1 : Dict.get k (tasks b1) = Some t) by exact Hget.
      rewrite (bind_returns _ _ _ _ _ (task_at_some _ _ _ Hget1)) in Hret.
      assert (Hagain :
        (task' <- task_at k ;;
         mutate (set_priority_queue (fun q => heappush q (priority task', k))) ;;
         get_next_priority_task fuel) b1 = Returns None b' -> False).
      { rewrite (bind_returns _ _ _ _ _ (task_at_some _ _ _ Hget1)).
        unfold bind at 1, mutate at 1. intros H.
        destruct (IH (set_priority_queue (fun q => heappush q (priority t, k)) b1))
          as [Hnone _].
        destruct (Hnone b' H) as [Hstale _].
        assert (Hpushed : In (priority t, k)
                             (priority_queue
                                (set_priority_queue
                                   (fun q => heappush q (priority t, k)) b1))).
        { cbn [priority_queue set_priority_queue]. apply heappush_In. left. reflexivity. }
        specialize (Hstale (priority t, k) Hpushed).
        cbn [snd] in Hstale. change (Dict.mem k (tasks b) = false) in Hstale.
        congruence. }
      destruct (status t); try exact (Hagain Hret).
      * destruct (check_dependencies k b1) as [r b2 | e b2 |] eqn:Hcheck;
          unfold bind at 1 in Hret; rewrite Hcheck in Hret; try discriminate.
        destruct (check_dependencies_returned _ _ _ _ Hcheck) as [-> _].
        destruct r; [|exact (Hagain Hret)].
        apply bind_returns_inv in Hret. destruct Hret as [u [b3 [_ Hret]]].
        discriminate.
      * discriminate.
    + destruct (IH b1) as [Hnone _]. destruct (Hnone b' Hret) as (Hstale & Ht & Hq).
      split; [|split; [exact Ht | exact Hq]].
      intros e He. destruct (Hcases e He) as [-> | He']; [exact Hmem | exact (Hstale e He')].
  - cbn [get_next_priority_task]. unfold bind at 1, self at 1.
    destruct (heappop (priority_queue b)) as [[[p k] q']|] eqn:Hpop;
      [|exists b; reflexivity].
    destruct (heappop_some _ _ _ Hpop) as (Hin & Hsub & Hcases).
    unfold bind at 1, mutate at 1.
    pose proof (Hstale (p, k) Hin) as Hk. cbn [snd] in Hk. rewrite Hk. cbn [negb].
    destruct (IH (set_priority_queue (fun _ => q') b)) as [_ Hsome].
    apply Hsome.
    + intros e He. apply Hstale. apply Hsub. exact He.
    + cbn [priority_queue set_priority_queue].
      apply Nat.succ_lt_mono. rewrite (heappop_length _ _ _ Hpop). exact Hfuel.
Qed.

(** *** The queue stays in heap order *)

Lemma stays_in_heap_order_preorder : Preorder stays_in_heap_order.
Proof. split; unfold stays_in_heap_order; auto. Qed.

Lemma heap_same_queue (f : TaskBoardManager -> TaskBoardManager) :
  (forall b, priority_queue (f b) = priority_queue b) ->
  keeps stays_in_heap_order (mutate f).
Proof. intros Hf b. unfold mutate, stays_in_heap_order. rewrite Hf. auto. Qed.

Lemma heap_pushed (x : Z * string) :
  keeps stays_in_heap_order (mutate (set_priority_queue (fun q => heappush q x))).
Proof. intros b Hheap. cbn [priority_queue set_priority_queue]. apply heappush_heap. exact Hheap. Qed.

(** A queue that is replaced and then heapified is in heap order, whatever
    it is replaced with. *)
Lemma heap_rebuilt {A} (f : list (Z * string) -> list (Z * string)) (k : M A) :
  keeps stays_in_heap_order k ->
  keeps stays_in_heap_order
    (mutate (set_priority_queue f) ;; mutate (set_priority_queue heapify) ;; k).
Proof.
  intros Hk b. unfold bind at 1, mutate at 1. unfold bind at 1, mutate at 1.
  set (b2 := set_priority_queue heapify (set_priority_queue f b)).
  assert (Hheap2 : is_heap (priority_queue b2)) by apply heapify_heap.
  specialize (Hk b2). destruct (k b2) as [a b' | e b' |]; [| |exact I];
    intros _; exact (Hk Hheap2).
Qed.

Ltac heap_step :=
  first
    [ apply heap_rebuilt
    | kept_step stays_in_heap_order_preorder
    | apply heap_pushed
    | apply heap_same_queue; reflexivity ].

Section HeapWithCallback.

Variable update : string -> TaskStatus -> string -> M unit.
Hypothesis heap_update :
  forall task_id s reason, keeps stays_in_heap_order (update task_id s reason).

Lemma heap_handle_partial_failure_with (task_id : string) :
  keeps stays_in_heap_order (handle_partial_failure_with update task_id).
Proof. unfold handle_partial_failure_with. repeat heap_step; apply heap_update. Qed.

Lemma heap_escalate_task_with (task_id reason : string) :
  keeps stays_in_heap_order (escalate_task_with update task_id reason).
Proof. unfold escalate_task_with. repeat heap_step; apply heap_update. Qed.

Lemma heap_propagate_result (task_id dep_task_id : string) :
  keeps stays_in_heap_order (propagate_result update task_id dep_task_id).
Proof. unfold propagate_result. repeat heap_step; apply heap_update. Qed.

End HeapWithCallback.

Lemma heap_update_task_status (fuel : nat) :
  forall task_id new_status reason,
    keeps stays_in_heap_order (update_task_status fuel task_id new_status reason).
Proof.
  induction fuel as [|fuel IH]; intros task_id new_status reason.
  - apply kept_diverge.
  - cbn [update_task_status]. unfold propagate_status.
    repeat heap_step;
      first [ apply heap_propagate_result; exact IH
            | apply heap_handle_partial_failure_with; exact IH
            | apply heap_escalate_task_with; exact IH ].
Qed.

Lemma heap_get_next_priority_task (fuel : nat) :
  keeps stays_in_heap_order (get_next_priority_task fuel).
Proof.
  induction fuel as [|fuel IH]; [apply kept_diverge|].
  intros b. cbn [get_next_priority_task]. unfold bind at 1, self at 1.
  destruct (heappop (priority_queue b)) as [[[p k] q']|] eqn:Hpop;
    [|intros H; exact H].
  unfold bind at 1, mutate at 1.
  set (b1 := set_priority_queue (fun _ => q') b).
  assert (Hb1 : stays_in_heap_order b b1).
  { intros Hheap. exact (heappop_heap _ _ _ Hheap Hpop). }
  match goal with
  | |- match ?rest b1 with _ => _ end =>
      assert (Hrest : keeps stays_in_heap_order rest)
  end.
  { repeat heap_step; first [exact IH | apply heap_update_task_status]. }
  specialize (Hrest b1).
  match goal with
  | |- match ?o with _ => _ end => destruct o as [a b' | e b' |]
  end; [| |exact I];
    exact (pre_trans _ stays_in_heap_order_preorder _ _ _ Hb1 Hrest).
Qed.

Lemma heap_run (r : Reading) (fuel : nat) (op : Operation) :
  keeps stays_in_heap_order (run r fuel op).
Proof.
  destruct op; cbn [run];
    unfold add_task_with, remove_task, handle_status_transition,
      request_verification, handle_verification_result, increment_iteration,
      handle_iteration_limit_reached, update_priority, update_dependencies_with,
      handle_feedback, escalate_task, handle_partial_failure;
    repeat heap_step;
    first [ apply heap_update_task_status
          | apply heap_get_next_priority_task
          | apply heap_handle_partial_failure_with; intros; apply heap_update_task_status
          | apply heap_escalate_task_with; intros; apply heap_update_task_status ].
Qed.

(** The hypothesis of heap order holds of every manager that the operations
    of [Operation] reach from one whose queue is in heap order, the empty
    queue of [__init__] for one. *)
Lemma queue_stays_in_heap_order (r : Reading) (calls : list (nat * Operation)) :
  forall b,
    is_heap (priority_queue b) ->
    match run_all r calls b with
    | Some b' => is_heap (priority_queue b')
    | None => True
    end.
Proof.
  induction calls as [|[fuel op] calls IH]; intros b Hb; cbn [run_all].
  - exact Hb.
  - pose proof (heap_run r fuel op b) as Hstep.
    destruct (run r fuel op b) as [a b1 | e b1 |]; cbn [final_state];
      [| |exact I]; exact (IH b1 (Hstep Hb)).
Qed.

Lemma init_queue_in_heap_order : is_heap (priority_queue init).
Proof. intros i Hi. cbn in Hi. lia. Qed.

(** X17. The scheduler respects the order of the queue: when the queue is
    in heap order and its entries carry the priorities of the tasks they
    name, the task that [get_next_priority_task] returns has the least
    (priority, id) pair among the queue entries that name a stored task.  It
    is never a ready task further down the order. *)
Theorem get_next_priority_task_returns_the_least_entry :
  forall fuel b task_id b',
    is_heap (priority_queue b) ->
    queue_in_step b ->
    get_next_priority_task fuel b = Returns (Some task_id) b' ->
    exists p,
      In (p, task_id) (priority_queue b)
      /\ forall y, In y (priority_queue b) -> Dict.mem (snd y) (tasks b) = true ->
                   entry_leb (p, task_id) y = true.
Proof.
  induction fuel as [|fuel IH]; intros b task_id b' Hheap Hsync Hret; [discriminate|].
  cbn [get_next_priority_task] in Hret. unfold bind at 1, self at 1 in Hret.
  destruct (heappop (priority_queue b)) as [[[p k] q']|] eqn:Hpop; [|discriminate].
  destruct (heappop_some _ _ _ Hpop) as (Hin & Hsub & Hcases).
  pose proof (heappop_heap _ _ _ Hheap Hpop) as Hheap'.
  assert (Hleast : forall y, In y (priority_queue b) -> entry_leb (p, k) y = true).
  { intros y Hy. exact (heappop_least _ _ _ y Hheap Hpop Hy). }
  unfold bind at 1, mutate at 1 in Hret.
  set (b1 := set_priority_queue (fun _ => q') b) in Hret.
  assert (Hback : forall b2,
    tasks b2 = tasks b ->
    is_heap (priority_queue b2) ->
    (forall y, In y (priority_queue b2) -> In y (priority_queue b)) ->
    (forall y, In y (priority_queue b) -> Dict.mem (snd y) (tasks b) = true ->
               In y (priority_queue b2)) ->
    get_next_priority_task fuel b2 = Returns (Some task_id) b' ->
    exists p,
      In (p, task_id) (priority_queue b)
      /\ forall y, In y (priority_queue b) -> Dict.mem (snd y) (tasks b) = true ->
                   entry_leb (p, task_id) y = true).
  { intros b2 Ht Hheap2 Hsub2 Hsup2 H2.
    assert (Hsync2 : queue_in_step b2).
    { intros p0 k0 t0 Hin0 Hget0. rewrite Ht in Hget0.
      exact (Hsync p0 k0 t0 (Hsub2 _ Hin0) Hget0). }
    destruct (IH b2 task_id b' Hheap2 Hsync2 H2) as [p0 [Hin0 Hmin0]].
    exists p0. split; [exact (Hsub2 _ Hin0)|].
    intros y Hy Hstored. apply Hmin0; [exact (Hsup2 y Hy Hstored)|].
    rewrite Ht. exact Hstored. }
  destruct (Dict.mem k (tasks b)) eqn:Hmem; cbn [negb] in Hret.
  2:{ apply (Hback b1); [reflexivity | exact Hheap' | exact Hsub | | exact Hret].
      intros y Hy Hstored. destruct (Hcases y Hy) as [-> | Hy']; [|exact Hy'].
      cbn [snd] in Hstored. congruence. }
  destruct (Dict.get k (tasks b)) as [t|] eqn:Hget;
    [|unfold Dict.mem in Hmem; rewrite Hget in Hmem; discriminate].
  assert (Hget1 : Dict.get k (tasks b1) = Some t) by exact Hget.
  rewrite (bind_returns _ _ _ _ _ (task_at_some _ _ _ Hget1)) in Hret.
  assert (Hagain :
    (task' <- task_at k ;;
     mutate (set_priority_queue (fun q => heappush q (priority task', k))) ;;
     get_next_priority_task fuel) b1 = Returns (Some task_id) b' ->
    exists p,
      In (p, task_id) (priority_queue b)
      /\ forall y, In y (priority_queue b) -> Dict.mem (snd y) (tasks b) = true ->
                   entry_leb (p, task_id) y = true).
  { rewrite (bind_returns _ _ _ _ _ (task_at_some _ _ _ Hget1)).
    unfold bind at 1, mutate at 1. rewrite (Hsync p k t Hin Hget).
    apply Hback; cbn [priority_queue set_priority_queue b1].
    - reflexivity.
    - apply heappush_heap. exact Hheap'.
    - intros y Hy. apply heappush_In in Hy.
      destruct Hy as [-> | Hy]; [exact Hin | exact (Hsub y Hy)].
    - intros y Hy _. apply heappush_In.
      destruct (Hcases y Hy) as [-> | Hy']; [left | right]; auto. }
  assert (Hhere : forall b2,
    Returns (Some k) b2 = Returns (Some task_id) b' ->
    exists p,
      In (p, task_id) (priority_queue b)
      /\ forall y, In y (priority_queue b) -> Dict.mem (snd y) (tasks b) = true ->
                   entry_leb (p, task_id) y = true).
  { intros b2 Heq. injection Heq as <- _. exists p. split; [exact Hin|].
    intros y Hy _. exact (Hleast y Hy). }
  destruct (status t); try exact (Hagain Hret).
  - destruct (check_dependencies k b1) as [r b2 | e b2 |] eqn:Hcheck;
      unfold bind at 1 in Hret; rewrite Hcheck in Hret; try discriminate.
    destruct (check_dependencies_returned _ _ _ _ Hcheck) as [-> _].
    destruct r; [|exact (Hagain Hret)].
    apply bind_returns_inv in Hret. destruct Hret as [u [b3 [_ Hret]]].
    exact (Hhere _ Hret).
  - exact (Hhere _ Hret).
Qed.

Lemma get_next_priority_task_returns_the_least_entry_witness :
  exists p,
    In (p, "a") (priority_queue stale_head_board)
    /\ forall y,
         In y (priority_queue stale_head_board) ->
         Dict.mem (snd y) (tasks stale_head_board) = true ->
         entry_leb (p, "a") y = true.
Proof.
  apply (get_next_priority_task_returns_the_least_entry 2 stale_head_board "a"
           (set_priority_queue (fun _ => [(3, "b"); (4, "c")]) stale_head_board)).
  - intros i Hi. cbn in Hi.
    destruct i as [|[|[|[|i]]]]; [lia | reflexivity | reflexivity | reflexivity | lia].
  - intros p k t Hin Hget. cbn in Hin.
    destruct Hin as [H | [H | [H | [H | []]]]]; injection H as <- <-;
      cbn in Hget; [discriminate | | |]; injection Hget as <-; reflexivity.
  - reflexivity.
Defined.

(** ** Entries are stored under their own id *)

Lemma stays_well_keyed_preorder : Preorder stays_well_keyed.
Proof. split; unfold stays_well_keyed; auto. Qed.

Lemma keys_adjust {V} (k : string) (f : V -> V) (d : Dict.t V) :
  Dict.keys (Dict.adjust k f d) = Dict.keys d.
Proof.
  induction d as [|[k' v] d IH]; [reflexivity|].
  cbn [Dict.adjust]. destruct (k =? k')%string; cbn; [reflexivity|].
  unfold Dict.keys in IH. rewrite IH. reflexivity.
Qed.

Lemma In_adjust {V} (k k' : string) (f : V -> V) (v' : V) (d : Dict.t V) :
  In (k', v') (Dict.adjust k f d) -> exists v, In (k', v) d /\ (v' = v \/ v' = f v).
Proof.
  induction d as [|[k0 v0] d IH]; [intros []|].
  cbn [Dict.adjust]. destruct (k =? k0)%string.
  - intros [H | H].
    + injection H as <- <-. exists v0. split; [left; reflexivity | right; reflexivity].
    + exists v'. split; [right; exact H | left; reflexivity].
  - intros [H | H].
    + injection H as <- <-. exists v0. split; [left; reflexivity | left; reflexivity].
    + destruct (IH H) as [v [Hin Hv]]. exists v. split; [right; exact Hin | exact Hv].
Qed.

Lemma In_keys_set {V} (k x : string) (v : V) (d : Dict.t V) :
  In x (Dict.keys (Dict.set k v d)) -> x = k \/ In x (Dict.keys d).
Proof.
  unfold Dict.keys. intros H. apply in_map_iff in H. destruct H as [[k' v'] [<- Hin]].
  destruct (In_set _ _ _ _ _ Hin) as [[-> _] | H]; [left; reflexivity|].
  right. apply in_map_iff. exists (k', v'). split; [reflexivity | exact H].
Qed.

Lemma NoDup_keys_set {V} (k : string) (v : V) (d : Dict.t V) :
  NoDup (Dict.keys d) -> NoDup (Dict.keys (Dict.set k v d)).
Proof.
  induction d as [|[k0 v0] d IH]; intros Hnd.
  - cbn. constructor; [intros [] | constructor].
  - cbn [Dict.set]. destruct (String.eqb_spec k k0) as [-> | Hne]; [exact Hnd|].
    cbn in Hnd |- *. inversion Hnd as [|? ? Hnotin Hnd']. subst. constructor.
    + intros Hin. destruct (In_keys_set _ _ _ _ Hin) as [-> | Hin']; [congruence|].
      exact (Hnotin Hin').
    + exact (IH Hnd').
Qed.

Lemma NoDup_keys_pop {V} (k : string) (d : Dict.t V) :
  NoDup (Dict.keys d) -> NoDup (Dict.keys (Dict.pop k d)).
Proof.
  induction d as [|[k0 v0] d IH]; intros Hnd; [constructor|].
  cbn in Hnd. inversion Hnd as [|? ? Hnotin Hnd']. subst.
  unfold Dict.pop. cbn [filter fst]. destruct (negb (k =? k0)%string).
  - cbn. constructor; [|exact (IH Hnd')].
    intros Hin. apply Hnotin. unfold Dict.keys in Hin. apply in_map_iff in Hin.
    destruct Hin as [[k1 v1] [<- Hin]]. apply filter_In in Hin.
    apply in_map_iff. exists (k1, v1). split; [reflexivity | apply Hin].
  - exact (IH Hnd').
Qed.

Lemma keyed_update_entry (task_id : string) (f : TaskBoardEntry -> TaskBoardEntry) :
  (forall t, id (f t) = id t) -> keeps stays_well_keyed (update_entry task_id f).
Proof.
  intros Hf b [Hnd Hid]. unfold well_keyed. cbn [tasks set_tasks]. split.
  - rewrite keys_adjust. exact Hnd.
  - intros k t Hin. destruct (In_adjust _ _ _ _ _ Hin) as [t0 [Hin0 [-> | ->]]].
    + exact (Hid k t0 Hin0).
    + rewrite Hf. exact (Hid k t0 Hin0).
Qed.

Lemma keyed_same_tasks (f : TaskBoardManager -> TaskBoardManager) :
  (forall b, tasks (f b) = tasks b) -> keeps stays_well_keyed (mutate f).
Proof.
  intros Hf b. unfold mutate, stays_well_keyed, well_keyed. rewrite Hf. auto.
Qed.

Lemma keyed_store (task : TaskBoardEntry) :
  keeps stays_well_keyed (mutate (set_tasks (Dict.set (id task) task))).
Proof.
  intros b [Hnd Hid]. unfold well_keyed. cbn [tasks set_tasks]. split.
  - apply NoDup_keys_set. exact Hnd.
  - intros k t Hin. destruct (In_set _ _ _ _ _ Hin) as [[-> ->] | Hin']; [reflexivity|].
    exact (Hid k t Hin').
Qed.

Lemma keyed_pop (task_id : string) :
  keeps stays_well_keyed (mutate (set_tasks (Dict.pop task_id))).
Proof.
  intros b [Hnd Hid]. unfold well_keyed. cbn [tasks set_tasks]. split.
  - apply NoDup_keys_pop. exact Hnd.
  - intros k t Hin. apply In_pop in Hin. exact (Hid k t (proj1 Hin)).
Qed.

Ltac keyed_step :=
  first
    [ kept_step stays_well_keyed_preorder
    | apply keyed_update_entry; intros ?; reflexivity
    | apply keyed_store
    | apply keyed_pop
    | apply keyed_same_tasks; reflexivity ].

Section KeyedWithCallback.

Variable update : string -> TaskStatus -> string -> M unit.
Hypothesis keyed_update :
  forall task_id s reason, keeps stays_well_keyed (update task_id s reason).

Lemma keyed_handle_partial_failure_with (task_id : string) :
  keeps stays_well_keyed (handle_partial_failure_with update task_id).
Proof. unfold handle_partial_failure_with. repeat keyed_step; apply keyed_update. Qed.

Lemma keyed_escalate_task_with (task_id reason : string) :
  keeps stays_well_keyed (escalate_task_with update task_id reason).
Proof. unfold escalate_task_with. repeat keyed_step; apply keyed_update. Qed.

Lemma keyed_propagate_result (task_id dep_task_id : string) :
  keeps stays_well_keyed (propagate_result update task_id dep_task_id).
Proof. unfold propagate_result. repeat keyed_step; apply keyed_update. Qed.

End KeyedWithCallback.

Lemma keyed_update_task_status (fuel : nat) :
  forall task_id new_status reason,
    keeps stays_well_keyed (update_task_status fuel task_id new_status reason).
Proof.
  induction fuel as [|fuel IH]; intros task_id new_status reason.
  - apply kept_diverge.
  - cbn [update_task_status]. unfold propagate_status.
    repeat keyed_step;
      first [ apply keyed_propagate_result; exact IH
            | apply keyed_handle_partial_failure_with; exact IH
            | apply keyed_escalate_task_with; exact IH ].
Qed.

Lemma keyed_get_next_priority_task (fuel : nat) :
  keeps stays_well_keyed (get_next_priority_task fuel).
Proof.
  induction fuel as [|fuel IH]; [apply kept_diverge|].
  cbn [get_next_priority_task].
  repeat keyed_step; first [exact IH | apply keyed_update_task_status].
Qed.

Lemma keyed_run (r : Reading) (fuel : nat) (op : Operation) :
  keeps stays_well_keyed (run r fuel op).
Proof.
  destruct op; cbn [run];
    unfold add_task_with, remove_task, handle_status_transition,
      request_verification, handle_verification_result, increment_iteration,
      handle_iteration_limit_reached, update_priority, update_dependencies_with,
      handle_feedback, escalate_task, handle_partial_failure;
    repeat keyed_step;
    first [ apply keyed_update_task_status
          | apply keyed_get_next_priority_task
          | apply keyed_handle_partial_failure_with; intros; apply keyed_update_task_status
          | apply keyed_escalate_task_with; intros; apply keyed_update_task_status ].
Qed.

(** X18. Every entry is stored under its own id: a manager in which each
    key of the task store is the [id] of the entry it holds stays so under
    any sequence of calls of the operations of [Operation], whether the
    calls return or raise. *)
Theorem entries_stay_stored_under_their_id :
  forall r calls b,
    well_keyed b ->
    match run_all r calls b with
    | Some b' => well_keyed b'
    | None => True
    end.
Proof.
  intros r calls. induction calls as [|[fuel op] calls IH]; intros b Hb; cbn [run_all].
  - exact Hb.
  - pose proof (keyed_run r fuel op b) as Hstep.
    destruct (run r fuel op b) as [a b1 | e b1 |]; cbn [final_state];
      [| |exact I]; exact (IH b1 (Hstep Hb)).
Qed.

Lemma entries_stay_stored_under_their_id_witness :
  match run_all AwaitRestored
          [(3%nat, OpAddTask (new_entry "B" [] WAITING 3 10));
           (3%nat, OpUpdatePriority "A" 2);
           (3%nat, OpRemoveTask "A")]
          one_task_board
  with
  | Some b' => well_keyed b'
  | None => True
  end.
Proof.
  apply (entries_stay_stored_under_their_id AwaitRestored _ one_task_board).
  split.
  - cbn. constructor; [intros [] | constructor].
  - intros k t [H | []]. injection H as <- <-. reflexivity.
Defined.

Lemma In_get_NoDup {V} (k : string) (v : V) (d : Dict.t V) :
  NoDup (Dict.keys d) -> In (k, v) d -> Dict.get k d = Some v.
Proof.
  induction d as [|[k0 v0] d IH]; intros Hnd Hin; [destruct Hin|].
  cbn in Hnd. inversion Hnd as [|? ? Hnotin Hnd']. subst.
  cbn [Dict.get]. destruct Hin as [H | H].
  - injection H as -> ->. rewrite String.eqb_refl. reflexivity.
  - destruct (String.eqb_spec k k0) as [-> | Hne]; [|exact (IH Hnd' H)].
    exfalso. apply Hnotin. apply (in_map fst) in H. exact H.
Qed.

Lemma keyed_ids_are_keys (ts : Dict.t TaskBoardEntry) :
  (forall k t, In (k, t) ts -> id t = k) ->
  map (fun t => (priority t, id t)) (Dict.values ts)
  = map (fun kt => (priority (snd kt), fst kt)) ts.
Proof.
  intros Hid. unfold Dict.values. rewrite map_map. apply map_ext_in.
  intros [k t] Hin. cbn [fst snd]. rewrite (Hid k t Hin). reflexivity.
Qed.

(** X19. [update_priority] with a priority between 1 and 5 rebuilds the
    whole queue from the task store and puts it in heap order.  On a store
    whose entries sit under their own ids the call returns, the task has the
    new priority, and the queue then is the heap that [heapify] makes of one
    entry for each stored task, carrying that task's current priority: tasks
    that the scheduler had handed out, and tasks that are COMPLETE or
    ABANDONED, are queued again. *)
Theorem update_priority_rebuilds_the_queue :
  forall b task_id t new_priority,
    well_keyed b ->
    Dict.get task_id (tasks b) = Some t ->
    1 <= new_priority <= 5 ->
    exists b',
      update_priority task_id new_priority b = Returns tt b'
      /\ Dict.get task_id (tasks b') = Some (with_priority new_priority t)
      /\ (forall k, k <> task_id -> Dict.get k (tasks b') = Dict.get k (tasks b))
      /\ priority_queue b'
         = heapify (map (fun kt => (priority (snd kt), fst kt)) (tasks b'))
      /\ is_heap (priority_queue b')
      /\ Permutation (priority_queue b')
           (map (fun kt => (priority (snd kt), fst kt)) (tasks b'))
      /\ queue_in_step b'
      /\ (forall k, Dict.mem k (tasks b') = true <-> In k (map snd (priority_queue b'))).
Proof.
  intros b task_id t new_priority Hkeyed Hget Hrange.
  unfold update_priority. unfold bind at 1, self at 1.
  rewrite (mem_get_some _ _ _ Hget). cbn [negb].
  assert (Hok : (1 <=? new_priority) && (new_priority <=? 5) = true).
  { apply andb_true_iff. split; lia. }
  rewrite Hok. cbn [negb]. step_task_at Hget.
  step_write. unfold bind at 1, self at 1. unfold bind at 1, mutate at 1.
  unfold bind at 1, mutate at 1.
  unfold emit_task_event, mutate.
  set (b1 := set_tasks (Dict.adjust task_id (with_priority new_priority)) b).
  assert (Hkeyed1 : well_keyed b1).
  { exact (keyed_update_entry task_id (with_priority new_priority)
             (fun _ => eq_refl) b Hkeyed). }
  destruct Hkeyed1 as [Hnd1 Hid1].
  eexists. split; [reflexivity|]. unfold queue_in_step.
  cbn [tasks priority_queue log_event set_event_stream set_priority_queue].
  rewrite (keyed_ids_are_keys (tasks b1) Hid1).
  set (entries := map (fun kt => (priority (snd kt), fst kt)) (tasks b1)).
  pose proof (heapify_perm entries) as Hperm.
  split; [exact (get_adjust_same task_id (with_priority new_priority) (tasks b) t Hget)|].
  split.
  { intros k Hk. unfold b1. cbn [tasks set_tasks]. rewrite get_adjust.
    apply String.eqb_neq in Hk. rewrite Hk. reflexivity. }
  split; [reflexivity|].
  split; [apply heapify_heap|].
  split; [exact Hperm|].
  split.
  - intros p k t' Hin Hget'. apply (Permutation_in _ Hperm) in Hin.
    apply in_map_iff in Hin.
    destruct Hin as [[k0 t0] [Heq Hin]]. cbn [fst snd] in Heq. injection Heq as <- ->.
    rewrite (In_get_NoDup k t0 (tasks b1) Hnd1 Hin) in Hget'. injection Hget' as <-.
    reflexivity.
  - intros k.
    assert (Hids : In k (map snd (heapify entries)) <-> In k (Dict.keys (tasks b1))).
    { assert (Hkeys : map snd entries = Dict.keys (tasks b1)).
      { unfold entries. rewrite map_map. reflexivity. }
      rewrite <- Hkeys. split; apply Permutation_in; apply Permutation_map;
        [exact Hperm | exact (Permutation_sym Hperm)]. }
    rewrite Hids. split.
    + intros Hmem. destruct (Dict.get k (tasks b1)) as [t'|] eqn:Hget';
        [|unfold Dict.mem in Hmem; rewrite Hget' in Hmem; discriminate].
      exact (keys_get _ _ _ Hget').
    + apply mem_keys.
Qed.

Lemma update_priority_rebuilds_the_queue_witness :
  exists b',
    update_priority "a" 3 (set_priority_queue (fun _ => []) blocked_head_board)
    = Returns tt b'
    /\ Dict.get "a" (tasks b') = Some (with_priority 3 (new_entry "a" [] PENDING_REVIEW 1 10))
    /\ (forall k, k <> "a" ->
          Dict.get k (tasks b')
          = Dict.get k (tasks (set_priority_queue (fun _ => []) blocked_head_board)))
    /\ priority_queue b'
       = heapify (map (fun kt => (priority (snd kt), fst kt)) (tasks b'))
    /\ is_heap (priority_queue b')
    /\ Permutation (priority_queue b')
         (map (fun kt => (priority (snd kt), fst kt)) (tasks b'))
    /\ queue_in_step b'
    /\ (forall k, Dict.mem k (tasks b') = true <-> In k (map snd (priority_queue b'))).
Proof.
  apply (update_priority_rebuilds_the_queue
           (set_priority_queue (fun _ => []) blocked_head_board) "a"
           (new_entry "a" [] PENDING_REVIEW 1 10) 3).
  - split.
    + cbn. repeat constructor; cbn; intuition discriminate.
    + intros k t [H | [H | []]]; injection H as <- <-; reflexivity.
  - reflexivity.
  - lia.
Defined.

(** On that board the rebuilt queue lists "b" (priority 2) before "a"
    (priority 3), though the store holds "a" first. *)
Lemma update_priority_reorders_the_queue :
  exists b',
    update_priority "a" 3 (set_priority_queue (fun _ => []) blocked_head_board)
    = Returns tt b'
    /\ Dict.keys (tasks b') = ["a"; "b"]
    /\ priority_queue b' = [(2, "b"); (3, "a")].
Proof. eexists. split; [vm_compute; reflexivity | split; reflexivity]. Qed.

(** ** Removal *)

Lemma for_each_recovery_returned (fuel : nat) (Ds : list string) :
  forall b b' r,
    for_each Ds (handle_partial_failure fuel) b = Returns r b' ->
    b' = b
    /\ forall D, In D Ds ->
         exists tD, Dict.get D (tasks b) = Some tD
                    /\ failed_dependencies (tasks b) (dependencies tD) = Some [].
Proof.
  induction Ds as [|x Ds IH]; intros b b' r Hret; cbn [for_each] in Hret.
  - unfold ret in Hret. injection Hret as _ <-. split; [reflexivity | intros D []].
  - apply bind_returns_inv in Hret. destruct Hret as [u [b1 [Hx Hrest]]].
    destruct (handle_partial_failure_returned _ _ _ _ _ Hx) as [-> Hhealthy].
    destruct (IH b b' r Hrest) as [-> Hall]. split; [reflexivity|].
    intros D [<- | HD]; [exact Hhealthy | exact (Hall D HD)].
Qed.

(** X20. A call of [remove_task] that returns has deleted the task from
    the task store, from the keys of the dependency graph, from the priority
    queue, which it has put back in heap order, and from every dependency set
    of the graph, has emitted TASK_REMOVED, and has changed nothing else: the
    remaining entries, among them the [dependencies] lists that name the
    removed task, are as they were.  It returns only if no dependent of the
    task had an ABANDONED or STALLED dependency. *)
Theorem remove_task_returns_after_clean_deletion :
  forall fuel task_id b r b',
    remove_task fuel task_id b = Returns r b' ->
    exists t,
      Dict.get task_id (tasks b) = Some t
      /\ tasks b' = Dict.pop task_id (tasks b)
      /\ dependency_graph b'
         = Dict.map_values (filter (fun d => negb (d =? task_id)%string))
             (Dict.pop task_id (dependency_graph b))
      /\ priority_queue b'
         = heapify (filter (fun e => negb (snd e =? task_id)%string) (priority_queue b))
      /\ is_heap (priority_queue b')
      /\ (forall e, In e (priority_queue b') <->
                    In e (priority_queue b) /\ snd e <> task_id)
      /\ event_stream b'
         = event_stream (log_event {| event_type := "TASK_REMOVED"; task_id := task_id;
                                      data := DataTask t |} b)
      /\ forall D, In D (blocked_by task_id (dependency_graph b)) ->
           exists tD, Dict.get D (tasks b) = Some tD
                      /\ failed_dependencies (tasks b) (dependencies tD) = Some [].
Proof.
  intros fuel task_id b r b' Hret.
  unfold remove_task in Hret. unfold bind at 1, self at 1 in Hret.
  destruct (Dict.get task_id (tasks b)) as [t|] eqn:Hget.
  2:{ unfold Dict.mem in Hret. rewrite Hget in Hret. discriminate. }
  rewrite (mem_get_some _ _ _ Hget) in Hret. cbn [negb] in Hret.
  assert (Hblocked : get_blocked_tasks task_id b
                     = Returns (blocked_by task_id (dependency_graph b)) b).
  { unfold get_blocked_tasks, bind, self. rewrite (mem_get_some _ _ _ Hget). reflexivity. }
  rewrite (bind_returns _ _ _ _ _ Hblocked) in Hret.
  apply bind_returns_inv in Hret. destruct Hret as [u [b1 [Hloop Hret]]].
  destruct (for_each_recovery_returned _ _ _ _ _ Hloop) as [-> Hhealthy].
  rewrite (bind_returns _ _ _ _ _ (task_at_some _ _ _ Hget)) in Hret.
  unfold bind at 1, mutate at 1 in Hret. unfold bind at 1, self at 1 in Hret.
  destruct (negb (Dict.mem task_id (dependency_graph (set_tasks (Dict.pop task_id) b))));
    [discriminate|].
  unfold bind, mutate, emit_task_event in Hret. injection Hret as _ <-.
  cbn [tasks dependency_graph priority_queue event_stream log_event set_event_stream
       set_tasks set_dependency_graph set_priority_queue].
  exists t.
  split; [reflexivity|]. split; [reflexivity|]. split; [reflexivity|].
  split; [reflexivity|]. split; [apply heapify_heap|].
  split; [|split; [reflexivity | exact Hhealthy]].
  intros e.
  set (kept := filter (fun e => negb (snd e =? task_id)%string) (priority_queue b)).
  assert (Hsame : In e (heapify kept) <-> In e kept).
  { split; apply Permutation_in;
      [apply heapify_perm | apply Permutation_sym; apply heapify_perm]. }
  rewrite Hsame. unfold kept. rewrite filter_In.
  split; intros [He Hne]; (split; [exact He|]).
  - apply negb_true_iff in Hne. apply String.eqb_neq. exact Hne.
  - apply negb_true_iff. apply String.eqb_neq. exact Hne.
Qed.

Lemma remove_task_returns_after_clean_deletion_witness :
  exists t,
    Dict.get "a" (tasks four_task_board) = Some t
    /\ tasks four_task_board_without_a = Dict.pop "a" (tasks four_task_board)
    /\ dependency_graph four_task_board_without_a
       = Dict.map_values (filter (fun d => negb (d =? "a")%string))
           (Dict.pop "a" (dependency_graph four_task_board))
    /\ priority_queue four_task_board_without_a
       = heapify (filter (fun e => negb (snd e =? "a")%string)
                    (priority_queue four_task_board))
    /\ is_heap (priority_queue four_task_board_without_a)
    /\ (forall e, In e (priority_queue four_task_board_without_a) <->
                  In e (priority_queue four_task_board) /\ snd e <> "a")
    /\ event_stream four_task_board_without_a
       = event_stream (log_event {| event_type := "TASK_REMOVED"; task_id := "a";
                                    data := DataTask t |} four_task_board)
    /\ forall D, In D (blocked_by "a" (dependency_graph four_task_board)) ->
         exists tD, Dict.get D (tasks four_task_board) = Some tD
                    /\ failed_dependencies (tasks four_task_board) (dependencies tD)
                       = Some [].
Proof.
  apply (remove_task_returns_after_clean_deletion 1 "a" four_task_board tt
           four_task_board_without_a).
  reflexivity.
Defined.

(** ** The two tests on a coroutine object *)

Lemma pop_set_fresh {V} (k : string) (v : V) (d : Dict.t V) :
  Dict.mem k d = false -> Dict.pop k (Dict.set k v d) = d.
Proof.
  unfold Dict.mem, Dict.pop. induction d as [|[k0 v0] d IH]; intros Hfresh.
  - cbn. rewrite String.eqb_refl. reflexivity.
  - cbn [Dict.get] in Hfresh. cbn [Dict.set].
    destruct (k =? k0)%string eqn:Hk; [discriminate|].
    cbn [filter fst]. rewrite Hk. cbn [negb]. rewrite (IH Hfresh). reflexivity.
Qed.

Lemma set_dependency_graph_same (b : TaskBoardManager) (f : Dict.t (list string) -> Dict.t (list string)) :
  f (dependency_graph b) = dependency_graph b -> set_dependency_graph f b = b.
Proof. destruct b. unfold set_dependency_graph. cbn. intros ->. reflexivity. Qed.

Lemma add_task_as_written (fuel : nat) (task : TaskBoardEntry) (b : TaskBoardManager) :
  add_task fuel task b = Raises ValueError b
  \/ add_task fuel task b
     = Raises CircularDependencyError
         (set_dependency_graph
            (fun g => Dict.pop (id task) (Dict.set (id task) (py_set (dependencies task)) g))
            b).
Proof.
  destruct (Dict.mem (id task) (tasks b)) eqn:Hmem.
  - left. unfold add_task, add_task_with, bind, self. rewrite Hmem. reflexivity.
  - destruct (forallb (fun dep_id => Dict.mem dep_id (tasks b)) (dependencies task))
      eqn:Hdeps.
    + right. unfold add_task, add_task_with, bind, self. rewrite Hmem, Hdeps.
      destruct b. reflexivity.
    + left. unfold add_task, add_task_with, bind, self. rewrite Hmem, Hdeps.
      reflexivity.
Qed.

Lemma update_dependencies_as_written (fuel : nat) (task_id : string)
  (new_dependencies : list string) (b : TaskBoardManager) :
  exists e, update_dependencies fuel task_id new_dependencies b = Raises e b
            /\ (e = KeyError \/ e = ValueError \/ e = CircularDependencyError).
Proof.
  destruct (Dict.get task_id (tasks b)) as [t|] eqn:Hget.
  - destruct (forallb (fun dep_id => Dict.mem dep_id (tasks b)) (py_set new_dependencies))
      eqn:Hdeps;
      [exists CircularDependencyError | exists ValueError];
      (split; [|auto]);
      unfold update_dependencies, update_dependencies_with; unfold bind at 1, self at 1;
      rewrite (mem_get_some _ _ _ Hget); cbn [negb];
      rewrite (bind_returns _ _ _ _ _ (task_at_some _ _ _ Hget)), Hdeps; reflexivity.
  - exists KeyError. split; [|auto].
    unfold update_dependencies, update_dependencies_with, bind, self, Dict.mem.
    rewrite Hget. reflexivity.
Qed.

(** X21. As written, with both cycle tests applied to a coroutine object
    that was never awaited, neither [add_task] nor [update_dependencies] can
    succeed.  Every call of [add_task] raises ([ValueError] for a known id or
    an unknown dependency, [CircularDependencyError] otherwise) and leaves the
    task store, the priority queue and the event stream as they were; the
    dependency graph is as it was too, unless it already had the id as a
    key, which the call then deletes.  Every call of [update_dependencies]
    raises ([KeyError], [ValueError] or [CircularDependencyError]) and leaves
    the whole manager as it was. *)
Theorem as_written_add_task_and_update_dependencies_always_raise :
  forall fuel b,
    (forall task,
        exists e b',
          add_task fuel task b = Raises e b'
          /\ (e = ValueError \/ e = CircularDependencyError)
          /\ tasks b' = tasks b
          /\ priority_queue b' = priority_queue b
          /\ event_stream b' = event_stream b
          /\ (Dict.mem (id task) (dependency_graph b) = false -> b' = b))
    /\ (forall task_id new_dependencies,
          exists e,
            update_dependencies fuel task_id new_dependencies b = Raises e b
            /\ (e = KeyError \/ e = ValueError \/ e = CircularDependencyError)).
Proof.
  intros fuel b. split.
  - intros task. destruct (add_task_as_written fuel task b) as [H | H]; rewrite H.
    + exists ValueError, b. repeat split; auto.
    + eexists. eexists. split; [reflexivity|]. split; [right; reflexivity|].
      repeat split. intros Hfresh. apply set_dependency_graph_same.
      apply pop_set_fresh. exact Hfresh.
  - intros task_id new_dependencies.
    exact (update_dependencies_as_written fuel task_id new_dependencies b).
Qed.

Lemma no_new_task_preorder : Preorder no_new_task.
Proof. split; unfold no_new_task; auto. Qed.

Lemma same_shape_no_new_task (b b' : TaskBoardManager) :
  same_shape b b' -> no_new_task b b'.
Proof. intros [Hkeys _] k Hk. rewrite <- Hkeys. exact Hk. Qed.

Lemma keeps_shape_no_new_task {A} (m : M A) : keeps_shape m -> keeps no_new_task m.
Proof.
  intros H b. specialize (H b).
  destruct (m b); [| |exact I]; apply same_shape_no_new_task; exact H.
Qed.

Lemma remove_task_no_new_task (fuel : nat) (task_id : string) :
  keeps no_new_task (remove_task fuel task_id).
Proof.
  unfold remove_task.
  assert (Hpop : keeps no_new_task (mutate (set_tasks (Dict.pop task_id)))).
  { intros b k. cbn [tasks set_tasks]. rewrite mem_pop. intros H.
    apply andb_true_iff in H. apply H. }
  assert (Hsame : forall f, (forall b, tasks (f b) = tasks b) -> keeps no_new_task (mutate f)).
  { intros f Hf b k. unfold mutate. rewrite Hf. auto. }
  repeat first
    [ kept_step no_new_task_preorder
    | exact Hpop
    | apply Hsame; reflexivity
    | apply keeps_shape_no_new_task; apply keeps_handle_partial_failure_with;
      intros; apply keeps_update_task_status ].
Qed.

Lemma run_as_written_no_new_task (fuel : nat) (op : Operation) :
  keeps no_new_task (run AsWritten fuel op).
Proof.
  pose proof (keeps_run AsWritten fuel op) as Hshape.
  destruct op; try (apply keeps_shape_no_new_task; exact Hshape); cbn [run].
  - intros b. destruct (add_task_as_written fuel task b) as [H | H];
      unfold add_task in H; rewrite H; intros k Hk; exact Hk.
  - apply remove_task_no_new_task.
  - intros b.
    match goal with
    | |- context [update_dependencies_with _ fuel ?i ?ds] =>
        destruct (update_dependencies_as_written fuel i ds b) as [e [H _]]
    end.
    unfold update_dependencies in H. rewrite H. intros k Hk. exact Hk.
Qed.

(** X22. As written, no sequence of calls of the operations of [Operation]
    ever stores a task: the ids in the task store afterwards were all there
    before, and a manager whose store is empty, as [__init__] leaves it,
    still has an empty store. *)
Theorem as_written_no_task_is_ever_added :
  forall calls b,
    match run_all AsWritten calls b with
    | Some b' =>
        (forall k, Dict.mem k (tasks b') = true -> Dict.mem k (tasks b) = true)
        /\ (tasks b = [] -> tasks b' = [])
    | None => True
    end.
Proof.
  assert (Hkeys : forall calls b,
    match run_all AsWritten calls b with
    | Some b' => no_new_task b b'
    | None => True
    end).
  { induction calls as [|[fuel op] calls IH]; intros b; cbn [run_all].
    - intros k Hk. exact Hk.
    - pose proof (run_as_written_no_new_task fuel op b) as Hstep.
      destruct (run AsWritten fuel op b) as [a b1 | e b1 |]; cbn [final_state];
        [| |exact I]; specialize (IH b1);
        (destruct (run_all AsWritten calls b1) as [b'|]; [|exact I]);
        intros k Hk; exact (Hstep k (IH k Hk)). }
  intros calls b. specialize (Hkeys calls b).
  destruct (run_all AsWritten calls b) as [b'|]; [|exact I].
  split; [exact Hkeys|]. intros Hempty.
  destruct (tasks b') as [|[k t] ts] eqn:Hts; [reflexivity|].
  specialize (Hkeys k). rewrite Hts, Hempty in Hkeys.
  unfold Dict.mem in Hkeys. cbn in Hkeys. rewrite String.eqb_refl in Hkeys.
  discriminate (Hkeys eq_refl).
Qed.

(** ** The cycle test of [update_dependencies] *)

Lemma reaches_snoc (g : Dict.t (list string)) (a b c : string) :
  reaches g a b -> edge g b c -> reaches g a c.
Proof.
  induction 1 as [a b Hab | a b b' Hab Hbb' IH]; intros Hc.
  - eapply reaches_step; [exact Hab | apply reaches_edge; exact Hc].
  - eapply reaches_step; [exact Hab | exact (IH Hc)].
Qed.

Lemma chain_snoc (g : Dict.t (list string)) (p : list string) (node : string) :
  chain g p -> hangs g p node -> chain g (p ++ [node]).
Proof.
  intros Hchain Hhangs l1 a b l2 Heq.
  destruct (@exists_last _ (a :: b :: l2) ltac:(discriminate)) as [l' [x Hl']].
  assert (Hsplit : p ++ [node] = (l1 ++ l') ++ [x]).
  { rewrite Heq, Hl', app_assoc. reflexivity. }
  apply app_inj_tail in Hsplit. destruct Hsplit as [Hp <-].
  destruct l2 as [|y l2].
  - destruct l' as [|a' [|b' l'']]; cbn in Hl'.
    + discriminate.
    + injection Hl' as <- <-. apply (Hhangs l1 a). rewrite Hp. reflexivity.
    + injection Hl' as _ _ Hnil. destruct l''; discriminate.
  - destruct (@exists_last _ (y :: l2) ltac:(discriminate)) as [l2' [z Hz]].
    rewrite Hz in Hl'.
    change (a :: b :: l2' ++ [z]) with ((a :: b :: l2') ++ [z]) in Hl'.
    apply app_inj_tail in Hl'. destruct Hl' as [<- _].
    apply (Hchain l1 a b l2'). exact Hp.
Qed.

Lemma hangs_snoc (g : Dict.t (list string)) (p : list string) (node d : string) :
  edge g node d -> hangs g (p ++ [node]) d.
Proof.
  intros Hd l a Heq. apply app_inj_tail in Heq. destruct Heq as [_ <-]. exact Hd.
Qed.

Lemma chain_to_hanging (g : Dict.t (list string)) (x : string) (l2 : list string) :
  forall l1 a,
    chain g (l1 ++ a :: l2) -> hangs g (l1 ++ a :: l2) x -> reaches g a x.
Proof.
  induction l2 as [|b l2 IH]; intros l1 a Hchain Hhangs.
  - apply reaches_edge. apply (Hhangs l1 a). reflexivity.
  - eapply reaches_step; [exact (Hchain l1 a b l2 eq_refl)|].
    apply (IH (l1 ++ [a]) b); rewrite <- app_assoc; assumption.
Qed.

Lemma node_on_path_closes_cycle (g : Dict.t (list string)) (p : list string) (node : string) :
  chain g p -> hangs g p node -> In node p -> has_cycle g.
Proof.
  intros Hchain Hhangs Hin. apply in_split in Hin. destruct Hin as [l1 [l2 ->]].
  exists node. exact (chain_to_hanging g node l2 l1 node Hchain Hhangs).
Qed.

(** A call of [visit] that answers [False] leaves the path as it found it. *)
Lemma visit_false_path (g : Dict.t (list string)) (fuel : nat) :
  forall node v p v' p',
    visit fuel g node (v, p) = Some (false, (v', p')) -> p' = p.
Proof.
  induction fuel as [|fuel IH]; intros node v p v' p'; [discriminate|].
  cbn [visit].
  destruct (in_ids node p) eqn:Epath; [discriminate|].
  destruct (in_ids node v); [intros H; injection H as _ <-; reflexivity|].
  pose proof (in_ids_false _ _ Epath) as Hnot.
  match goal with
  | |- match ?loop ?deps ?s0 with _ => _ end = _ -> _ =>
      assert (Hloop : forall ds v1 v2 p2,
                loop ds (v1, p ++ [node]) = Some (false, (v2, p2)) -> p2 = p ++ [node]);
      [|generalize (Hloop deps (v ++ [node])); destruct (loop deps s0) as [[[|] [v2 p2]]|]]
  end.
  - induction ds as [|d ds IHd]; intros v1 v2 p2 H2.
    + injection H2 as _ <-. reflexivity.
    + destruct (visit fuel g d (v1, p ++ [node])) as [[[|] [v3 p3]]|] eqn:Hd;
        try discriminate.
      rewrite (IH _ _ _ _ _ Hd) in H2. exact (IHd _ _ _ H2).
  - discriminate.
  - intros Hp H. injection H as _ <-. rewrite (Hp v2 p2 eq_refl).
    apply filter_out_last. exact Hnot.
  - discriminate.
Qed.

(** A call of [visit] that answers [True] has closed a cycle of the graph. *)
Lemma visit_true_cycle (g : Dict.t (list string)) (fuel : nat) :
  forall node v p s',
    chain g p -> hangs g p node ->
    visit fuel g node (v, p) = Some (true, s') -> has_cycle g.
Proof.
  induction fuel as [|fuel IH]; intros node v p s' Hchain Hhangs; [discriminate|].
  cbn [visit].
  destruct (in_ids node p) eqn:Epath.
  { intros _. apply in_ids_spec in Epath.
    exact (node_on_path_closes_cycle g p node Hchain Hhangs Epath). }
  destruct (in_ids node v); [discriminate|].
  assert (Hdeps : forall d,
            In d (match Dict.get node g with Some ds => ds | None => [] end) ->
            edge g node d).
  { intros d Hd. destruct (Dict.get node g) as [deps|] eqn:Hget; [|destruct Hd].
    exists deps. split; [exact Hget | exact Hd]. }
  revert Hdeps. generalize (match Dict.get node g with Some ds => ds | None => [] end).
  intros deps Hdeps.
  match goal with
  | |- match ?loop deps ?s0 with _ => _ end = _ -> _ =>
      assert (Hloop : forall ds v1 s1,
                (forall d, In d ds -> edge g node d) ->
                loop ds (v1, p ++ [node]) = Some (true, s1) -> has_cycle g);
      [|generalize (Hloop deps (v ++ [node])); destruct (loop deps s0) as [[[|] [v2 p2]]|]]
  end.
  - induction ds as [|d ds IHd]; intros v1 s1 Hds H1; [discriminate|].
    destruct (visit fuel g d (v1, p ++ [node])) as [[[|] [v3 p3]]|] eqn:Hd;
      try discriminate.
    + apply (IH d v1 (p ++ [node]) (v3, p3)); [| |exact Hd].
      * exact (chain_snoc g p node Hchain Hhangs).
      * apply hangs_snoc. apply Hds. left. reflexivity.
    + rewrite (visit_false_path _ _ _ _ _ _ _ Hd) in H1.
      apply (IHd v3 s1); [|exact H1]. intros d' Hd'. apply Hds. right. exact Hd'.
  - intros Hcycle _. exact (Hcycle (v2, p2) Hdeps eq_refl).
  - discriminate.
  - discriminate.
Qed.

Lemma finished_reach (g : Dict.t (list string)) (v p : list string) (n x : string) :
  finished_ok g v p -> In n v -> ~ In n p -> reaches g n x -> In x v /\ ~ In x p.
Proof.
  intros Hok Hv Hp Hreach. revert Hv Hp.
  induction Hreach as [a b Hab | a b c Hab Hbc IH]; intros Hv Hp.
  - exact (proj1 (Hok a Hv Hp) b Hab).
  - destruct (proj1 (Hok a Hv Hp) b Hab) as [Hbv Hbp]. exact (IH Hbv Hbp).
Qed.

Lemma finished_ok_enter (g : Dict.t (list string)) (v p : list string) (node : string) :
  finished_ok g v p -> ~ In node v -> finished_ok g (v ++ [node]) (p ++ [node]).
Proof.
  intros Hok Hnew n Hn Hnp.
  assert (Hne : n <> node).
  { intros ->. apply Hnp. apply in_or_app. right. left. reflexivity. }
  assert (Hv : In n v).
  { apply in_app_or in Hn. destruct Hn as [Hn | [Hn | []]]; [exact Hn | congruence]. }
  assert (Hp : ~ In n p).
  { intros H. apply Hnp. apply in_or_app. left. exact H. }
  destruct (Hok n Hv Hp) as [Hsucc Hacyclic]. split; [|exact Hacyclic].
  intros m Hm. destruct (Hsucc m Hm) as [Hmv Hmp]. split.
  - apply in_or_app. left. exact Hmv.
  - intros H. apply in_app_or in H. destruct H as [H | [H | []]]; [exact (Hmp H)|].
    subst m. exact (Hnew Hmv).
Qed.

Lemma finished_ok_leave (g : Dict.t (list string)) (v p : list string) (node : string) :
  finished_ok g v (p ++ [node]) ->
  In node v ->
  (forall m, edge g node m -> In m v /\ ~ In m (p ++ [node])) ->
  finished_ok g v p.
Proof.
  intros Hok Hnode Hsucc n Hn Hnp.
  assert (Hweak : forall m, ~ In m (p ++ [node]) -> ~ In m p).
  { intros m H Hm. apply H. apply in_or_app. left. exact Hm. }
  destruct (String.eqb_spec n node) as [-> | Hne].
  - split.
    + intros m Hm. destruct (Hsucc m Hm) as [Hmv Hmp]. split; [exact Hmv | exact (Hweak m Hmp)].
    + intros Hcycle.
      assert (Hback : forall d, edge g node d -> reaches g d node \/ d = node -> False).
      { intros d Hd Hor. destruct (Hsucc d Hd) as [Hdv Hdp]. destruct Hor as [Hreach | ->].
        - destruct (finished_reach g v (p ++ [node]) d node Hok Hdv Hdp Hreach) as [_ H].
          apply H. apply in_or_app. right. left. reflexivity.
        - apply Hdp. apply in_or_app. right. left. reflexivity. }
      inversion Hcycle as [a b Hab | a b c Hab Hbc]; subst.
      * exact (Hback node Hab (or_intror eq_refl)).
      * exact (Hback b Hab (or_introl Hbc)).
  - assert (Hnp1 : ~ In n (p ++ [node])).
    { intros H. apply in_app_or in H. destruct H as [H | [H | []]]; [exact (Hnp H) | congruence]. }
    destruct (Hok n Hn Hnp1) as [Hs Hacyclic]. split; [|exact Hacyclic].
    intros m Hm. destruct (Hs m Hm) as [Hmv Hmp]. split; [exact Hmv | exact (Hweak m Hmp)].
Qed.

(** A call of [visit] that answers [False] has finished its node: the node
    and everything it reaches are visited, off the path and on no cycle. *)
Lemma visit_false_finished (g : Dict.t (list string)) (fuel : nat) :
  forall node v p v' p',
    finished_ok g v p ->
    visit fuel g node (v, p) = Some (false, (v', p')) ->
    finished_ok g v' p /\ incl v v' /\ In node v' /\ ~ In node p.
Proof.
  induction fuel as [|fuel IH]; intros node v p v' p' Hok; [discriminate|].
  cbn [visit].
  destruct (in_ids node p) eqn:Epath; [discriminate|].
  pose proof (in_ids_false _ _ Epath) as Hnot.
  destruct (in_ids node v) eqn:Evis.
  { intros H. injection H as <- <-. apply in_ids_spec in Evis.
    split; [exact Hok | split; [apply incl_refl | split; [exact Evis | exact Hnot]]]. }
  pose proof (in_ids_false _ _ Evis) as Hnew.
  assert (Hdeps : forall d,
            edge g node d ->
            In d (match Dict.get node g with Some ds => ds | None => [] end)).
  { intros d [deps [Hget Hd]]. rewrite Hget. exact Hd. }
  revert Hdeps. generalize (match Dict.get node g with Some ds => ds | None => [] end).
  intros deps Hdeps.
  match goal with
  | |- match ?loop deps ?s0 with _ => _ end = _ -> _ =>
      assert (Hloop : forall ds v1 v2 p2,
                finished_ok g v1 (p ++ [node]) ->
                loop ds (v1, p ++ [node]) = Some (false, (v2, p2)) ->
                finished_ok g v2 (p ++ [node]) /\ incl v1 v2
                /\ forall d, In d ds -> In d v2 /\ ~ In d (p ++ [node]));
      [|generalize (Hloop deps (v ++ [node])); destruct (loop deps s0) as [[[|] [v2 p2]]|]]
  end.
  - induction ds as [|d ds IHd]; intros v1 v2 p2 Hok1 H2.
    + injection H2 as <- _. split; [exact Hok1 | split; [apply incl_refl | intros d []]].
    + destruct (visit fuel g d (v1, p ++ [node])) as [[[|] [v3 p3]]|] eqn:Hd;
        try discriminate.
      destruct (IH _ _ _ _ _ Hok1 Hd) as (Hok3 & Hincl3 & Hd3 & Hdp).
      rewrite (visit_false_path _ _ _ _ _ _ _ Hd) in H2.
      destruct (IHd _ _ _ Hok3 H2) as (Hok2 & Hincl2 & Hrest).
      split; [exact Hok2 | split; [exact (incl_tran Hincl3 Hincl2)|]].
      intros d' [<- | H]; [split; [exact (Hincl2 _ Hd3) | exact Hdp] | exact (Hrest _ H)].
  - discriminate.
  - intros Hl H. injection H as <- _.
    destruct (Hl v2 p2 (finished_ok_enter g v p node Hok Hnew) eq_refl)
      as (Hok2 & Hincl2 & Hall).
    assert (Hnode : In node v2).
    { apply Hincl2. apply in_or_app. right. left. reflexivity. }
    split; [|split; [|split; [exact Hnode | exact Hnot]]].
    + apply (finished_ok_leave g v2 p node Hok2 Hnode).
      intros m Hm. exact (Hall m (Hdeps m Hm)).
    + intros x Hx. apply Hincl2. apply in_or_app. left. exact Hx.
  - discriminate.
Qed.

Lemma visit_any_true_cycle (g : Dict.t (list string)) (fuel : nat) (nodes : list string) :
  forall v, visit_any fuel g nodes (v, []) = Some true -> has_cycle g.
Proof.
  induction nodes as [|node nodes IH]; intros v; cbn [visit_any]; [discriminate|].
  destruct (visit fuel g node (v, [])) as [[[|] [v' p']]|] eqn:Hvisit; try discriminate.
  - intros _. apply (visit_true_cycle g fuel node v [] (v', p')); [| |exact Hvisit].
    + intros l1 a b l2 H. destruct l1; discriminate.
    + intros l a H. destruct l; discriminate.
  - rewrite (visit_false_path _ _ _ _ _ _ _ Hvisit). apply IH.
Qed.

Lemma visit_any_false_finished (g : Dict.t (list string)) (fuel : nat) (nodes : list string) :
  forall v,
    finished_ok g v [] ->
    visit_any fuel g nodes (v, []) = Some false ->
    exists v', finished_ok g v' [] /\ incl v v' /\ forall n, In n nodes -> In n v'.
Proof.
  induction nodes as [|node nodes IH]; intros v Hok; cbn [visit_any].
  - intros _. exists v. split; [exact Hok | split; [apply incl_refl | intros n []]].
  - destruct (visit fuel g node (v, [])) as [[[|] [v1 p1]]|] eqn:Hvisit; try discriminate.
    destruct (visit_false_finished _ _ _ _ _ _ _ Hok Hvisit) as (Hok1 & Hincl1 & Hnode & _).
    rewrite (visit_false_path _ _ _ _ _ _ _ Hvisit). intros Hrest.
    destruct (IH v1 Hok1 Hrest) as [v' (Hok' & Hincl' & Hall)].
    exists v'. split; [exact Hok' | split; [exact (incl_tran Hincl1 Hincl') |]].
    intros n [<- | Hn]; [exact (Hincl' _ Hnode) | exact (Hall n Hn)].
Qed.

(** X23. [_detect_cycles_in_graph] decides whether the graph has a cycle:
    on every graph it returns, and it returns [True] exactly when some node
    reaches itself along one or more dependency edges.  Ids that occur in a
    dependency set without being a key of the graph are treated as nodes
    without dependencies, and the answer does not depend on the order in
    which keys and dependency sets are iterated. *)
Theorem _detect_cycles_in_graph_decides_cycles :
  forall g,
    exists r, _detect_cycles_in_graph g = PVal r /\ (r = true <-> has_cycle g).
Proof.
  intros g. pose proof (_detect_cycles_in_graph_terminates g) as Hterm.
  unfold _detect_cycles_in_graph in *.
  destruct (visit_any (S (S (length g))) g (Dict.keys g) ([], [])) as [[|]|] eqn:Hany;
    [| |contradiction].
  - exists true. split; [reflexivity|]. split; [|reflexivity].
    intros _. exact (visit_any_true_cycle g _ _ _ Hany).
  - exists false. split; [reflexivity|]. split; [discriminate|].
    intros [n Hcycle]. exfalso.
    assert (Hempty : finished_ok g [] []) by (intros x []).
    destruct (visit_any_false_finished g _ _ _ Hempty Hany) as [v' (Hok & _ & Hall)].
    assert (Hkey : In n (Dict.keys g)).
    { inversion Hcycle as [a b [deps [Hget _]] | a b c [deps [Hget _]] _]; subst;
        exact (keys_get _ _ _ Hget). }
    exact (proj2 (Hok n (Hall n Hkey) (fun H => H)) Hcycle).
Qed.

(** ** The cycle search of [add_task] *)

Lemma chain_tail (g : Dict.t (list string)) (a : string) (l : list string) :
  chain g (a :: l) -> chain g l.
Proof. intros H l1 x y l2 Heq. apply (H (a :: l1) x y l2). rewrite Heq. reflexivity. Qed.

Lemma chain_suffix (g : Dict.t (list string)) (l1 l : list string) :
  chain g (l1 ++ l) -> chain g l.
Proof.
  induction l1 as [|a l1 IH]; intros H; [exact H|].
  apply IH. exact (chain_tail g a _ H).
Qed.

Lemma hangs_suffix (g : Dict.t (list string)) (l1 l : list string) (x : string) :
  hangs g (l1 ++ l) x -> hangs g l x.
Proof.
  intros H l0 a Heq. apply (H (l1 ++ l0) a). rewrite Heq, app_assoc. reflexivity.
Qed.

Lemma chain_reaches (g : Dict.t (list string)) (x : string) (l : list string) :
  forall a, chain g (a :: l ++ [x]) -> reaches g a x.
Proof.
  induction l as [|b l IH]; intros a H.
  - apply reaches_edge. exact (H [] a x [] eq_refl).
  - eapply reaches_step; [exact (H [] a b (l ++ [x]) eq_refl)|].
    apply IH. exact (chain_tail g a _ H).
Qed.

Lemma closed_walk_cycle (g : Dict.t (list string)) (c : list string) :
  closed_walk g c -> has_cycle g.
Proof. intros [n [mid [-> H]]]. exists n. exact (chain_reaches g n mid n H). Qed.

Lemma skipn_index_of (x : string) (l : list string) :
  In x l -> exists l1 l2, l = l1 ++ x :: l2 /\ skipn (index_of x l) l = x :: l2.
Proof.
  induction l as [|y l IH]; intros Hin; [destruct Hin|].
  cbn [index_of]. destruct (String.eqb_spec x y) as [-> | Hne].
  - exists [], l. split; reflexivity.
  - destruct Hin as [-> | Hin]; [congruence|].
    destruct (IH Hin) as [l1 [l2 [-> Hskip]]].
    exists (y :: l1), l2. split; [reflexivity | exact Hskip].
Qed.

Lemma recorded_cycle_is_walk (g : Dict.t (list string)) (p : list string) (x : string) :
  chain g p -> hangs g p x -> In x p ->
  closed_walk g (skipn (index_of x p) p ++ [x]).
Proof.
  intros Hchain Hhangs Hin.
  destruct (skipn_index_of x p Hin) as [l1 [l2 [-> Hskip]]]. rewrite Hskip.
  exists x, l2. split; [reflexivity|].
  apply (chain_snoc g (x :: l2) x).
  - exact (chain_suffix g l1 _ Hchain).
  - exact (hangs_suffix g l1 _ x Hhangs).
Qed.

Lemma app_same_nil {X} (l e : list X) : l ++ e = l -> e = [].
Proof.
  intros H. apply (app_inv_head l). rewrite app_nil_r. exact H.
Qed.

(** What a call of [dfs] that returns has done: the path is as it was, the
    list of cycles has only grown, and if it has not grown the node is
    finished. *)
Lemma dfs_returned (g : Dict.t (list string)) (fuel : nat) :
  forall task_id st st',
    dfs fuel g task_id st = PVal st' ->
    dfs_path st' = dfs_path st
    /\ (exists extra, dfs_cycles st' = dfs_cycles st ++ extra)
    /\ (dfs_cycles st' = dfs_cycles st ->
        finished_ok g (dfs_visited st) (dfs_path st) ->
        finished_ok g (dfs_visited st') (dfs_path st)
        /\ incl (dfs_visited st) (dfs_visited st')
        /\ In task_id (dfs_visited st')
        /\ ~ In task_id (dfs_path st)).
Proof.
  induction fuel as [|fuel IH]; intros task_id st st'; [discriminate|].
  cbn [dfs].
  destruct (in_ids task_id (dfs_path st)) eqn:Epath.
  { intros H. injection H as <-. cbn [dfs_path dfs_cycles dfs_visited].
    split; [reflexivity|]. split; [eexists; reflexivity|].
    intros Hsame. apply app_same_nil in Hsame. discriminate. }
  pose proof (in_ids_false _ _ Epath) as Hnot.
  destruct (in_ids task_id (dfs_visited st)) eqn:Evis.
  { intros H. injection H as <-. apply in_ids_spec in Evis.
    split; [reflexivity|]. split; [exists []; symmetry; apply app_nil_r|].
    intros _ Hok.
    split; [exact Hok | split; [apply incl_refl | split; [exact Evis | exact Hnot]]]. }
  pose proof (in_ids_false _ _ Evis) as Hnew.
  destruct (Dict.get task_id g) as [deps|] eqn:Hget; [|discriminate].
  set (p1 := dfs_path st ++ [task_id]).
  match goal with
  | |- match ?loop deps ?s0 with _ => _ end = _ -> _ =>
      assert (Hloop : forall ds s s2,
                dfs_path s = p1 ->
                loop ds s = PVal s2 ->
                dfs_path s2 = p1
                /\ (exists extra, dfs_cycles s2 = dfs_cycles s ++ extra)
                /\ (dfs_cycles s2 = dfs_cycles s ->
                    finished_ok g (dfs_visited s) p1 ->
                    finished_ok g (dfs_visited s2) p1
                    /\ incl (dfs_visited s) (dfs_visited s2)
                    /\ forall d, In d ds -> In d (dfs_visited s2) /\ ~ In d p1));
      [|generalize (Hloop deps s0); destruct (loop deps s0) as [s2 | e |]]
  end.
  - induction ds as [|d ds IHd]; intros s s2 Hp H2.
    + injection H2 as <-. split; [exact Hp|]. split; [exists []; symmetry; apply app_nil_r|].
      intros _ Hok. split; [exact Hok | split; [apply incl_refl | intros d []]].
    + destruct (dfs fuel g d s) as [s1 | e |] eqn:Hd; try discriminate.
      destruct (IH _ _ _ Hd) as (Hp1 & [e1 He1] & Hfin1).
      rewrite Hp in Hp1, Hfin1.
      destruct (IHd s1 s2 Hp1 H2) as (Hp2 & [e2 He2] & Hfin2).
      split; [exact Hp2|]. split.
      { exists (e1 ++ e2). rewrite He2, He1, app_assoc. reflexivity. }
      intros Hsame Hok.
      assert (Hnil : e1 ++ e2 = []).
      { apply (app_same_nil (dfs_cycles s)). rewrite app_assoc, <- He1, <- He2. exact Hsame. }
      apply app_eq_nil in Hnil. destruct Hnil as [-> ->].
      rewrite app_nil_r in He1, He2.
      destruct (Hfin1 He1 Hok) as (Hok1 & Hincl1 & Hd1 & Hdp).
      destruct (Hfin2 He2 Hok1) as (Hok2 & Hincl2 & Hrest).
      split; [exact Hok2 | split; [exact (incl_tran Hincl1 Hincl2)|]].
      intros d' [<- | H]; [split; [exact (Hincl2 _ Hd1) | exact Hdp] | exact (Hrest _ H)].
  - intros Hl H. injection H as <-. cbn [dfs_path dfs_cycles dfs_visited].
    destruct (Hl s2 eq_refl eq_refl) as (Hp2 & Hgrow & Hfin).
    cbn [dfs_path dfs_cycles dfs_visited] in Hgrow, Hfin.
    split; [rewrite Hp2; apply removelast_last|]. split; [exact Hgrow|].
    intros Hsame Hok.
    destruct (Hfin Hsame (finished_ok_enter g _ _ task_id Hok Hnew)) as (Hok2 & Hincl2 & Hall).
    assert (Hnode : In task_id (dfs_visited s2)).
    { apply Hincl2. apply in_or_app. right. left. reflexivity. }
    split; [|split; [|split; [exact Hnode | exact Hnot]]].
    + apply (finished_ok_leave g _ _ task_id Hok2 Hnode).
      intros m [deps' [Hget' Hm]]. rewrite Hget in Hget'. injection Hget' as <-.
      exact (Hall m Hm).
    + intros x Hx. apply Hincl2. apply in_or_app. left. exact Hx.
  - discriminate.
  - discriminate.
Qed.

(** Every list that [dfs] records is a closed walk of the graph. *)
Lemma dfs_records_walks (g : Dict.t (list string)) (fuel : nat) :
  forall task_id st st',
    chain g (dfs_path st) -> hangs g (dfs_path st) task_id ->
    (forall c, In c (dfs_cycles st) -> closed_walk g c) ->
    dfs fuel g task_id st = PVal st' ->
    forall c, In c (dfs_cycles st') -> closed_walk g c.
Proof.
  induction fuel as [|fuel IH]; intros task_id st st' Hchain Hhangs Hwalks; [discriminate|].
  cbn [dfs].
  destruct (in_ids task_id (dfs_path st)) eqn:Epath.
  { intros H. injection H as <-. cbn [dfs_cycles]. intros c Hc.
    apply in_app_or in Hc. destruct Hc as [Hc | [<- | []]]; [exact (Hwalks c Hc)|].
    apply in_ids_spec in Epath.
    exact (recorded_cycle_is_walk g _ task_id Hchain Hhangs Epath). }
  destruct (in_ids task_id (dfs_visited st)); [intros H; injection H as <-; exact Hwalks|].
  destruct (Dict.get task_id g) as [deps|] eqn:Hget; [|discriminate].
  set (p1 := dfs_path st ++ [task_id]).
  assert (Hchain1 : chain g p1) by exact (chain_snoc g _ task_id Hchain Hhangs).
  match goal with
  | |- match ?loop deps ?s0 with _ => _ end = _ -> _ =>
      assert (Hloop : forall ds s s2,
                (forall d, In d ds -> In d deps) ->
                dfs_path s = p1 ->
                (forall c, In c (dfs_cycles s) -> closed_walk g c) ->
                loop ds s = PVal s2 ->
                forall c, In c (dfs_cycles s2) -> closed_walk g c);
      [|generalize (Hloop deps s0); destruct (loop deps s0) as [s2 | e |]]
  end.
  - induction ds as [|d ds IHd]; intros s s2 Hds Hp Hw H2.
    + injection H2 as <-. exact Hw.
    + destruct (dfs fuel g d s) as [s1 | e |] eqn:Hd; try discriminate.
      apply (IHd s1 s2); [| | |exact H2].
      * intros d' Hd'. apply Hds. right. exact Hd'.
      * rewrite (proj1 (dfs_returned g fuel _ _ _ Hd)). exact Hp.
      * apply (IH d s s1); [rewrite Hp; exact Hchain1 | | exact Hw | exact Hd].
        rewrite Hp. apply hangs_snoc. exists deps. split; [exact Hget|].
        apply Hds. left. reflexivity.
  - intros Hl H. injection H as <-. cbn [dfs_cycles].
    exact (Hl s2 (fun d H => H) eq_refl Hwalks eq_refl).
  - discriminate.
  - discriminate.
Qed.

Lemma dfs_from_all_returned (g : Dict.t (list string)) (fuel : nat) (starts : list string) :
  forall st st',
    dfs_path st = [] ->
    (forall c, In c (dfs_cycles st) -> closed_walk g c) ->
    dfs_from_all fuel g starts st = PVal st' ->
    (forall c, In c (dfs_cycles st') -> closed_walk g c)
    /\ (exists extra, dfs_cycles st' = dfs_cycles st ++ extra)
    /\ (dfs_cycles st' = dfs_cycles st ->
        finished_ok g (dfs_visited st) [] ->
        finished_ok g (dfs_visited st') []
        /\ incl (dfs_visited st) (dfs_visited st')
        /\ forall n, In n starts -> In n (dfs_visited st')).
Proof.
  induction starts as [|k starts IHs]; intros st st' Hp Hw; cbn [dfs_from_all].
  - intros H. injection H as <-. split; [exact Hw|].
    split; [exists []; symmetry; apply app_nil_r|].
    intros _ Hok. split; [exact Hok | split; [apply incl_refl | intros n []]].
  - destruct (dfs fuel g k st) as [s1 | e |] eqn:Hk; try discriminate.
    destruct (dfs_returned g fuel _ _ _ Hk) as (Hp1 & [e1 He1] & Hfin1).
    rewrite Hp in Hp1, Hfin1.
    assert (Hw1 : forall c, In c (dfs_cycles s1) -> closed_walk g c).
    { apply (dfs_records_walks g fuel k st s1); [| |exact Hw | exact Hk]; rewrite Hp.
      - intros l1 a b l2 H. destruct l1; discriminate.
      - intros l a H. destruct l; discriminate. }
    intros Hrest. destruct (IHs s1 st' Hp1 Hw1 Hrest) as (Hw' & [e2 He2] & Hfin2).
    split; [exact Hw'|]. split.
    { exists (e1 ++ e2). rewrite He2, He1, app_assoc. reflexivity. }
    intros Hsame Hok.
    assert (Hnil : e1 ++ e2 = []).
    { apply (app_same_nil (dfs_cycles st)). rewrite app_assoc, <- He1, <- He2. exact Hsame. }
    apply app_eq_nil in Hnil. destruct Hnil as [-> ->].
    rewrite app_nil_r in He1, He2.
    destruct (Hfin1 He1 Hok) as (Hok1 & Hincl1 & Hk1 & _).
    destruct (Hfin2 He2 Hok1) as (Hok2 & Hincl2 & Hall).
    split; [exact Hok2 | split; [exact (incl_tran Hincl1 Hincl2)|]].
    intros n [<- | Hn]; [exact (Hincl2 _ Hk1) | exact (Hall n Hn)].
Qed.

(** X24. On a graph in which every dependency id is a key, as the manager
    keeps it, [detect_circular_dependencies] returns, without a [KeyError],
    a list of closed walks of the graph: each reported list starts and ends at
    the same task and follows dependency edges.  The list is non-empty
    exactly when the graph has a cycle, so with the [await] put back the test
    of [add_task] is exact. *)
Theorem detect_circular_dependencies_reports_cycles :
  forall g,
    closed g ->
    exists cycles,
      detect_circular_dependencies g = PVal cycles
      /\ (forall c, In c cycles -> closed_walk g c)
      /\ (cycles <> [] <-> has_cycle g).
Proof.
  intros g Hclosed.
  pose proof (detect_circular_dependencies_terminates g) as Hterm.
  pose proof (dfs_from_all_no_exn g Hclosed (S (S (length g))) (Dict.keys g)
                {| dfs_visited := []; dfs_path := []; dfs_cycles := [] |}) as Hexn.
  unfold detect_circular_dependencies in *.
  destruct (dfs_from_all _ g (Dict.keys g) _) as [st' | e |] eqn:Hrun.
  - exists (dfs_cycles st'). split; [reflexivity|].
    destruct (dfs_from_all_returned g _ _
                {| dfs_visited := []; dfs_path := []; dfs_cycles := [] |} st' eq_refl
                (fun c (H : In c []) => match H with end) Hrun) as (Hwalks & _ & Hfin).
    split; [exact Hwalks|]. split.
    + intros Hne. destruct (dfs_cycles st') as [|c cs] eqn:Hc; [congruence|].
      apply (closed_walk_cycle g c). apply Hwalks. left. reflexivity.
    + intros [n Hcycle] Hnil. cbn [dfs_cycles dfs_visited] in Hfin.
      assert (Hempty : finished_ok g [] []) by (intros x []).
      destruct (Hfin Hnil Hempty) as (Hok & _ & Hall).
      assert (Hkey : In n (Dict.keys g)).
      { inversion Hcycle as [a b [deps [Hget _]] | a b c [deps [Hget _]] _]; subst;
          exact (keys_get _ _ _ Hget). }
      exact (proj2 (Hok n (Hall n Hkey) (fun H => H)) Hcycle).
  - exfalso. apply (Hexn e); [|reflexivity]. intros k Hk. exact (mem_keys _ _ Hk).
  - exfalso. apply Hterm. reflexivity.
Qed.

Lemma detect_circular_dependencies_reports_cycles_witness :
  exists cycles,
    detect_circular_dependencies [("A", ["B"]); ("B", ["A"]); ("C", [])] = PVal cycles
    /\ (forall c, In c cycles -> closed_walk [("A", ["B"]); ("B", ["A"]); ("C", [])] c)
    /\ (cycles <> [] <-> has_cycle [("A", ["B"]); ("B", ["A"]); ("C", [])]).
Proof.
  apply (detect_circular_dependencies_reports_cycles [("A", ["B"]); ("B", ["A"]); ("C", [])]).
  intros k deps d Hin Hd.
  destruct Hin as [H | [H | [H | []]]]; injection H as <- <-; cbn in Hd;
    repeat (destruct Hd as [<- | Hd]; [reflexivity|]); destruct Hd.
Defined.

(** ** Abandoning and stalling *)

(** X25. No call of [update_task_status] with ABANDONED returns, and none
    emits an event or touches another task: for an unknown id it raises
    [KeyError], from IN_PROGRESS, PENDING_REVIEW, COMPLETE or ABANDONED it
    raises [InvalidTransitionError] and changes nothing, and from WAITING,
    REWORK_NEEDED or STALLED it writes the status and then raises
    [AttributeError], because the manager has no [propagate_status]. *)
Theorem update_task_status_to_abandoned_always_raises :
  forall fuel task_id reason b,
    update_task_status (S fuel) task_id ABANDONED reason b
    = match Dict.get task_id (tasks b) with
      | None => Raises KeyError b
      | Some t =>
          if status_in (status t) [WAITING; REWORK_NEEDED; STALLED]
          then Raises AttributeError
                 (set_tasks (Dict.adjust task_id (with_status ABANDONED)) b)
          else Raises InvalidTransitionError b
      end.
Proof.
  intros fuel task_id reason b.
  destruct (Dict.get task_id (tasks b)) as [t|] eqn:Hget.
  - destruct (status_in ABANDONED (VALID_TRANSITIONS (status t))) eqn:Hok.
    + rewrite (update_task_status_abandoned fuel b task_id t reason Hget Hok).
      destruct (status t); try discriminate; reflexivity.
    + rewrite (update_task_status_illegal fuel b task_id t ABANDONED reason Hget Hok).
      destruct (status t); try discriminate; reflexivity.
  - apply update_task_status_unknown. exact Hget.
Qed.

(** X26. Stalling a task at work consults its dependencies after the status
    is written: [update_task_status] with STALLED on an IN_PROGRESS task
    writes STALLED and then
    - returns, having emitted STATUS_CHANGED, if every dependency is stored
      and none is ABANDONED or STALLED;
    - raises [InvalidTransitionError], having emitted
      DEPENDENCY_RECOVERY_NEEDED and no STATUS_CHANGED, if some dependency
      has failed;
    - raises [KeyError] if a dependency is not stored.
    The task is STALLED in all three cases. *)
Theorem stalling_consults_the_dependencies :
  forall fuel b task_id t reason,
    Dict.get task_id (tasks b) = Some t ->
    status t = IN_PROGRESS ->
    let stalled := set_tasks (Dict.adjust task_id (with_status STALLED)) b in
    update_task_status (S (S fuel)) task_id STALLED reason b
    = match failed_dependencies (tasks stalled) (dependencies t) with
      | None => Raises KeyError stalled
      | Some [] =>
          Returns tt
            (log_event {| event_type := "STATUS_CHANGED"; task_id := task_id;
                          data := DataStatusChanged IN_PROGRESS STALLED reason |} stalled)
      | Some (d :: fd) =>
          Raises InvalidTransitionError
            (log_event {| event_type := "DEPENDENCY_RECOVERY_NEEDED"; task_id := task_id;
                          data := DataRecoveryNeeded (d :: fd) (history t)
                                    (escalation_agent b) |} stalled)
      end.
Proof.
  intros fuel b task_id t reason Hget Hstatus stalled.
  remember (S fuel) as n eqn:Hn. cbn [update_task_status].
  step_task_at Hget. rewrite Hstatus.
  cbn [VALID_TRANSITIONS status_in existsb TaskStatus_eqb orb negb].
  step_write. fold stalled.
  assert (Hget1 : Dict.get task_id (tasks stalled) = Some (with_status STALLED t)).
  { exact (get_adjust_same task_id (with_status STALLED) (tasks b) t Hget). }
  unfold bind at 1. unfold handle_partial_failure_with.
  step_task_at Hget1. unfold bind at 1, self at 1.
  cbn [dependencies with_status history].
  destruct (failed_dependencies (tasks stalled) (dependencies t)) as [[|d fd]|];
    [reflexivity | | reflexivity].
  unfold bind at 1, emit_task_event at 1, mutate at 1. subst n.
  rewrite (stall_only_from_in_progress fuel (log_event _ stalled) task_id _ _ Hget1
             ltac:(discriminate)).
  reflexivity.
Qed.

Lemma stalling_consults_the_dependencies_witness :
  update_task_status 2 "T" STALLED "stuck" two_active_board
  = Returns tt
      (log_event {| event_type := "STATUS_CHANGED"; task_id := "T";
                    data := DataStatusChanged IN_PROGRESS STALLED "stuck" |}
         (set_tasks (Dict.adjust "T" (with_status STALLED)) two_active_board)).
Proof.
  apply (stalling_consults_the_dependencies 0 two_active_board "T"
           (new_entry "T" [] IN_PROGRESS 5 10) "stuck"); reflexivity.
Defined.

(** ** Readiness of a task *)

Lemma all_complete_true_iff (ts : Dict.t TaskBoardEntry) (deps : list string) :
  all_complete ts deps = Some true
  <-> forall d, In d deps -> exists t, Dict.get d ts = Some t /\ status t = COMPLETE.
Proof.
  induction deps as [|dep deps IH]; cbn [all_complete].
  - split; [intros _ d [] | reflexivity].
  - destruct (Dict.get dep ts) as [dt|] eqn:Hget.
    + destruct (TaskStatus_eqb (status dt) COMPLETE) eqn:Hs; cbn [negb].
      * rewrite IH. split.
        -- intros H d [<- | Hd]; [|exact (H d Hd)].
           exists dt. split; [exact Hget|]. destruct (status dt); try discriminate; reflexivity.
        -- intros H d Hd. apply H. right. exact Hd.
      * split; [discriminate|]. intros H. exfalso.
        destruct (H dep (or_introl eq_refl)) as [t [Ht Hc]].
        rewrite Hget in Ht. injection Ht as <-. rewrite Hc in Hs. discriminate.
    + split; [discriminate|]. intros H. exfalso.
      destruct (H dep (or_introl eq_refl)) as [t [Ht _]]. rewrite Hget in Ht. discriminate.
Qed.

(** X27. [check_dependencies] is a pure query that reads the dependency
    graph, not the [dependencies] list of the entry: it never changes the
    manager, and it answers [True] exactly when the task is stored, the graph
    has a dependency set for it, and every id in that set names a stored
    task that is COMPLETE. *)
Theorem check_dependencies_true_iff_all_complete :
  forall task_id b,
    (forall r b', check_dependencies task_id b = Returns r b' -> b' = b)
    /\ (forall e b', check_dependencies task_id b = Raises e b' -> b' = b /\ e = KeyError)
    /\ (check_dependencies task_id b = Returns true b
        <-> Dict.mem task_id (tasks b) = true
            /\ exists deps,
                 Dict.get task_id (dependency_graph b) = Some deps
                 /\ forall d, In d deps ->
                      exists t, Dict.get d (tasks b) = Some t /\ status t = COMPLETE).
Proof.
  intros task_id b. split; [|split].
  - intros r b' H. exact (proj1 (check_dependencies_returned _ _ _ _ H)).
  - unfold check_dependencies, bind, self. intros e b'.
    destruct (negb (Dict.mem task_id (tasks b)));
      [intros H; injection H as <- <-; split; reflexivity|].
    destruct (Dict.get task_id (dependency_graph b)) as [deps|];
      [|intros H; injection H as <- <-; split; reflexivity].
    destruct (all_complete (tasks b) deps);
      [discriminate | intros H; injection H as <- <-; split; reflexivity].
  - split.
    + intros H. destruct (check_dependencies_returned _ _ _ _ H) as [_ [deps [Hdeps Hall]]].
      split.
      * revert H. unfold check_dependencies, bind, self.
        destruct (Dict.mem task_id (tasks b)); [reflexivity | discriminate].
      * exists deps. split; [exact Hdeps|]. apply all_complete_true_iff. exact Hall.
    + intros [Hmem [deps [Hdeps Hall]]]. apply all_complete_true_iff in Hall.
      unfold check_dependencies, bind, self. rewrite Hmem, Hdeps, Hall. reflexivity.
Qed.

(** ** Depth of the nested calls *)

(** X28. Every operation but the scheduler loop returns or raises from
    every state, and the calls it nests ([update_task_status] calling a
    handler that calls [update_task_status] again) are never more than two
    deep, whatever the dependency data: two units of fuel are enough, with
    the cycle tests as written and with the [await] put back. *)
Theorem operations_return_or_raise_within_two_nested_calls :
  forall r fuel op b,
    op <> OpGetNextPriorityTask ->
    exists b',
      (exists a, run r (S (S fuel)) op b = Returns a b')
      \/ (exists e, run r (S (S fuel)) op b = Raises e b').
Proof.
  intros r fuel op b Hop.
  pose proof (run_returns_or_raises r fuel op Hop b) as Htotal.
  destruct (run r (S (S fuel)) op b) as [a b' | e b' |].
  - exists b'. left. exists a. reflexivity.
  - exists b'. right. exists e. reflexivity.
  - contradiction.
Qed.

Lemma operations_return_or_raise_within_two_nested_calls_witness :
  exists b',
    (exists a, run AwaitRestored 2 (OpHandleVerificationResult "A" true []) fan_out_board
               = Returns a b')
    \/ (exists e, run AwaitRestored 2 (OpHandleVerificationResult "A" true []) fan_out_board
                  = Raises e b').
Proof.
  apply (operations_return_or_raise_within_two_nested_calls AwaitRestored 0
           (OpHandleVerificationResult "A" true []) fan_out_board).
  discriminate.
Defined.

(** ** [break_down_task] and [update_task_state] *)

Lemma create_subtasks_as_written (fuel : nat) (parent_task : TaskBoardEntry)
  (task_id : string) (subtasks : list SubtaskData) :
  forall subtask_ids b,
    subtasks <> [] ->
    exists e b',
      create_subtasks AsWritten fuel parent_task task_id subtasks subtask_ids b
      = Raises e b'
      /\ tasks b' = tasks b
      /\ priority_queue b' = priority_queue b
      /\ event_stream b' = event_stream b.
Proof.
  destruct subtasks as [|subtask_data subtasks]; intros subtask_ids b Hne; [congruence|].
  cbn [create_subtasks].
  destruct (sd_description subtask_data) as [subtask_description|].
  - match goal with
    | |- context [add_task_with _ fuel ?t] =>
        destruct (add_task_as_written fuel t b) as [H | H]
    end; unfold add_task in H; unfold bind at 1; rewrite H;
      eexists; eexists; (split; [reflexivity|]); repeat split.
  - exists KeyError, b. repeat split.
Qed.

(** X29. As written, [break_down_task] cannot succeed and creates nothing:
    every call raises, from the unknown parent, from a subtask without
    description, from the [add_task] of the first subtask, or, with no
    subtasks, from [update_dependencies]; the task store, the priority queue
    and the event stream are left as they were. *)
Theorem break_down_task_as_written_creates_nothing :
  forall fuel task_id subtasks b,
    exists e b',
      break_down_task AsWritten fuel task_id subtasks b = Raises e b'
      /\ tasks b' = tasks b
      /\ priority_queue b' = priority_queue b
      /\ event_stream b' = event_stream b.
Proof.
  intros fuel task_id subtasks b. unfold break_down_task. unfold bind at 1, self at 1.
  destruct (Dict.get task_id (tasks b)) as [t|] eqn:Hget.
  2:{ unfold Dict.mem. rewrite Hget. exists KeyError, b. repeat split. }
  rewrite (mem_get_some _ _ _ Hget). cbn [negb]. step_task_at Hget.
  destruct subtasks as [|subtask_data subtasks].
  - cbn [create_subtasks]. unfold bind at 1, ret at 1.
    destruct (update_dependencies_as_written fuel task_id [] b) as [e [H _]].
    unfold update_dependencies in H. unfold bind at 1. rewrite H.
    exists e, b. repeat split.
  - destruct (create_subtasks_as_written fuel t task_id (subtask_data :: subtasks) [] b
                ltac:(discriminate)) as [e [b' [H Hsame]]].
    unfold bind at 1. rewrite H. exists e, b'. split; [reflexivity | exact Hsame].
Qed.

(** X30. [update_task_state] never returns for a task whose entry lists a
    dependency.  When the requested state names a status and the task is
    stored, the call does what [update_task_status] does and then, if the
    entry has dependencies, raises [AttributeError] from the first turn of
    its loop, after the status has been written, the dependents updated and
    STATUS_CHANGED emitted; only for a task without dependencies does it
    return when [update_task_status] returns. *)
Theorem update_task_state_raises_after_the_status_change :
  forall member_named fuel task_id state status b t,
    member_named state = Some status ->
    Dict.get task_id (tasks b) = Some t ->
    update_task_state member_named fuel task_id state b
    = match update_task_status fuel task_id status ("State updated to " ++ state) b with
      | Returns _ b' =>
          if nonempty (dependencies t) then Raises AttributeError b' else Returns tt b'
      | Raises e b' => Raises e b'
      | Diverges => Diverges
      end.
Proof.
  intros member_named fuel task_id state status b t Hmember Hget.
  unfold update_task_state. rewrite Hmember. unfold bind at 1.
  pose proof (spared_update_task_status fuel task_id status ("State updated to " ++ state) b)
    as Hspared.
  destruct (update_task_status fuel task_id status ("State updated to " ++ state) b)
    as [u b' | e b' |]; [|reflexivity|reflexivity].
  destruct Hspared as (He & _ & _).
  destruct (He task_id t Hget) as [t' [Hget' (Hdeps & _ & _)]].
  unfold bind at 1, self at 1. rewrite Hget', Hdeps.
  destruct (dependencies t) as [|d ds]; [reflexivity|].
  cbn [nonempty for_each]. reflexivity.
Qed.

Lemma update_task_state_raises_after_the_status_change_witness :
  update_task_state (fun _ => Some IN_PROGRESS) 1 "B" "in_progress" fan_out_board
  = match update_task_status 1 "B" IN_PROGRESS ("State updated to " ++ "in_progress")
            fan_out_board with
    | Returns _ b' =>
        if nonempty (dependencies (new_entry "B" ["A"] WAITING 5 10))
        then Raises AttributeError b' else Returns tt b'
    | Raises e b' => Raises e b'
    | Diverges => Diverges
    end.
Proof.
  apply (update_task_state_raises_after_the_status_change (fun _ => Some IN_PROGRESS) 1
           "B" "in_progress" IN_PROGRESS fan_out_board (new_entry "B" ["A"] WAITING 5 10));
    reflexivity.
Defined.
